(** * Hexagonal Chain: coordinates, headers and the HexaProof validation pipeline

    A shallow embedding of [pkg/core] (hexagonal coordinates, proofs, headers,
    blocks, the block validator) and of [pkg/consensus] (the HexaProof
    engine), together with the properties of the validation stages.

    Conventions.  Go's fixed-width integers are integers of [Z] with the
    wrap-around written out ([wrap64] for [int64], [mod 2^64] for [uint64]).
    A [common.Hash] is the 256-bit number its 32 bytes spell; the empty hash
    [common.Hash{}] is [0].  A fixed array [[6]T] is the record [Array6 T].
    A Go [error] result is a [result]: [Ok] for [nil], [Err e] otherwise. *)

From Stdlib Require Import ZArith List Bool Lia.
From Stdlib.Strings Require Import String.
From Stdlib.Strings Require Ascii Byte.
Import ListNotations.
Local Open Scope Z_scope.

(* ================================================================== *)
(** ** Machine integers *)

Module Int64.

Definition modulus : Z := 18446744073709551616.      (* 2^64 *)
Definition half_modulus : Z := 9223372036854775808.  (* 2^63 *)

(** Two's-complement reduction of an integer to the [int64] range. *)
Definition wrap64 (z : Z) : Z := (z + half_modulus) mod modulus - half_modulus.

Definition add64 (a b : Z) : Z := wrap64 (a + b).
Definition sub64 (a b : Z) : Z := wrap64 (a - b).
Definition neg64 (a : Z) : Z := wrap64 (- a).

(** Reduction to the [uint64] range. *)
Definition wrapU64 (z : Z) : Z := z mod modulus.
Definition addU64 (a b : Z) : Z := wrapU64 (a + b).
Definition subU64 (a b : Z) : Z := wrapU64 (a - b).

End Int64.

Import Int64.

(* ================================================================== *)
(** ** Fixed arrays of six slots *)

Record Array6 (A : Type) : Type := mkArray6 {
  slot0 : A; slot1 : A; slot2 : A; slot3 : A; slot4 : A; slot5 : A
}.
Arguments mkArray6 {A}.
Arguments slot0 {A}.
Arguments slot1 {A}.
Arguments slot2 {A}.
Arguments slot3 {A}.
Arguments slot4 {A}.
Arguments slot5 {A}.

(** The slots in index order, as a [range] loop visits them. *)
Definition elems {A} (a : Array6 A) : list A :=
  [slot0 a; slot1 a; slot2 a; slot3 a; slot4 a; slot5 a].

(** The zero value of [[6]T]: every slot holds [T]'s zero value. *)
Definition fill6 {A} (x : A) : Array6 A := mkArray6 x x x x x x.

(** [for i, x := range a { b[i] = f(x) }] *)
Definition map6 {A B} (f : A -> B) (a : Array6 A) : Array6 B :=
  mkArray6 (f (slot0 a)) (f (slot1 a)) (f (slot2 a))
           (f (slot3 a)) (f (slot4 a)) (f (slot5 a)).

Definition set_slot0 {A} (a : Array6 A) (x : A) : Array6 A :=
  mkArray6 x (slot1 a) (slot2 a) (slot3 a) (slot4 a) (slot5 a).

(* ================================================================== *)
(** ** Hashes, addresses, byte strings *)

Definition Hash : Type := Z.
Definition zero_hash : Hash := 0.
Definition hash_eqb (a b : Hash) : bool := Z.eqb a b.
Definition is_empty_hash (h : Hash) : bool := hash_eqb h zero_hash.

Definition bytes : Type := list Byte.byte.
(** A [common.Address], as its 20 bytes. *)
Definition Address : Type := list Byte.byte.
Definition zero_address : Address := repeat Byte.x00 20.

(** Results of functions returning [error]. *)
Inductive result (E : Type) : Type :=
| Ok : result E
| Err : E -> result E.
Arguments Ok {E}.
Arguments Err {E}.

(** [if err := f(); err != nil { return err }; k] *)
Definition and_then {E} (r : result E) (k : result E) : result E :=
  match r with Ok => k | Err e => Err e end.
Notation "r ;; k" := (and_then r k) (at level 61, right associativity).

(* ================================================================== *)
(** ** Package [types] of go-ethereum: the standard header *)

Module types.

Record Header : Type := mkHeader {
  ParentHash : Hash;
  UncleHash : Hash;
  Coinbase : Address;
  Root : Hash;
  TxHash : Hash;
  ReceiptHash : Hash;
  Bloom : bytes;
  Difficulty : Z;                 (* *big.Int *)
  Number : Z;                     (* *big.Int *)
  GasLimit : Z;
  GasUsed : Z;
  Time : Z;                       (* uint64 *)
  Extra : bytes;
  MixDigest : Hash;
  Nonce : Z;
  BaseFee : option Z;
  WithdrawalsHash : option Hash;
  BlobGasUsed : option Z;
  ExcessBlobGas : option Z;
  ParentBeaconRoot : option Hash  (* not named anywhere in this repository *)
}.

(** [Bloom{}]: 256 zero bytes. *)
Definition zero_bloom : bytes := repeat Byte.x00 256.

(** Transactions and withdrawals, as their encodings. *)
Definition Transaction : Type := bytes.
Definition Withdrawal : Type := bytes.

Definition EmptyRootHash : Hash :=
  0x56e81f171bcc55a6ff8345e692c0f86e5b48e01b996cadc001622fb5e363b421.
Definition EmptyUncleHash : Hash :=
  0x1dcc4de8dec75d7aab85b567b6ccd41ad312451b948a7413f0a142fd40d49347.
Definition EmptyTxsHash : Hash := EmptyRootHash.
Definition EmptyReceiptsHash : Hash := EmptyRootHash.

(** [Uint64] of a [big.Int]: the low 64 bits of the magnitude. *)
Definition Uint64 (x : Z) : Z := Z.abs x mod modulus.

End types.

(* ================================================================== *)
(** ** Package [core]: hexagonal coordinates *)

Module core.

Record HexCoordinate : Type := mkHexCoordinate {
  Q : Z;  (* column *)
  R : Z;  (* row *)
  S : Z   (* S = -Q - R *)
}.

Definition coord_eqb (a b : HexCoordinate) : bool :=
  (Q a =? Q b) && (R a =? R b) && (S a =? S b).

Definition NewHexCoordinate (q r : Z) : HexCoordinate :=
  {| Q := q; R := r; S := sub64 (neg64 q) r |}.

Definition abs (x : Z) : Z := if x <? 0 then neg64 x else x.

Definition Distance (h other : HexCoordinate) : Z :=
  Z.quot
    (add64 (add64 (abs (sub64 (Q h) (Q other))) (abs (sub64 (R h) (R other))))
           (abs (sub64 (S h) (S other))))
    2.

(** The six directions, the constants [HexEast .. HexSouthEast]. *)
Inductive HexDirection : Type :=
| HexEast | HexNorthEast | HexNorthWest | HexWest | HexSouthWest | HexSouthEast.

Definition directions : Array6 (Z * Z) :=
  mkArray6 (1, 0) (1, -1) (0, -1) (-1, 0) (-1, 1) (0, 1).

(** [directions[d]] *)
Definition direction_offset (d : HexDirection) : Z * Z :=
  match d with
  | HexEast => slot0 directions
  | HexNorthEast => slot1 directions
  | HexNorthWest => slot2 directions
  | HexWest => slot3 directions
  | HexSouthWest => slot4 directions
  | HexSouthEast => slot5 directions
  end.

Definition Neighbors (h : HexCoordinate) : Array6 HexCoordinate :=
  map6 (fun dir => NewHexCoordinate (add64 (Q h) (fst dir)) (add64 (R h) (snd dir)))
       directions.

(** The cube constraint as [validateHexCoordinate] tests it, in [int64]
    arithmetic. *)
Definition cube_sum (p : HexCoordinate) : Z := add64 (add64 (Q p) (R p)) (S p).

(* ---------------------------------------------------------------- *)
(** *** The consensus proof carried by a header *)

Record HexaProof : Type := mkHexaProof {
  NeighborSignatures : Array6 bytes;  (* signatures from neighbors *)
  StateProof : bytes;
  MeshProof : bytes;
  Timestamp : Z;                      (* uint64 *)
  ValidatorSet : list Address;
  ProofHash : Hash                    (* cached hash of the proof *)
}.

(** The zero value [HexaProof{}]. *)
Definition empty_proof : HexaProof :=
  mkHexaProof (fill6 []) [] [] 0 [] zero_hash.

Definition set_ProofHash (hp : HexaProof) (h : Hash) : HexaProof :=
  mkHexaProof (NeighborSignatures hp) (StateProof hp) (MeshProof hp)
              (Timestamp hp) (ValidatorSet hp) h.

Definition byte_of_Z (z : Z) : Byte.byte :=
  match Byte.of_N (Z.to_N (z mod 256)) with
  | Some b => b
  | None => Byte.x00
  end.

(** [binary.BigEndian.PutUint64] into a fresh 8-byte slice. *)
Definition PutUint64 (v : Z) : bytes :=
  map (fun i => byte_of_Z (Z.shiftr v (8 * i))) [7; 6; 5; 4; 3; 2; 1; 0].

(** What [Hash] feeds to the hasher, in the order of its [Write] calls. *)
Definition proof_preimage (hp : HexaProof) : bytes :=
  List.concat (elems (NeighborSignatures hp))
  ++ StateProof hp ++ MeshProof hp
  ++ PutUint64 (Timestamp hp)
  ++ List.concat (ValidatorSet hp).

Section Sha256.
(** [crypto/sha256]: the digest of a byte string, read as a [Hash]. *)
Variable sha256 : bytes -> Hash.

(** [(hp *HexaProof) Hash()]: the returned hash and the proof as the call
    leaves it. *)
Definition HexaProof_Hash (hp : HexaProof) : Hash * HexaProof :=
  if negb (is_empty_hash (ProofHash hp)) then (ProofHash hp, hp)
  else
    let hp' := set_ProofHash hp (sha256 (proof_preimage hp)) in
    (ProofHash hp', hp').
End Sha256.

(* ---------------------------------------------------------------- *)
(** *** Headers *)

Record HexHeader : Type := mkHexHeader {
  ParentHashes : Array6 Hash;   (* up to 6 parent references *)
  NeighborCount : Z;            (* uint8 *)
  HexPosition : HexCoordinate;
  MeshRoot : Hash;
  HexProof : HexaProof;
  Coinbase : Address;
  Root : Hash;
  TxHash : Hash;
  ReceiptHash : Hash;
  Bloom : bytes;
  Difficulty : Z;               (* *big.Int *)
  Number : Z;                   (* *big.Int *)
  GasLimit : Z;
  GasUsed : Z;
  Time : Z;                     (* uint64 *)
  Extra : bytes;
  MixDigest : Hash;
  Nonce : Z;
  BaseFee : option Z;
  WithdrawalsHash : option Hash;
  BlobGasUsed : option Z;
  ExcessBlobGas : option Z
}.

(** [ToEthHeader]: the first non-zero parent becomes the single parent. *)
Definition first_parent (h : HexHeader) : Hash :=
  match find (fun x => negb (is_empty_hash x)) (elems (ParentHashes h)) with
  | Some x => x
  | None => zero_hash
  end.

Definition ToEthHeader (h : HexHeader) : types.Header :=
  {| types.ParentHash := first_parent h;
     types.UncleHash := types.EmptyUncleHash;
     types.Coinbase := Coinbase h;
     types.Root := Root h;
     types.TxHash := TxHash h;
     types.ReceiptHash := ReceiptHash h;
     types.Bloom := Bloom h;
     types.Difficulty := Difficulty h;
     types.Number := Number h;
     types.GasLimit := GasLimit h;
     types.GasUsed := GasUsed h;
     types.Time := Time h;
     types.Extra := Extra h;
     types.MixDigest := MixDigest h;
     types.Nonce := Nonce h;
     types.BaseFee := BaseFee h;
     types.WithdrawalsHash := WithdrawalsHash h;
     types.BlobGasUsed := BlobGasUsed h;
     types.ExcessBlobGas := ExcessBlobGas h;
     types.ParentBeaconRoot := None |}.

(* ---------------------------------------------------------------- *)
(** *** Blocks *)

Record HexBlock : Type := mkHexBlock {
  header : HexHeader;
  transactions : list types.Transaction;
  withdrawals : list types.Withdrawal;
  neighborProofs : Array6 bytes;
  meshWitness : bytes;
  hash : Hash;     (* cache *)
  size : Z         (* cache *)
}.

Definition NewHexBlock (h : HexHeader) (txs : list types.Transaction)
           (ws : list types.Withdrawal) : HexBlock :=
  mkHexBlock h txs ws (fill6 []) [] zero_hash 0.

Definition Block_Header (b : HexBlock) : HexHeader := header b.
Definition Block_ParentHashes (b : HexBlock) : Array6 Hash := ParentHashes (header b).
Definition Block_HexPosition (b : HexBlock) : HexCoordinate := HexPosition (header b).
Definition Block_NeighborCount (b : HexBlock) : Z := NeighborCount (header b).

Definition bytes_of_string (s : String.string) : bytes := String.list_byte_of_string s.

(** [HexGenesisBlock]; [now] is what [time.Now().Unix()] returns. *)
Definition HexGenesisBlock (now : Z) : HexBlock :=
  NewHexBlock
    {| ParentHashes := fill6 zero_hash;
       NeighborCount := 0;
       HexPosition := NewHexCoordinate 0 0;
       MeshRoot := zero_hash;
       HexProof := empty_proof;
       Coinbase := zero_address;
       Root := zero_hash;
       TxHash := types.EmptyTxsHash;
       ReceiptHash := types.EmptyReceiptsHash;
       Bloom := types.zero_bloom;
       Difficulty := 1;
       Number := 0;
       GasLimit := 5000000;
       GasUsed := 0;
       Time := wrapU64 now;
       Extra := bytes_of_string "Hexagonal Chain Genesis"%string;
       MixDigest := zero_hash;
       Nonce := 0;
       BaseFee := None;
       WithdrawalsHash := None;
       BlobGasUsed := None;
       ExcessBlobGas := None |}
    [] [].

Section Keccak.
(** [rlpHash]: Keccak-256 of the RLP encoding of a header. *)
Variable rlpHash : HexHeader -> Hash.

Definition HexHeader_Hash (h : HexHeader) : Hash := rlpHash h.

(** [(b *HexBlock) Hash()]: the hash and the block with its cache filled. *)
Definition HexBlock_Hash (b : HexBlock) : Hash * HexBlock :=
  if is_empty_hash (hash b) then
    let b' := mkHexBlock (header b) (transactions b) (withdrawals b)
                         (neighborProofs b) (meshWitness b)
                         (HexHeader_Hash (header b)) (size b) in
    (hash b', b')
  else (hash b, b).
End Keccak.

(* ---------------------------------------------------------------- *)
(** *** Errors

    One constructor per error the validation code builds, with the values
    its message is formatted from. *)

Inductive error : Type :=
(* structural *)
| ErrTooManyNeighbors (declared : Z)
| ErrNeighborCountMismatch (declared actual : Z)
| ErrGenesisNeighbors
| ErrNonGenesisNoParent
(* parents *)
| ErrUnknownParent (parent : Hash) (index : Z)
| ErrInvalidParentNumber (parent current : Z)
| ErrParentTooOld (difference bound : Z)
(* topology *)
| ErrSelfReference
| ErrCircularReference
| ErrParentNotNeighbor (parentPos pos : HexCoordinate)
(* neighbor count *)
| ErrTooManyNeighborsForConfig (count bound : Z)
| ErrInsufficientNeighbors (count bound : Z)
(* timestamp *)
| ErrInvalidTimestamp (time parentTime : Z)
| ErrTimestampInFuture (time bound : Z)
(* proof *)
| ErrMissingProofTimestamp
| ErrProofBeforeBlock
| ErrProofUnknownParent (parent : Hash)
| ErrInsufficientSignatures (got need : Z)
(* block validator *)
| ErrInvalidHexCoordinate (pos : HexCoordinate)
| ErrParentState (parent : Hash) (cause : error)
| ErrNoParentStates
(* wrapping and collaborators *)
| ErrConvert (cause : error)
| ErrExternal (message : String.string).

Definition res : Type := result error.

(** [for _, x := range l { if err := f(x); err != nil { return err } }] *)
Fixpoint for_each {A} (f : A -> res) (l : list A) : res :=
  match l with
  | [] => Ok
  | x :: rest => f x ;; for_each f rest
  end.

(** The same loop with the index. *)
Fixpoint for_each_indexed {A} (f : Z -> A -> res) (i : Z) (l : list A) : res :=
  match l with
  | [] => Ok
  | x :: rest => f i x ;; for_each_indexed f (i + 1) rest
  end.

(** Number of non-empty slots, as the counting loops compute it. *)
Definition count_nonzero_hashes (a : Array6 Hash) : Z :=
  fold_left (fun n x => if negb (is_empty_hash x) then n + 1 else n) (elems a) 0.

Definition count_signatures (a : Array6 bytes) : Z :=
  fold_left (fun n sig => if (0 <? Z.of_nat (List.length sig)) then n + 1 else n)
            (elems a) 0.

(* ---------------------------------------------------------------- *)
(** *** The block validator *)

(** [state.StateDB], reduced to its key/value content. *)
Definition StateDB : Type := list (Hash * Hash).
Definition Copy (s : StateDB) : StateDB := s.

(** The part of [HexBlockChain] the validator calls. *)
Record HexBlockChain : Type := mkHexBlockChain {
  GetHeaderByHash : Hash -> option types.Header;
  GetHexBlock : Hash -> option HexBlock;
  HasHexBlock : Hash -> bool;
  GetState : Hash -> StateDB + error
}.

(** A Go [map[HexCoordinate]bool]: the keys inserted, each with its value;
    a missing key reads as [false]. *)
Definition coord_map : Type := list (HexCoordinate * bool).

Definition coord_map_insert (m : coord_map) (k : HexCoordinate) (v : bool) : coord_map :=
  (k, v) :: m.

Definition coord_map_get (m : coord_map) (k : HexCoordinate) : bool :=
  match find (fun kv => coord_eqb (fst kv) k) m with
  | Some kv => snd kv
  | None => false
  end.

Definition neighbor_map (pos : HexCoordinate) : coord_map :=
  fold_left (fun m n => coord_map_insert m n true) (elems (Neighbors pos)) [].

Definition validateHexCoordinate (h : HexHeader) : res :=
  let pos := HexPosition h in
  if negb (cube_sum pos =? 0) then Err (ErrInvalidHexCoordinate pos) else Ok.

Definition validateHexSpecificHeader (bc : HexBlockChain) (h : HexHeader) : res :=
  if NeighborCount h >? 6 then Err (ErrTooManyNeighbors (NeighborCount h)) else
  let actualParents := count_nonzero_hashes (ParentHashes h) in
  if negb (actualParents =? NeighborCount h)
  then Err (ErrNeighborCountMismatch (NeighborCount h) actualParents) else
  for_each_indexed
    (fun i parentHash =>
       if is_empty_hash parentHash then Ok
       else if negb (HasHexBlock bc parentHash) then Err (ErrUnknownParent parentHash i)
       else Ok)
    0 (elems (ParentHashes h)) ;;
  validateHexCoordinate h.

(** [ValidateHexHeader]; [VerifyHeader] is the consensus engine's method. *)
Definition ValidateHexHeader (VerifyHeader : types.Header -> res)
           (bc : HexBlockChain) (h : HexHeader) : res :=
  VerifyHeader (ToEthHeader h) ;; validateHexSpecificHeader bc h.

(** The loop of [ValidateStateTransitions] that collects the parent states:
    the states gathered so far, or the first failure. *)
Fixpoint collect_parent_states (bc : HexBlockChain) (hashes : list Hash)
         (acc : list StateDB) : list StateDB + error :=
  match hashes with
  | [] => inl acc
  | parentHash :: rest =>
      if is_empty_hash parentHash then collect_parent_states bc rest acc
      else match GetState bc parentHash with
           | inr e => inr (ErrParentState parentHash e)
           | inl parentState => collect_parent_states bc rest (acc ++ [parentState])
           end
  end.

Definition ValidateStateTransitions (bc : HexBlockChain) (block : HexBlock) : res :=
  let h := Block_Header block in
  match collect_parent_states bc (elems (ParentHashes h)) [] with
  | inr e => Err e
  | inl parentStates =>
      match parentStates with
      | [] => if negb (types.Uint64 (Number h) =? 0) then Err ErrNoParentStates else Ok
      | first :: _ =>
          let baseState := Copy first in
          let _ := baseState in
          Ok
      end
  end.

(** [validateMeshTopology] of the block validator. *)
Definition validateMeshTopology (bc : HexBlockChain) (block : HexBlock) : res :=
  let h := Block_Header block in
  let validNeighborMap := neighbor_map (HexPosition h) in
  for_each
    (fun parentHash =>
       if is_empty_hash parentHash then Ok
       else match GetHexBlock bc parentHash with
            | Some parentBlock =>
                let parentPos := Block_HexPosition parentBlock in
                if negb (coord_map_get validNeighborMap parentPos)
                then Err (ErrParentNotNeighbor parentPos (HexPosition h))
                else Ok
            | None => Ok
            end)
    (elems (ParentHashes h)).

Section Validator.
Variable rlpHash : HexHeader -> Hash.

Definition ValidateMeshIntegrity (bc : HexBlockChain) (block : HexBlock) : res :=
  let h := Block_Header block in
  let blockHash := fst (HexBlock_Hash rlpHash block) in
  for_each
    (fun parentHash =>
       if is_empty_hash parentHash then Ok
       else if hash_eqb parentHash blockHash then Err ErrSelfReference
       else match GetHexBlock bc parentHash with
            | Some parentBlock =>
                for_each (fun grandParentHash =>
                            if hash_eqb grandParentHash blockHash
                            then Err ErrCircularReference else Ok)
                         (elems (Block_ParentHashes parentBlock))
            | None => Ok
            end)
    (elems (ParentHashes h)) ;;
  validateMeshTopology bc block ;;
  let neighborCount := NeighborCount h in
  if neighborCount >? 6 then Err (ErrTooManyNeighborsForConfig neighborCount 6) else
  if (types.Uint64 (Number h) >? 0) && (neighborCount <? 1)
  then Err ErrNonGenesisNoParent else Ok.
End Validator.

(** [ValidateHexProof] of the block validator. *)
Definition ValidateHexProof (block : HexBlock) : res :=
  let h := Block_Header block in
  let proof := HexProof h in
  if Timestamp proof =? 0 then Err ErrMissingProofTimestamp else
  if Timestamp proof <? Time h then Err ErrProofBeforeBlock else
  let validSigs := count_signatures (NeighborSignatures proof) in
  if validSigs <? NeighborCount h
  then Err (ErrInsufficientSignatures validSigs (NeighborCount h))
  else Ok.

End core.

(* ================================================================== *)
(** ** Package [consensus]: the HexaProof engine *)

Module consensus.
Import core.

(** [time.Duration] values are nanoseconds. *)
Definition Second : Z := 1000000000.

Record HexaProofConfig : Type := mkHexaProofConfig {
  MaxNeighbors : Z;
  MinNeighbors : Z;
  BlockTime : Z;
  FinalizationTime : Z;
  SignatureTimeout : Z;
  ConflictResolver : string;
  ValidatorTimeout : Z
}.

Definition DefaultHexaProofConfig : HexaProofConfig :=
  {| MaxNeighbors := 6;
     MinNeighbors := 3;
     BlockTime := 2 * Second;
     FinalizationTime := 6 * Second;
     SignatureTimeout := 1 * Second;
     ConflictResolver := "weighted";
     ValidatorTimeout := 2 * Second |}.

(** The part of [consensus.ChainHeaderReader] the engine calls. *)
Record ChainHeaderReader : Type := mkChainHeaderReader {
  GetHeaderByHash : Hash -> option types.Header
}.

(** The engine; its signature cache is never consulted by validation. *)
Record HexaProof : Type := mkEngine {
  config : HexaProofConfig;
  db : ChainHeaderReader;
  validators : list (Address * bool)
}.

Definition New (cfg : option HexaProofConfig) (db : ChainHeaderReader) : HexaProof :=
  mkEngine (match cfg with Some c => c | None => DefaultHexaProofConfig end) db [].

(** [convertToHexHeader]: the header and the (always [nil]) error. *)
Definition convertToHexHeader (header : types.Header) : HexHeader * option error :=
  ({| ParentHashes := set_slot0 (fill6 zero_hash) (types.ParentHash header);
      NeighborCount := 1;
      HexPosition := NewHexCoordinate 0 0;
      MeshRoot := types.Root header;
      HexProof := empty_proof;
      Coinbase := types.Coinbase header;
      Root := types.Root header;
      TxHash := types.TxHash header;
      ReceiptHash := types.ReceiptHash header;
      Bloom := types.Bloom header;
      Difficulty := types.Difficulty header;
      Number := types.Number header;
      GasLimit := types.GasLimit header;
      GasUsed := types.GasUsed header;
      Time := types.Time header;
      Extra := types.Extra header;
      MixDigest := types.MixDigest header;
      Nonce := types.Nonce header;
      BaseFee := types.BaseFee header;
      WithdrawalsHash := types.WithdrawalsHash header;
      BlobGasUsed := types.BlobGasUsed header;
      ExcessBlobGas := types.ExcessBlobGas header |},
   None).

Definition validateBasicStructure (header : HexHeader) : res :=
  if NeighborCount header >? 6 then Err (ErrTooManyNeighbors (NeighborCount header)) else
  let nonZeroParents := count_nonzero_hashes (ParentHashes header) in
  if negb (nonZeroParents =? NeighborCount header)
  then Err (ErrNeighborCountMismatch (NeighborCount header) nonZeroParents) else
  if (types.Uint64 (Number header) =? 0) && negb (NeighborCount header =? 0)
  then Err ErrGenesisNeighbors else
  if (types.Uint64 (Number header) >? 0) && (NeighborCount header =? 0)
  then Err ErrNonGenesisNoParent else
  Ok.

Definition maxDepthDiff : Z := 10.

Definition validateParents (chain : ChainHeaderReader) (header : HexHeader) : res :=
  for_each_indexed
    (fun i parentHash =>
       if is_empty_hash parentHash then Ok
       else match GetHeaderByHash chain parentHash with
            | None => Err (ErrUnknownParent parentHash i)
            | Some parentHeader =>
                let pn := types.Uint64 (types.Number parentHeader) in
                let hn := types.Uint64 (Number header) in
                if pn >=? hn then Err (ErrInvalidParentNumber pn hn)
                else if subU64 hn pn >? maxDepthDiff
                     then Err (ErrParentTooOld (subU64 hn pn) maxDepthDiff)
                     else Ok
            end)
    0 (elems (ParentHashes header)).

Definition validateNeighborCount (h : HexaProof) (header : HexHeader) : res :=
  let neighborCount := NeighborCount header in
  if neighborCount >? MaxNeighbors (config h)
  then Err (ErrTooManyNeighborsForConfig neighborCount (MaxNeighbors (config h))) else
  if (types.Uint64 (Number header) >? 0) && (neighborCount <? MinNeighbors (config h))
  then Err (ErrInsufficientNeighbors neighborCount (MinNeighbors (config h))) else
  Ok.

(** The running maximum of [validateTimestamp]'s loop. *)
Definition maxParentTime (chain : ChainHeaderReader) (header : HexHeader) : Z :=
  fold_left
    (fun m parentHash =>
       if is_empty_hash parentHash then m
       else match GetHeaderByHash chain parentHash with
            | Some parentHeader =>
                if types.Time parentHeader >? m then types.Time parentHeader else m
            | None => m
            end)
    (elems (ParentHashes header)) 0.

Definition maxFuture : Z := 15.

(** [validateTimestamp]; [unixNow] is what [time.Now().Unix()] returns. *)
Definition validateTimestamp (unixNow : Z) (chain : ChainHeaderReader)
           (header : HexHeader) : res :=
  let m := maxParentTime chain header in
  if Time header <=? m then Err (ErrInvalidTimestamp (Time header) m) else
  let now := wrapU64 unixNow in
  if Time header >? addU64 now maxFuture
  then Err (ErrTimestampInFuture (Time header) (addU64 now maxFuture)) else
  Ok.

Definition validateHexaProof (chain : ChainHeaderReader) (header : HexHeader) : res :=
  let proof := HexProof header in
  if Timestamp proof =? 0 then Err ErrMissingProofTimestamp else
  if Timestamp proof <? Time header then Err ErrProofBeforeBlock else
  for_each
    (fun parentHash =>
       if is_empty_hash parentHash then Ok
       else match GetHeaderByHash chain parentHash with
            | None => Err (ErrProofUnknownParent parentHash)
            | Some _ => Ok
            end)
    (elems (ParentHashes header)) ;;
  let validSignatures := count_signatures (NeighborSignatures proof) in
  if validSignatures <? NeighborCount header
  then Err (ErrInsufficientSignatures validSignatures (NeighborCount header))
  else Ok.

Section Engine.
(** Keccak-256 of a header's RLP encoding, and the wall clock. *)
Variable rlpHash : HexHeader -> Hash.
Variable unixNow : Z.

(** [validateMeshTopology] of the engine.  The map of valid neighbor
    positions is built and then left unread. *)
Definition validateMeshTopology (chain : ChainHeaderReader) (header : HexHeader) : res :=
  for_each
    (fun parentHash =>
       if is_empty_hash parentHash then Ok
       else if hash_eqb parentHash (HexHeader_Hash rlpHash header) then Err ErrSelfReference
       else match GetHeaderByHash chain parentHash with
            | Some parentHeader =>
                match convertToHexHeader parentHeader with
                | (parentHexHeader, None) =>
                    for_each (fun grandParentHash =>
                                if hash_eqb grandParentHash (HexHeader_Hash rlpHash header)
                                then Err ErrCircularReference else Ok)
                             (elems (ParentHashes parentHexHeader))
                | (_, Some _) => Ok
                end
            | None => Ok
            end)
    (elems (ParentHashes header)) ;;
  let validNeighborPositions := neighbor_map (HexPosition header) in
  let _ := validNeighborPositions in
  Ok.

Definition verifyHexHeader (h : HexaProof) (chain : ChainHeaderReader)
           (header : HexHeader) : res :=
  validateBasicStructure header ;;
  validateParents chain header ;;
  validateMeshTopology chain header ;;
  validateNeighborCount h header ;;
  validateTimestamp unixNow chain header ;;
  validateHexaProof chain header.

Definition VerifyHeader (h : HexaProof) (chain : ChainHeaderReader)
           (header : types.Header) : res :=
  match convertToHexHeader header with
  | (_, Some err) => Err (ErrConvert err)
  | (hexHeader, None) => verifyHexHeader h chain hexHeader
  end.
End Engine.

End consensus.

(* ================================================================== *)
(** ** Package [core], continued: processing blocks *)

Module receipts.

(** [types.Receipt] of go-ethereum, as [ProcessHexBlock] fills it. *)
Record Receipt : Type := mkReceipt {
  TxType : Z;               (* Type, uint8 *)
  PostState : bytes;
  Status : Z;
  CumulativeGasUsed : Z;
  Bloom : bytes;
  Logs : list bytes;
  TxHash : Hash;
  ContractAddress : Address;
  GasUsed : Z;
  BlockHash : Hash;
  BlockNumber : Z;
  TransactionIndex : Z
}.

Definition ReceiptStatusSuccessful : Z := 1.

End receipts.

Module processing.
Import core.

Record ProcessHexResult : Type := mkProcessHexResult {
  GasUsed : Z;
  Receipts : list receipts.Receipt;
  Requests : list bytes;
  Logs : list bytes
}.

(** What a call gives back: its results, or a run-time panic. *)
Inductive outcome (A : Type) : Type :=
| Returned (a : A)
| Panicked.
Arguments Returned {A} a.
Arguments Panicked {A}.

Inductive process_error : Type :=
| ErrGasUsedMismatch (got want : Z)
| ErrReceiptRootMismatch (got want : Hash)
| ErrStateRootMismatch (got want : Hash).

(** The errors of [ValidateHexBlock]: the known-block error and the four
    wrapped stage errors. *)
Inductive block_error : Type :=
| ErrKnownBlock
| ErrHeaderValidation (cause : error)
| ErrBodyValidation (cause : error)
| ErrStateTransition (cause : error)
| ErrMeshIntegrity (cause : error).

Section Processing.
(** Keccak-256 of a header's RLP encoding. *)
Variable rlpHash : HexHeader -> Hash.
(** The accessors [Gas], [Type] and [Hash] of a transaction. *)
Variable txGas : types.Transaction -> Z.
Variable txType : types.Transaction -> Z.
Variable txHash : types.Transaction -> Hash.
(** [types.DeriveSha] of a receipt list, [StateDB.IntermediateRoot] and the
    chain configuration's [IsEIP158]. *)
Variable deriveSha : list receipts.Receipt -> Hash.
Variable IntermediateRoot : StateDB -> bool -> Hash.
Variable IsEIP158 : Z -> bool.

(** One turn of the loop of [ProcessHexBlock]: the index, the gas used so
    far and the receipts so far. *)
Definition process_step (block : HexBlock) (acc : Z * Z * list receipts.Receipt)
           (tx : types.Transaction) : Z * Z * list receipts.Receipt :=
  let '(i, gasUsed, rs) := acc in
  let receipt :=
    {| receipts.TxType := txType tx;
       receipts.PostState := [];
       receipts.Status := receipts.ReceiptStatusSuccessful;
       receipts.CumulativeGasUsed := addU64 gasUsed (txGas tx);
       receipts.Bloom := types.zero_bloom;
       receipts.Logs := [];
       receipts.TxHash := txHash tx;
       receipts.ContractAddress := zero_address;
       receipts.GasUsed := txGas tx;
       receipts.BlockHash := fst (HexBlock_Hash rlpHash block);
       receipts.BlockNumber := Number (header block);
       receipts.TransactionIndex := i |} in
  (i + 1, addU64 gasUsed (txGas tx), rs ++ [receipt]).

(** The transactions of [block.ToEthBlock()].  [ToEthBlock] builds the
    block with [types.NewBlock(ethHeader, body, nil, nil)], and go-ethereum's
    [NewBlock] derives the root of a non-empty transaction list, and of a
    non-empty withdrawal list, with the hasher it is handed: with the nil
    hasher that call panics.  With both lists empty nothing is hashed and
    the block has no transactions. *)
Definition ToEthBlock_Transactions (block : HexBlock) : outcome (list types.Transaction) :=
  match transactions block, withdrawals block with
  | [], [] => Returned []
  | _, _ => Panicked
  end.

(** [ProcessHexBlock]: a panic of the conversion, or the result and the
    (always [nil]) error. *)
Definition ProcessHexBlock (block : HexBlock) (statedb : option StateDB)
  : outcome (ProcessHexResult * option error) :=
  match ToEthBlock_Transactions block with
  | Panicked => Panicked
  | Returned txs =>
      let '(_, gasUsed, rs) := fold_left (process_step block) txs (0, 0, []) in
      Returned (mkProcessHexResult gasUsed rs [] [], None)
  end.

Definition ValidateProcessedHexBlock (block : HexBlock) (res : ProcessHexResult)
           (statedb : option StateDB) : result process_error :=
  let h := Block_Header block in
  if negb (core.GasUsed (Block_Header block) =? GasUsed res)
  then Err (ErrGasUsedMismatch (GasUsed res) (core.GasUsed h)) else
  let receiptHash := deriveSha (Receipts res) in
  if negb (hash_eqb receiptHash (ReceiptHash h))
  then Err (ErrReceiptRootMismatch receiptHash (ReceiptHash h)) else
  match statedb with
  | Some st =>
      let stateRoot := IntermediateRoot st (IsEIP158 (Number h)) in
      if negb (hash_eqb stateRoot (Root h))
      then Err (ErrStateRootMismatch stateRoot (Root h)) else Ok
  | None => Ok
  end.

(** The consensus engine's [VerifyHeader] on the validator's chain, and
    [ValidateHexBody], whose verdict rests on go-ethereum's trie hashing of
    the transaction and withdrawal lists. *)
Variable VerifyHeader : types.Header -> res.
Variable ValidateHexBody : HexBlock -> res.

Definition ValidateHexBlock (bc : HexBlockChain) (block : HexBlock) : result block_error :=
  let '(blockHash, block) := HexBlock_Hash rlpHash block in
  if HasHexBlock bc blockHash then Err ErrKnownBlock else
  match ValidateHexHeader VerifyHeader bc (Block_Header block) with
  | Err e => Err (ErrHeaderValidation e)
  | Ok =>
  match ValidateHexBody block with
  | Err e => Err (ErrBodyValidation e)
  | Ok =>
  match ValidateStateTransitions bc block with
  | Err e => Err (ErrStateTransition e)
  | Ok =>
  match ValidateMeshIntegrity rlpHash bc block with
  | Err e => Err (ErrMeshIntegrity e)
  | Ok => Ok
  end end end end.

End Processing.

End processing.

(* ================================================================== *)
(** ** Package [network]: the hexagonal mesh protocol

    Each method is modelled as the state change of one uninterrupted call.
    A [time.Time] is a number of nanoseconds.  The peer table maps a peer id
    to the address of its [HexPeer] object; the objects live in a store, so
    that a handler and the table see the same object.  Iteration over a Go
    map has no fixed order: results that list peers are to be read as
    sets. *)

Module network.

Definition HexMeshProtocolVersion : Z := 1.
Definition HexMeshProtocolLength : Z := 20.

Definition HexBlockMsg : Z := 0x10.
Definition HexHeaderMsg : Z := 0x11.
Definition HexBlockRequestMsg : Z := 0x12.
Definition HexHeaderRequestMsg : Z := 0x13.
Definition HexProofMsg : Z := 0x14.
Definition HexStatusMsg : Z := 0x15.
Definition HexNeighborMsg : Z := 0x16.
Definition HexMeshStateMsg : Z := 0x17.

Definition MaxNeighborPeers : Z := 6.
Definition MaxConcurrentRequests : Z := 100.
Definition RequestTimeout : Z := 30.
Definition HeartbeatInterval : Z := 15.

(** [time.Second] and the extreme [time.Duration] values. *)
Definition Second : Z := 1000000000.
Definition maxDuration : Z := 9223372036854775807.
Definition minDuration : Z := - 9223372036854775808.

(** [t.Sub(u)]: the difference, saturated to the range of a duration. *)
Definition Sub (t u : Z) : Z :=
  let d := t - u in
  if d <? minDuration then minDuration
  else if d >? maxDuration then maxDuration
  else d.

(** Capacity of the block and header channels. *)
Definition channelCapacity : nat := 100.

Record HexMeshConfig : Type := mkHexMeshConfig {
  NetworkID : Z;
  MaxPeers : Z;
  DialTimeout : Z;
  HandshakeTimeout : Z;
  PingInterval : Z;
  EnableNeighborOpt : bool
}.

Definition DefaultHexMeshConfig : HexMeshConfig :=
  {| NetworkID := 1337;
     MaxPeers := 50;
     DialTimeout := 30 * Second;
     HandshakeTimeout := 10 * Second;
     PingInterval := 15 * Second;
     EnableNeighborOpt := true |}.

(** A pending request, without its payload and response channel. *)
Record PendingRequest : Type := mkPendingRequest {
  ID : Z;
  ReqType : Z;      (* Type, uint8 *)
  Timestamp : Z
}.

(** Go maps keyed by numbers: the bindings, at most one per key. *)
Definition zmap (V : Type) : Type := list (Z * V).

Fixpoint zmap_get {V} (m : zmap V) (k : Z) : option V :=
  match m with
  | [] => None
  | (k', v) :: rest => if k' =? k then Some v else zmap_get rest k
  end.

Definition zmap_delete {V} (m : zmap V) (k : Z) : zmap V :=
  filter (fun kv => negb (fst kv =? k)) m.

Definition zmap_put {V} (m : zmap V) (k : Z) (v : V) : zmap V :=
  (k, v) :: zmap_delete m k.

(** A peer, without its connection handles. *)
Record HexPeer : Type := mkHexPeer {
  id : Z;
  position : core.HexCoordinate;
  head : Hash;
  difficulty : Z;
  isNeighbor : bool;
  distance : Z;
  lastSeen : Z;
  requests : zmap PendingRequest;
  reqID : Z
}.

Record HexStatus : Type := mkHexStatus {
  ProtocolVersion : Z;
  StatusNetworkID : Z;   (* NetworkID *)
  Head : Hash;
  Genesis : Hash;
  Position : core.HexCoordinate
}.

(** An inbound message: its code and its encoded payload. *)
Record Msg : Type := mkMsg {
  Code : Z;
  Payload : bytes
}.

Inductive net_error : Type :=
| ErrIO (message : String.string)
| ErrExpectedStatus (code : Z)
| ErrDecode
| ErrNetworkIDMismatch (got want : Z)
| ErrHandshakeFailed (cause : net_error)
| ErrUnknownMessageCode (code : Z)
| ErrHandler (cause : core.error).

Definition nres : Type := result net_error.

Record HexMeshProtocol : Type := mkHexMeshProtocol {
  config : HexMeshConfig;
  peers : zmap Z;                 (* peer id -> address of the peer object *)
  objects : zmap HexPeer;         (* the peer objects *)
  nextAddress : Z;
  localPosition : core.HexCoordinate;
  networkID : Z;
  currentHead : Hash;
  blockCh : list core.HexBlock;
  headerCh : list core.HexHeader;
  blockHandler : option (core.HexBlock -> core.res);
  headerHandler : option (core.HexHeader -> core.res)
}.

Definition NewHexMeshProtocol (cfg : option HexMeshConfig) : HexMeshProtocol :=
  let c := match cfg with Some c => c | None => DefaultHexMeshConfig end in
  {| config := c;
     peers := [];
     objects := [];
     nextAddress := 0;
     localPosition := core.NewHexCoordinate 0 0;
     networkID := NetworkID c;
     currentHead := zero_hash;
     blockCh := [];
     headerCh := [];
     blockHandler := None;
     headerHandler := None |}.

Definition set_peers (hmp : HexMeshProtocol) (ps : zmap Z) : HexMeshProtocol :=
  mkHexMeshProtocol (config hmp) ps (objects hmp) (nextAddress hmp) (localPosition hmp)
    (networkID hmp) (currentHead hmp) (blockCh hmp) (headerCh hmp)
    (blockHandler hmp) (headerHandler hmp).

Definition set_objects (hmp : HexMeshProtocol) (os : zmap HexPeer) : HexMeshProtocol :=
  mkHexMeshProtocol (config hmp) (peers hmp) os (nextAddress hmp) (localPosition hmp)
    (networkID hmp) (currentHead hmp) (blockCh hmp) (headerCh hmp)
    (blockHandler hmp) (headerHandler hmp).

Definition set_blockCh (hmp : HexMeshProtocol) (q : list core.HexBlock) : HexMeshProtocol :=
  mkHexMeshProtocol (config hmp) (peers hmp) (objects hmp) (nextAddress hmp)
    (localPosition hmp) (networkID hmp) (currentHead hmp) q (headerCh hmp)
    (blockHandler hmp) (headerHandler hmp).

Definition set_headerCh (hmp : HexMeshProtocol) (q : list core.HexHeader) : HexMeshProtocol :=
  mkHexMeshProtocol (config hmp) (peers hmp) (objects hmp) (nextAddress hmp)
    (localPosition hmp) (networkID hmp) (currentHead hmp) (blockCh hmp) q
    (blockHandler hmp) (headerHandler hmp).

(** An assignment through a peer pointer that leaves the other fields. *)
Definition update_object (hmp : HexMeshProtocol) (addr : Z) (f : HexPeer -> HexPeer)
  : HexMeshProtocol :=
  match zmap_get (objects hmp) addr with
  | Some p => set_objects hmp (zmap_put (objects hmp) addr (f p))
  | None => hmp
  end.

(** [peer.position, peer.head = ...; peer.distance = local.Distance(...);
    peer.isNeighbor = peer.distance == 1] *)
Definition place_peer (localPos pos : core.HexCoordinate) (hd : Hash) (p : HexPeer) : HexPeer :=
  let d := core.Distance localPos pos in
  mkHexPeer (id p) pos hd (difficulty p) (d =? 1) d (lastSeen p) (requests p) (reqID p).

Definition touch_peer (now : Z) (p : HexPeer) : HexPeer :=
  mkHexPeer (id p) (position p) (head p) (difficulty p) (isNeighbor p) (distance p)
            now (requests p) (reqID p).

Definition set_requests (p : HexPeer) (rs : zmap PendingRequest) : HexPeer :=
  mkHexPeer (id p) (position p) (head p) (difficulty p) (isNeighbor p) (distance p)
            (lastSeen p) rs (reqID p).

(** The status a node sends when shaking hands. *)
Definition local_status (hmp : HexMeshProtocol) : HexStatus :=
  {| ProtocolVersion := HexMeshProtocolVersion;
     StatusNetworkID := networkID hmp;
     Head := currentHead hmp;
     Genesis := zero_hash;
     Position := localPosition hmp |}.

Section Protocol.
(** RLP decoding of the payloads, and the header hash. *)
Variable decodeStatus : bytes -> option HexStatus.
Variable decodeBlock : bytes -> option core.HexBlock.
Variable decodeHeader : bytes -> option core.HexHeader.
Variable decodeRequest : bytes -> option (Z * Hash).
Variable decodeProof : bytes -> option core.HexaProof.
Variable decodeNeighbor : bytes -> option (core.HexCoordinate * Hash).
Variable decodeMeshState : bytes -> option (list Hash * list Hash).
Variable rlpHash : core.HexHeader -> Hash.

(** [handshake]: [sendErr] is the outcome of sending the local status,
    [received] that of reading the peer's answer. *)
Definition handshake (hmp : HexMeshProtocol) (peer : HexPeer)
           (sendErr : option net_error) (received : Msg + net_error) : HexPeer * nres :=
  match sendErr with
  | Some e => (peer, Err e)
  | None =>
      match received with
      | inr e => (peer, Err e)
      | inl msg =>
          if negb (Code msg =? HexStatusMsg) then (peer, Err (ErrExpectedStatus (Code msg)))
          else match decodeStatus (Payload msg) with
               | None => (peer, Err ErrDecode)
               | Some peerStatus =>
                   if negb (StatusNetworkID peerStatus =? networkID hmp)
                   then (peer, Err (ErrNetworkIDMismatch (StatusNetworkID peerStatus)
                                                         (networkID hmp)))
                   else (place_peer (localPosition hmp) (Position peerStatus)
                                    (Head peerStatus) peer, Ok)
               end
      end
  end.

(** [AddPeer]; [now] is [time.Now()]. *)
Definition AddPeer (hmp : HexMeshProtocol) (peerID : Z) (now : Z)
           (sendErr : option net_error) (received : Msg + net_error)
  : HexMeshProtocol * nres :=
  let hexPeer :=
    mkHexPeer peerID (core.mkHexCoordinate 0 0 0) zero_hash 0 false 0 now [] 0 in
  match handshake hmp hexPeer sendErr received with
  | (_, Err e) => (hmp, Err (ErrHandshakeFailed e))
  | (hexPeer', Ok) =>
      let addr := nextAddress hmp in
      (mkHexMeshProtocol (config hmp) (zmap_put (peers hmp) peerID addr)
         (zmap_put (objects hmp) addr hexPeer') (addr + 1) (localPosition hmp)
         (networkID hmp) (currentHead hmp) (blockCh hmp) (headerCh hmp)
         (blockHandler hmp) (headerHandler hmp),
       Ok)
  end.

Definition RemovePeer (hmp : HexMeshProtocol) (peerID : Z) : HexMeshProtocol :=
  set_peers hmp (zmap_delete (peers hmp) peerID).

(** [select { case ch <- x: default: }] on a channel of capacity 100. *)
Definition offer {A} (q : list A) (x : A) : list A :=
  if (List.length q <? channelCapacity)%nat then q ++ [x] else q.

Definition run_handler {A} (handler : option (A -> core.res)) (x : A) : nres :=
  match handler with
  | Some f => match f x with Ok => Ok | Err e => Err (ErrHandler e) end
  | None => Ok
  end.

Definition handleHexBlock (hmp : HexMeshProtocol) (peer : Z) (now : Z) (msg : Msg)
  : HexMeshProtocol * nres :=
  match decodeBlock (Payload msg) with
  | None => (hmp, Err ErrDecode)
  | Some block =>
      let hmp1 := update_object hmp peer (touch_peer now) in
      let full := negb (List.length (blockCh hmp1) <? channelCapacity)%nat in
      (* the warning of a full channel hashes the block, filling its cache *)
      let block' := if full then snd (core.HexBlock_Hash rlpHash block) else block in
      let hmp2 := set_blockCh hmp1 (offer (blockCh hmp1) block) in
      (hmp2, run_handler (blockHandler hmp2) block')
  end.

Definition handleHexHeader (hmp : HexMeshProtocol) (peer : Z) (now : Z) (msg : Msg)
  : HexMeshProtocol * nres :=
  match decodeHeader (Payload msg) with
  | None => (hmp, Err ErrDecode)
  | Some header =>
      let hmp1 := update_object hmp peer (touch_peer now) in
      let hmp2 := set_headerCh hmp1 (offer (headerCh hmp1) header) in
      (hmp2, run_handler (headerHandler hmp2) header)
  end.

Definition handleBlockRequest (hmp : HexMeshProtocol) (peer : Z) (msg : Msg)
  : HexMeshProtocol * nres :=
  match decodeRequest (Payload msg) with
  | None => (hmp, Err ErrDecode)
  | Some _ => (hmp, Ok)
  end.

Definition handleHeaderRequest (hmp : HexMeshProtocol) (peer : Z) (msg : Msg)
  : HexMeshProtocol * nres :=
  match decodeRequest (Payload msg) with
  | None => (hmp, Err ErrDecode)
  | Some _ => (hmp, Ok)
  end.

Definition handleHexProof (hmp : HexMeshProtocol) (peer : Z) (msg : Msg)
  : HexMeshProtocol * nres :=
  match decodeProof (Payload msg) with
  | None => (hmp, Err ErrDecode)
  | Some _ => (hmp, Ok)
  end.

Definition handleNeighborUpdate (hmp : HexMeshProtocol) (peer : Z) (now : Z) (msg : Msg)
  : HexMeshProtocol * nres :=
  match decodeNeighbor (Payload msg) with
  | None => (hmp, Err ErrDecode)
  | Some (pos, hd) =>
      (update_object hmp peer
         (fun p => touch_peer now (place_peer (localPosition hmp) pos hd p)),
       Ok)
  end.

Definition handleMeshState (hmp : HexMeshProtocol) (peer : Z) (msg : Msg)
  : HexMeshProtocol * nres :=
  match decodeMeshState (Payload msg) with
  | None => (hmp, Err ErrDecode)
  | Some _ => (hmp, Ok)
  end.

(** [handleMessage]; [peer] is the address of the handler's peer object. *)
Definition handleMessage (hmp : HexMeshProtocol) (peer : Z) (now : Z) (msg : Msg)
  : HexMeshProtocol * nres :=
  if Code msg =? HexBlockMsg then handleHexBlock hmp peer now msg
  else if Code msg =? HexHeaderMsg then handleHexHeader hmp peer now msg
  else if Code msg =? HexBlockRequestMsg then handleBlockRequest hmp peer msg
  else if Code msg =? HexHeaderRequestMsg then handleHeaderRequest hmp peer msg
  else if Code msg =? HexProofMsg then handleHexProof hmp peer msg
  else if Code msg =? HexNeighborMsg then handleNeighborUpdate hmp peer now msg
  else if Code msg =? HexMeshStateMsg then handleMeshState hmp peer msg
  else (hmp, Err (ErrUnknownMessageCode (Code msg))).

(** [handlePeer] over the events its reads produce, each with the time it
    is handled at: a failed read or a failed message ends the handler, which
    removes the peer registered under its peer's id. *)
Definition drop_peer (hmp : HexMeshProtocol) (peer : Z) : HexMeshProtocol :=
  match zmap_get (objects hmp) peer with
  | Some p => RemovePeer hmp (id p)
  | None => hmp
  end.

Fixpoint handlePeer (hmp : HexMeshProtocol) (peer : Z)
         (events : list (Z * (Msg + net_error))) : HexMeshProtocol :=
  match events with
  | [] => hmp
  | (now, inr _) :: _ => drop_peer hmp peer
  | (now, inl msg) :: rest =>
      match handleMessage hmp peer now msg with
      | (hmp', Err _) => drop_peer hmp' peer
      | (hmp', Ok) => handlePeer hmp' peer rest
      end
  end.

End Protocol.

(** The addresses in the peer table, and the peer objects behind them. *)
Definition peer_addresses (hmp : HexMeshProtocol) : list Z := map snd (peers hmp).

Definition peer_at (hmp : HexMeshProtocol) (addr : Z) : option HexPeer :=
  zmap_get (objects hmp) addr.

(** [for _, peer := range hmp.peers { if keep(peer) { ... } }]: the peers
    the body runs for. *)
Definition select_peers (hmp : HexMeshProtocol) (keep : HexPeer -> bool) : list Z :=
  filter (fun addr => match peer_at hmp addr with
                      | Some p => keep p
                      | None => false
                      end)
         (peer_addresses hmp).

(** The peers [BroadcastHexBlock] sends the block to; a failed send is
    logged and the loop goes on. *)
Definition BroadcastHexBlock (hmp : HexMeshProtocol) : list Z :=
  select_peers hmp (fun p => isNeighbor p || (distance p <=? 3)).

Definition BroadcastHexHeader (hmp : HexMeshProtocol) : list Z :=
  select_peers hmp (fun _ => true).

Definition GetNeighborPeers (hmp : HexMeshProtocol) : list Z :=
  select_peers hmp isNeighbor.

Definition SetLocalPosition (hmp : HexMeshProtocol) (pos : core.HexCoordinate)
  : HexMeshProtocol :=
  let hmp1 :=
    mkHexMeshProtocol (config hmp) (peers hmp) (objects hmp) (nextAddress hmp) pos
      (networkID hmp) (currentHead hmp) (blockCh hmp) (headerCh hmp)
      (blockHandler hmp) (headerHandler hmp) in
  fold_left
    (fun st addr => update_object st addr
                      (fun p => place_peer pos (position p) (head p) p))
    (peer_addresses hmp) hmp1.

(** A request is stale at [now] when it is older than [RequestTimeout]. *)
Definition stale (now : Z) (req : PendingRequest) : bool :=
  Sub now (Timestamp req) >? RequestTimeout * Second.

(** [cleanupStaleRequests]: the stale requests of every peer in the table
    are deleted (their response channels closed). *)
Definition cleanupStaleRequests (hmp : HexMeshProtocol) (now : Z) : HexMeshProtocol :=
  fold_left
    (fun st addr =>
       update_object st addr
         (fun p => set_requests p (filter (fun kv => negb (stale now (snd kv)))
                                           (requests p))))
    (peer_addresses hmp) hmp.

Definition SetBlockHandler (hmp : HexMeshProtocol)
           (handler : option (core.HexBlock -> core.res)) : HexMeshProtocol :=
  mkHexMeshProtocol (config hmp) (peers hmp) (objects hmp) (nextAddress hmp)
    (localPosition hmp) (networkID hmp) (currentHead hmp) (blockCh hmp) (headerCh hmp)
    handler (headerHandler hmp).

Definition SetHeaderHandler (hmp : HexMeshProtocol)
           (handler : option (core.HexHeader -> core.res)) : HexMeshProtocol :=
  mkHexMeshProtocol (config hmp) (peers hmp) (objects hmp) (nextAddress hmp)
    (localPosition hmp) (networkID hmp) (currentHead hmp) (blockCh hmp) (headerCh hmp)
    (blockHandler hmp) handler.

(** [block := <-hmp.blockCh] and [header := <-hmp.headerCh] in
    [messageHandler]. *)
Definition takeBlock (hmp : HexMeshProtocol) : HexMeshProtocol :=
  set_blockCh hmp (tl (blockCh hmp)).

Definition takeHeader (hmp : HexMeshProtocol) : HexMeshProtocol :=
  set_headerCh hmp (tl (headerCh hmp)).

End network.

(* ================================================================== *)
(** ** Vocabulary of the specification *)

Module Vocabulary.
Import core consensus.

(** The coordinate one step from [h] in direction [d]. *)
Definition step (h : HexCoordinate) (d : HexDirection) : HexCoordinate :=
  NewHexCoordinate (add64 (Q h) (fst (direction_offset d)))
                   (add64 (R h) (snd (direction_offset d))).

Definition rejected (r : res) : Prop := exists e, r = Err e.

(** The spec's reading of the two counters: the number of slots that are
    not empty. *)
Definition nonempty_parents (a : Array6 Hash) : list Hash :=
  filter (fun x => negb (is_empty_hash x)) (elems a).

Definition present_signatures (a : Array6 bytes) : list bytes :=
  filter (fun sig => match sig with [] => false | _ => true end) (elems a).

(** The parents of a header that resolve in the chain, in slot order. *)
Definition resolved_parents (chain : ChainHeaderReader) (header : HexHeader)
  : list types.Header :=
  flat_map (fun parentHash =>
              if is_empty_hash parentHash then []
              else match GetHeaderByHash chain parentHash with
                   | Some parentHeader => [parentHeader]
                   | None => []
                   end)
           (elems (ParentHashes header)).

(** The maximum of a list of [uint64] timestamps; 0 for no timestamp. *)
Definition max_timestamp (times : list Z) : Z := fold_right Z.max 0 times.

Definition header_of (block : HexBlock) : HexHeader := Block_Header block.

(** The post-states of the non-empty parents, paired with the parent hash,
    in slot order; parents whose state cannot be read are left out. *)
Definition parent_states (bc : HexBlockChain) (block : HexBlock)
  : list (Hash * StateDB) :=
  flat_map (fun parentHash =>
              match GetState bc parentHash with
              | inl st => [(parentHash, st)]
              | inr _ => []
              end)
           (nonempty_parents (ParentHashes (header block))).

(** [block] with another declared state root. *)
Definition with_Root (block : HexBlock) (root : Hash) : HexBlock :=
  let h := header block in
  mkHexBlock
    (mkHexHeader (ParentHashes h) (NeighborCount h) (HexPosition h) (MeshRoot h)
       (HexProof h) (Coinbase h) root (TxHash h) (ReceiptHash h) (Bloom h)
       (Difficulty h) (Number h) (GasLimit h) (GasUsed h) (Time h) (Extra h)
       (MixDigest h) (Nonce h) (BaseFee h) (WithdrawalsHash h) (BlobGasUsed h)
       (ExcessBlobGas h))
    (transactions block) (withdrawals block) (neighborProofs block)
    (meshWitness block) (hash block) (size block).

(** [hh] with its hexagonal fields replaced. *)
Definition with_hex_fields (hh : HexHeader) (parents : Array6 Hash) (count : Z)
           (pos : HexCoordinate) (meshRoot : Hash) (proof : core.HexaProof) : HexHeader :=
  mkHexHeader parents count pos meshRoot proof
    (Coinbase hh) (Root hh) (TxHash hh) (ReceiptHash hh) (Bloom hh) (Difficulty hh)
    (Number hh) (GasLimit hh) (GasUsed hh) (Time hh) (Extra hh) (MixDigest hh)
    (Nonce hh) (BaseFee hh) (WithdrawalsHash hh) (BlobGasUsed hh) (ExcessBlobGas hh).

(** [hp] with one of its fields replaced. *)
Definition with_NeighborSignatures (hp : core.HexaProof) (sigs : Array6 bytes)
  : core.HexaProof :=
  mkHexaProof sigs (StateProof hp) (MeshProof hp) (Timestamp hp) (ValidatorSet hp)
              (ProofHash hp).

Definition with_StateProof (hp : core.HexaProof) (stateProof : bytes) : core.HexaProof :=
  mkHexaProof (NeighborSignatures hp) stateProof (MeshProof hp) (Timestamp hp)
              (ValidatorSet hp) (ProofHash hp).

Definition with_MeshProof (hp : core.HexaProof) (meshProof : bytes) : core.HexaProof :=
  mkHexaProof (NeighborSignatures hp) (StateProof hp) meshProof (Timestamp hp)
              (ValidatorSet hp) (ProofHash hp).

Definition with_Timestamp (hp : core.HexaProof) (timestamp : Z) : core.HexaProof :=
  mkHexaProof (NeighborSignatures hp) (StateProof hp) (MeshProof hp) timestamp
              (ValidatorSet hp) (ProofHash hp).

Definition with_ValidatorSet (hp : core.HexaProof) (validatorSet : list Address)
  : core.HexaProof :=
  mkHexaProof (NeighborSignatures hp) (StateProof hp) (MeshProof hp) (Timestamp hp)
              validatorSet (ProofHash hp).

(** The two signature arrays agree in every slot but, possibly, slot [k]. *)
Definition same_but_slot (k : nat) (a b : Array6 bytes) : Prop :=
  forall j : nat, j <> k -> nth j (elems a) [] = nth j (elems b) [].

(** Values a [uint64] can hold. *)
Definition uint64_range (z : Z) : Prop := 0 <= z < modulus.

(** Every address has the 20 bytes of a [common.Address]. *)
Definition addresses_sized (vs : list Address) : Prop :=
  Forall (fun a : Address => List.length a = 20%nat) vs.

(** Values an [int64] can hold. *)
Definition int64_range (z : Z) : Prop := - half_modulus <= z < half_modulus.

(** Coordinates of the data model far from the [int64] limits: the cube
    constraint holds and every component is at most [2^60] in magnitude, so
    that no difference or sum in [Distance] wraps around. *)
Definition grid_bound : Z := 1152921504606846976.

Definition in_grid (p : HexCoordinate) : Prop :=
  cube_sum p = 0
  /\ Z.abs (Q p) <= grid_bound /\ Z.abs (R p) <= grid_bound /\ Z.abs (S p) <= grid_bound.

(** The largest of the three component differences, in exact arithmetic. *)
Definition max_norm (a b : HexCoordinate) : Z :=
  Z.max (Z.abs (Q a - Q b)) (Z.max (Z.abs (R a - R b)) (Z.abs (S a - S b))).

(** The two standard headers agree on the eighteen fields that
    [convertToHexHeader] and [ToEthHeader] copy. *)
Definition same_copied_fields (a b : types.Header) : Prop :=
  types.ParentHash a = types.ParentHash b
  /\ types.Coinbase a = types.Coinbase b
  /\ types.Root a = types.Root b
  /\ types.TxHash a = types.TxHash b
  /\ types.ReceiptHash a = types.ReceiptHash b
  /\ types.Bloom a = types.Bloom b
  /\ types.Difficulty a = types.Difficulty b
  /\ types.Number a = types.Number b
  /\ types.GasLimit a = types.GasLimit b
  /\ types.GasUsed a = types.GasUsed b
  /\ types.Time a = types.Time b
  /\ types.Extra a = types.Extra b
  /\ types.MixDigest a = types.MixDigest b
  /\ types.Nonce a = types.Nonce b
  /\ types.BaseFee a = types.BaseFee b
  /\ types.WithdrawalsHash a = types.WithdrawalsHash b
  /\ types.BlobGasUsed a = types.BlobGasUsed b
  /\ types.ExcessBlobGas a = types.ExcessBlobGas b.

(** A parent header is acceptable for a child at height [number]: strictly
    older, by at most [maxDepthDiff] blocks. *)
Definition acceptable_parent (number : Z) (parentHeader : types.Header) : Prop :=
  types.Uint64 (types.Number parentHeader) < number
  /\ number - types.Uint64 (types.Number parentHeader) <= maxDepthDiff.

End Vocabulary.

(* ================================================================== *)
(** ** Vocabulary for the processing and network code *)

Module MeshVocabulary.
Import network.

(** A peer object agrees with the local position [localPos]. *)
Definition peer_synced (localPos : core.HexCoordinate) (p : HexPeer) : Prop :=
  distance p = core.Distance localPos (position p)
  /\ isNeighbor p = (distance p =? 1).

(** Every peer of the table agrees with the local position. *)
Definition synced (hmp : HexMeshProtocol) : Prop :=
  forall addr p, In addr (peer_addresses hmp) -> peer_at hmp addr = Some p ->
                 peer_synced (localPosition hmp) p.

(** Every address in the peer table has its peer object. *)
Definition table_backed (hmp : HexMeshProtocol) : Prop :=
  forall addr, In addr (peer_addresses hmp) -> peer_at hmp addr <> None.

Definition bounded_queues (hmp : HexMeshProtocol) : Prop :=
  (List.length (blockCh hmp) <= channelCapacity)%nat
  /\ (List.length (headerCh hmp) <= channelCapacity)%nat.

(** The parts of the state an assignment to a peer object leaves alone. *)
Definition same_frame (a b : HexMeshProtocol) : Prop :=
  config a = config b /\ peers a = peers b /\ localPosition a = localPosition b
  /\ networkID a = networkID b /\ currentHead a = currentHead b
  /\ blockCh a = blockCh b /\ headerCh a = headerCh b.

(** The connection of a peer fails to read at some point. *)
Definition read_fails (events : list (Z * (Msg + net_error))) : Prop :=
  Exists (fun ev => exists e, snd ev = inr e) events.

(** No peer of the table has a pending request. *)
Definition idle (hmp : HexMeshProtocol) : Prop :=
  forall addr p, In addr (peer_addresses hmp) -> peer_at hmp addr = Some p ->
                 requests p = [].

(** What every state of the protocol is shown to satisfy. *)
Definition invariant (hmp : HexMeshProtocol) : Prop :=
  synced hmp /\ table_backed hmp /\ bounded_queues hmp
  /\ currentHead hmp = zero_hash /\ networkID hmp = NetworkID (config hmp).

Section Reachable.
Variable decodeStatus : bytes -> option HexStatus.
Variable decodeBlock : bytes -> option core.HexBlock.
Variable decodeHeader : bytes -> option core.HexHeader.
Variable decodeRequest : bytes -> option (Z * Hash).
Variable decodeProof : bytes -> option core.HexaProof.
Variable decodeNeighbor : bytes -> option (core.HexCoordinate * Hash).
Variable decodeMeshState : bytes -> option (list Hash * list Hash).
Variable rlpHash : core.HexHeader -> Hash.

(** The states of the protocol: a new instance, and what the calls of its
    methods make of a state. *)
Inductive reachable : HexMeshProtocol -> Prop :=
| reach_new cfg : reachable (NewHexMeshProtocol cfg)
| reach_block_handler hmp f :
    reachable hmp -> reachable (SetBlockHandler hmp f)
| reach_header_handler hmp f :
    reachable hmp -> reachable (SetHeaderHandler hmp f)
| reach_add hmp peerID now sendErr received :
    reachable hmp ->
    reachable (fst (AddPeer decodeStatus hmp peerID now sendErr received))
| reach_remove hmp peerID :
    reachable hmp -> reachable (RemovePeer hmp peerID)
| reach_message hmp peer now msg :
    reachable hmp ->
    reachable (fst (handleMessage decodeBlock decodeHeader decodeRequest decodeProof
                      decodeNeighbor decodeMeshState rlpHash hmp peer now msg))
| reach_position hmp pos :
    reachable hmp -> reachable (SetLocalPosition hmp pos)
| reach_cleanup hmp now :
    reachable hmp -> reachable (cleanupStaleRequests hmp now)
| reach_take_block hmp :
    reachable hmp -> reachable (takeBlock hmp)
| reach_take_header hmp :
    reachable hmp -> reachable (takeHeader hmp).

End Reachable.

End MeshVocabulary.

(* ================================================================== *)
(** ** Chains, headers and blocks to run the validators on *)

Module Samples.
Import core consensus.

(** A standard header with the given parent, number and time. *)
Definition plain_header (parent : Hash) (number time : Z) : types.Header :=
  {| types.ParentHash := parent;
     types.UncleHash := types.EmptyUncleHash;
     types.Coinbase := zero_address;
     types.Root := zero_hash;
     types.TxHash := types.EmptyTxsHash;
     types.ReceiptHash := types.EmptyReceiptsHash;
     types.Bloom := types.zero_bloom;
     types.Difficulty := 1;
     types.Number := number;
     types.GasLimit := 5000000;
     types.GasUsed := 0;
     types.Time := time;
     types.Extra := [];
     types.MixDigest := zero_hash;
     types.Nonce := 0;
     types.BaseFee := None;
     types.WithdrawalsHash := None;
     types.BlobGasUsed := None;
     types.ExcessBlobGas := None;
     types.ParentBeaconRoot := None |}.

(** A hexagonal header with the given hexagonal fields, state root, number
    and time. *)
Definition hex_header (parents : Array6 Hash) (count : Z) (pos : HexCoordinate)
           (proof : core.HexaProof) (root : Hash) (number time : Z) : HexHeader :=
  {| ParentHashes := parents;
     NeighborCount := count;
     HexPosition := pos;
     MeshRoot := zero_hash;
     HexProof := proof;
     Coinbase := zero_address;
     Root := root;
     TxHash := types.EmptyTxsHash;
     ReceiptHash := types.EmptyReceiptsHash;
     Bloom := types.zero_bloom;
     Difficulty := 1;
     Number := number;
     GasLimit := 5000000;
     GasUsed := 0;
     Time := time;
     Extra := [];
     MixDigest := zero_hash;
     Nonce := 0;
     BaseFee := None;
     WithdrawalsHash := None;
     BlobGasUsed := None;
     ExcessBlobGas := None |}.

(** A proof with the given signature slots and timestamp. *)
Definition proof_with (sigs : Array6 bytes) (timestamp : Z) : core.HexaProof :=
  mkHexaProof sigs [] [] timestamp [] zero_hash.

Definition empty_reader : ChainHeaderReader := mkChainHeaderReader (fun _ => None).

(** The engine under the default configuration. *)
Definition sample_engine : HexaProof := New None empty_reader.

(** A standard header at height 1 over the unknown parent [0x1234], and
    its conversion. *)
Definition orphan_header : types.Header := plain_header 0x1234 1 1700000000.

Definition low_header : HexHeader := fst (convertToHexHeader orphan_header).

(** A chain of two blocks, [0xa1] and [0xa2], and a child of both. *)
Definition parent_at (t : Z) : types.Header := plain_header 0 1 t.

Definition two_block_chain : ChainHeaderReader :=
  mkChainHeaderReader
    (fun h => if h =? 0xa1 then Some (parent_at 1700000000)
              else if h =? 0xa2 then Some (parent_at 1700000005)
              else None).

Definition child_at (t : Z) : HexHeader :=
  hex_header (mkArray6 0xa1 0 0xa2 0 0 0) 2 (NewHexCoordinate 1 0) empty_proof 0 2 t.

(** A chain that knows one block, [0xb1], and a header at height 1 over it
    whose single signature slot holds one zero byte. *)
Definition forged_chain : ChainHeaderReader :=
  mkChainHeaderReader
    (fun h => if h =? 0xb1 then Some (plain_header 0 0 1700000000) else None).

Definition forged_header : HexHeader :=
  hex_header (mkArray6 0xb1 0 0 0 0 0) 1 (NewHexCoordinate 1 0)
    (proof_with (mkArray6 [Byte.x00] [] [] [] [] []) 1700000002)
    0 1 1700000001.

(** Genesis at the origin, known under the hash [0xb0], to the block chain
    and, as a standard header, to the engine's chain reader. *)
Definition genesis_block : HexBlock := HexGenesisBlock 1700000000.

Definition origin_chain : HexBlockChain :=
  mkHexBlockChain
    (fun h => if h =? 0xb0 then Some (ToEthHeader (header genesis_block)) else None)
    (fun h => if h =? 0xb0 then Some genesis_block else None)
    (fun h => h =? 0xb0)
    (fun h => if h =? 0xb0 then inl [] else inr (ErrExternal "missing trie node")).

Definition origin_reader : ChainHeaderReader :=
  mkChainHeaderReader (core.GetHeaderByHash origin_chain).

(** A block at height 1 and position (2,0) whose single parent is genesis. *)
Definition far_header : HexHeader :=
  hex_header (mkArray6 0xb0 0 0 0 0 0) 1 (NewHexCoordinate 2 0)
    (proof_with (mkArray6 [Byte.x01] [] [] [] [] []) 1700000002)
    0 1 1700000001.

Definition far_block : HexBlock := NewHexBlock far_header [] [].

(** Two parents, [0xa1] and [0xa2], whose states write different values to
    the key 7, and a child of both that declares the state root [root]. *)
Definition forked_chain : HexBlockChain :=
  mkHexBlockChain
    (fun _ => None) (fun _ => None) (fun h => (h =? 0xa1) || (h =? 0xa2))
    (fun h => if h =? 0xa1 then inl [(7, 100)]
              else if h =? 0xa2 then inl [(7, 200)]
              else inr (ErrExternal "missing trie node")).

Definition merge_block (root : Hash) : HexBlock :=
  NewHexBlock
    (hex_header (mkArray6 0xa1 0xa2 0 0 0 0) 2 (NewHexCoordinate 1 0) empty_proof
                root 2 1700000010)
    [] [].

(** A stand-in digest for running [Hash]: one plus the sum of the bytes. *)
Definition byte_sum (bs : bytes) : Hash :=
  1 + fold_right (fun b acc => Z.of_N (Byte.to_N b) + acc) 0 bs.

Definition signed_proof : core.HexaProof :=
  mkHexaProof (mkArray6 [Byte.x01] [Byte.x02] [] [] [] []) [Byte.x0a] [Byte.x0b]
              1700000000 [zero_address] zero_hash.

(** The header of [HexGenesisBlock], given a proof stamped one second after
    its creation. *)
Definition stamped_genesis : HexHeader :=
  let g := header (HexGenesisBlock 1700000000) in
  hex_header (ParentHashes g) (NeighborCount g) (HexPosition g)
             (proof_with (fill6 []) 1700000001) (Root g) (Number g) (Time g).

(** An engine that asks for at least one neighbor, a chain that knows the
    block [0xb1] at height 0, and [forged_header] above it. *)
Definition lenient_config : HexaProofConfig :=
  mkHexaProofConfig 6 1 (2 * Second) (6 * Second) (1 * Second) "weighted" (2 * Second).

Definition lenient_engine : HexaProof := New (Some lenient_config) forged_chain.

(** A block at height 1 and position (1,0) whose single parent is genesis. *)
Definition near_block : HexBlock :=
  NewHexBlock
    (hex_header (mkArray6 0xb0 0 0 0 0 0) 1 (NewHexCoordinate 1 0)
       (proof_with (mkArray6 [Byte.x01] [] [] [] [] []) 1700000002)
       0 1 1700000001)
    [] [].

(** [orphan_header] as a post-Cancun header: with a parent beacon root. *)
Definition beacon_header : types.Header :=
  let e := plain_header 0x1234 1 1700000000 in
  types.mkHeader (types.ParentHash e) (types.UncleHash e) (types.Coinbase e) (types.Root e)
    (types.TxHash e) (types.ReceiptHash e) (types.Bloom e) (types.Difficulty e)
    (types.Number e) (types.GasLimit e) (types.GasUsed e) (types.Time e)
    (types.Extra e) (types.MixDigest e) (types.Nonce e) (types.BaseFee e)
    (types.WithdrawalsHash e) (types.BlobGasUsed e) (types.ExcessBlobGas e)
    (Some 0xbeac).

(** A status of the default network for a node at [pos]. *)
Definition status_at (pos : HexCoordinate) : network.HexStatus :=
  network.mkHexStatus 1 1337 zero_hash zero_hash pos.

Definition status_msg : network.Msg := network.mkMsg network.HexStatusMsg [].

(** A fresh protocol that has shaken hands with peer 7, a node at (1,0). *)
Definition mesh_with_peer : network.HexMeshProtocol :=
  fst (network.AddPeer (fun _ => Some (status_at (NewHexCoordinate 1 0)))
         (network.NewHexMeshProtocol None) 7 1000 None (inl status_msg)).

End Samples.

(* ================================================================== *)
(** * Properties *)

(** ** Facts about arrays and machine arithmetic *)

Module BaseFacts.

Lemma elems_length {A} (a : Array6 A) : List.length (elems a) = 6%nat.
Proof. reflexivity. Qed.

Lemma elems_map6 {A B} (f : A -> B) (a : Array6 A) :
  elems (map6 f a) = map f (elems a).
Proof. reflexivity. Qed.

Lemma wrap64_range z : - half_modulus <= wrap64 z < half_modulus.
Proof.
  unfold wrap64, half_modulus, modulus.
  pose proof (Z.mod_pos_bound (z + 9223372036854775808) 18446744073709551616).
  lia.
Qed.

Lemma wrap64_small z : - half_modulus <= z < half_modulus -> wrap64 z = z.
Proof.
  unfold wrap64, half_modulus, modulus. intros Hz.
  rewrite Z.mod_small; lia.
Qed.

(** [wrap64 z] differs from [z] by a multiple of [2^64]. *)
Lemma wrap64_spec z : exists k, wrap64 z = z + k * modulus.
Proof.
  exists (- ((z + half_modulus) / modulus)).
  unfold wrap64.
  pose proof (Z.div_mod (z + half_modulus) modulus) as H.
  unfold modulus in *. lia.
Qed.

Lemma wrap64_shift z k : wrap64 (z + k * modulus) = wrap64 z.
Proof.
  unfold wrap64.
  replace (z + k * modulus + half_modulus) with (z + half_modulus + k * modulus) by ring.
  rewrite Z.mod_add; [reflexivity | unfold modulus; lia].
Qed.

(** A value is the reduction of [z] as soon as it is in range and congruent. *)
Lemma wrap64_unique z c k :
  z = c + k * modulus -> - half_modulus <= c < half_modulus -> wrap64 z = c.
Proof.
  intros -> Hc. rewrite wrap64_shift. now apply wrap64_small.
Qed.

Lemma wrap64_idem z : wrap64 (wrap64 z) = wrap64 z.
Proof. apply wrap64_small, wrap64_range. Qed.

Lemma wrap64_inj_shift a d e :
  - half_modulus <= d < half_modulus -> - half_modulus <= e < half_modulus ->
  wrap64 (a + d) = wrap64 (a + e) -> d = e.
Proof.
  intros Hd He H.
  destruct (wrap64_spec (a + d)) as [k Hk].
  destruct (wrap64_spec (a + e)) as [l Hl].
  rewrite Hk, Hl in H. unfold half_modulus, modulus in *. lia.
Qed.

End BaseFacts.

Import BaseFacts.

Module CoordinateFacts.
Import core Vocabulary.

Lemma sub64_step x d :
  - half_modulus < d < half_modulus -> sub64 x (add64 x d) = - d.
Proof.
  intros Hd. unfold sub64, add64.
  destruct (wrap64_spec (x + d)) as [k Hk]. rewrite Hk.
  apply wrap64_unique with (k := - k); [ring | lia].
Qed.

Lemma cube_sum_New q r : cube_sum (NewHexCoordinate q r) = 0.
Proof.
  unfold cube_sum, NewHexCoordinate, add64, sub64, neg64; simpl.
  destruct (wrap64_spec (- q)) as [k1 H1]. rewrite H1.
  destruct (wrap64_spec (- q + k1 * modulus - r)) as [k2 H2]. rewrite H2.
  destruct (wrap64_spec (q + r)) as [k3 H3]. rewrite H3.
  apply wrap64_unique with (k := k1 + k2 + k3); [ring | unfold half_modulus; lia].
Qed.

Lemma sub64_S_step a dq dr :
  cube_sum a = 0 ->
  - 2 <= dq + dr <= 2 ->
  sub64 (S a) (S (NewHexCoordinate (add64 (Q a) dq) (add64 (R a) dr))) = dq + dr.
Proof.
  unfold cube_sum, NewHexCoordinate, add64, sub64, neg64; simpl.
  intros Hc Hd.
  destruct (wrap64_spec (Q a + R a)) as [k0 H0]. rewrite H0 in Hc.
  destruct (wrap64_spec (Q a + R a + k0 * modulus + S a)) as [k0' H0']. rewrite H0' in Hc.
  destruct (wrap64_spec (Q a + dq)) as [k1 H1]. rewrite H1.
  destruct (wrap64_spec (R a + dr)) as [k2 H2]. rewrite H2.
  destruct (wrap64_spec (- (Q a + dq + k1 * modulus))) as [k3 H3]. rewrite H3.
  destruct (wrap64_spec (- (Q a + dq + k1 * modulus) + k3 * modulus - (R a + dr + k2 * modulus)))
    as [k4 H4]. rewrite H4.
  apply wrap64_unique with (k := k1 + k2 - k3 - k4 - k0 - k0');
    [ | unfold half_modulus; lia].
  unfold modulus in *. lia.
Qed.

Lemma New_inj_offsets x y d1 e1 d2 e2 :
  - 2 <= d1 <= 2 -> - 2 <= d2 <= 2 -> - 2 <= e1 <= 2 -> - 2 <= e2 <= 2 ->
  NewHexCoordinate (add64 x d1) (add64 y e1) = NewHexCoordinate (add64 x d2) (add64 y e2) ->
  d1 = d2 /\ e1 = e2.
Proof.
  intros Hd1 Hd2 He1 He2 H.
  pose proof (f_equal Q H) as HQ. pose proof (f_equal R H) as HR.
  cbn [Q R NewHexCoordinate] in HQ, HR. unfold add64 in HQ, HR.
  split.
  - apply (wrap64_inj_shift x); [unfold half_modulus; lia | unfold half_modulus; lia | exact HQ].
  - apply (wrap64_inj_shift y); [unfold half_modulus; lia | unfold half_modulus; lia | exact HR].
Qed.

Lemma Distance_step a dq dr :
  cube_sum a = 0 ->
  (dq, dr) = (1, 0) \/ (dq, dr) = (1, -1) \/ (dq, dr) = (0, -1) \/
  (dq, dr) = (-1, 0) \/ (dq, dr) = (-1, 1) \/ (dq, dr) = (0, 1) ->
  Distance a (NewHexCoordinate (add64 (Q a) dq) (add64 (R a) dr)) = 1.
Proof.
  intros Ha Hd. unfold Distance.
  assert (Hr : -1 <= dq <= 1 /\ -1 <= dr <= 1 /\ -1 <= dq + dr <= 1)
    by (repeat destruct Hd as [Hd | Hd]; injection Hd as -> ->; lia).
  rewrite sub64_S_step by (assumption || lia).
  cbn [Q R NewHexCoordinate].
  rewrite !sub64_step by (unfold half_modulus; lia).
  repeat destruct Hd as [Hd | Hd]; injection Hd as -> ->; vm_compute; reflexivity.
Qed.

Lemma Neighbors_distance_one (a n : HexCoordinate) :
  cube_sum a = 0 -> In n (elems (Neighbors a)) -> Distance a n = 1.
Proof.
  intros Ha Hin. unfold Neighbors in Hin. rewrite elems_map6 in Hin.
  cbn [elems directions map slot0 slot1 slot2 slot3 slot4 slot5 fst snd In] in Hin.
  repeat (destruct Hin as [Hin | Hin];
          [ subst n; apply Distance_step; [assumption | tauto] | ]).
  contradiction.
Qed.

(** C9.  For every coordinate [a], [Neighbors a] lists six pairwise distinct
    coordinates in the order East, NorthEast, NorthWest, West, SouthWest,
    SouthEast; when [a] is a coordinate of the data model (it satisfies the
    cube constraint [Q + R + S = 0]), each of them is at distance exactly 1
    from [a]; and every coordinate built by [NewHexCoordinate] satisfies the
    cube constraint. *)
Theorem Neighbors_six_distinct_adjacent (a : HexCoordinate) :
  elems (Neighbors a) =
    [ step a HexEast; step a HexNorthEast; step a HexNorthWest;
      step a HexWest; step a HexSouthWest; step a HexSouthEast ]
  /\ map direction_offset
       [HexEast; HexNorthEast; HexNorthWest; HexWest; HexSouthWest; HexSouthEast]
     = [(1, 0); (1, -1); (0, -1); (-1, 0); (-1, 1); (0, 1)]
  /\ List.length (elems (Neighbors a)) = 6%nat
  /\ NoDup (elems (Neighbors a))
  /\ (cube_sum a = 0 -> forall n, In n (elems (Neighbors a)) -> Distance a n = 1)
  /\ (forall q r, cube_sum (NewHexCoordinate q r) = 0).
Proof.
  split; [reflexivity | ]. split; [reflexivity | ]. split; [reflexivity | ].
  split; [ | split ].
  - unfold Neighbors. rewrite elems_map6.
    cbn [elems directions map slot0 slot1 slot2 slot3 slot4 slot5 fst snd].
    repeat (constructor;
            [ cbn [In]; intros Hin;
              repeat (destruct Hin as [Hin | Hin];
                      [ apply New_inj_offsets in Hin; lia | ]);
              exact Hin
            | ]).
    constructor.
  - intros Ha n Hin. now apply Neighbors_distance_one.
  - apply cube_sum_New.
Qed.

Lemma Neighbors_six_distinct_adjacent_witness :
  cube_sum (NewHexCoordinate 3 (-7)) = 0
  /\ NoDup (elems (Neighbors (NewHexCoordinate 3 (-7))))
  /\ Distance (NewHexCoordinate 3 (-7)) (slot4 (Neighbors (NewHexCoordinate 3 (-7)))) = 1.
Proof.
  split; [reflexivity | ].
  destruct (Neighbors_six_distinct_adjacent (NewHexCoordinate 3 (-7)))
    as (_ & _ & _ & Hnd & Hdist & _).
  split; [exact Hnd | ].
  apply Hdist; [reflexivity | ]. cbn. tauto.
Defined.

End CoordinateFacts.

(** ** Loops and counters *)

Module LoopFacts.
Import core Vocabulary.

Lemma rejected_not_ok (r : res) : rejected r <-> r <> Ok.
Proof.
  split.
  - intros [e ->]. discriminate.
  - destruct r as [ | e]; [congruence | intros _; now exists e].
Qed.

Lemma and_then_ok (r k : res) : (r ;; k) = Ok <-> r = Ok /\ k = Ok.
Proof.
  destruct r as [ | e]; simpl.
  - tauto.
  - split; [discriminate | intros [H _]; discriminate].
Qed.

Lemma for_each_ok {A} (f : A -> res) (l : list A) :
  for_each f l = Ok <-> forall x, In x l -> f x = Ok.
Proof.
  induction l as [ | x l IH]; simpl.
  - split; [intros _ y [] | reflexivity].
  - rewrite and_then_ok, IH. split.
    + intros [Hx Hl] y [<- | Hy]; auto.
    + intros H. split; [apply H; now left | intros y Hy; apply H; now right].
Qed.

Lemma for_each_indexed_ok {A} (f : Z -> A -> res) (P : A -> Prop) :
  (forall i x, f i x = Ok <-> P x) ->
  forall l i, for_each_indexed f i l = Ok <-> forall x, In x l -> P x.
Proof.
  intros Hf. induction l as [ | x l IH]; intros i; simpl.
  - split; [intros _ y [] | reflexivity].
  - rewrite and_then_ok, IH, Hf. split.
    + intros [Hx Hl] y [<- | Hy]; auto.
    + intros H. split; [apply H; now left | intros y Hy; apply H; now right].
Qed.

Lemma count_nonzero_hashes_filter (a : Array6 Hash) :
  count_nonzero_hashes a = Z.of_nat (List.length (nonempty_parents a)).
Proof.
  destruct a as [a0 a1 a2 a3 a4 a5].
  unfold count_nonzero_hashes, nonempty_parents, elems; simpl.
  destruct (is_empty_hash a0), (is_empty_hash a1), (is_empty_hash a2),
    (is_empty_hash a3), (is_empty_hash a4), (is_empty_hash a5); reflexivity.
Qed.

Lemma count_signatures_filter (a : Array6 bytes) :
  count_signatures a = Z.of_nat (List.length (present_signatures a)).
Proof.
  destruct a as [a0 a1 a2 a3 a4 a5].
  unfold count_signatures, present_signatures, elems.
  destruct a0, a1, a2, a3, a4, a5; reflexivity.
Qed.

Lemma is_empty_hash_true (x : Hash) : is_empty_hash x = true <-> x = zero_hash.
Proof. unfold is_empty_hash, hash_eqb. apply Z.eqb_eq. Qed.

Lemma is_empty_hash_false (x : Hash) : is_empty_hash x = false <-> x <> zero_hash.
Proof. unfold is_empty_hash, hash_eqb. apply Z.eqb_neq. Qed.

Lemma nonempty_parents_In (a : Array6 Hash) (x : Hash) :
  In x (nonempty_parents a) <-> In x (elems a) /\ x <> zero_hash.
Proof.
  unfold nonempty_parents. rewrite filter_In, negb_true_iff, is_empty_hash_false.
  reflexivity.
Qed.

Lemma nonempty_parents_nil (a : Array6 Hash) :
  nonempty_parents a = [] <-> a = fill6 zero_hash.
Proof.
  destruct a as [a0 a1 a2 a3 a4 a5]. unfold nonempty_parents, elems, fill6; simpl.
  split.
  - destruct (is_empty_hash a0) eqn:E0, (is_empty_hash a1) eqn:E1,
      (is_empty_hash a2) eqn:E2, (is_empty_hash a3) eqn:E3,
      (is_empty_hash a4) eqn:E4, (is_empty_hash a5) eqn:E5;
      simpl; try discriminate.
    apply is_empty_hash_true in E0, E1, E2, E3, E4, E5. now subst.
  - intros H. injection H as -> -> -> -> -> ->. reflexivity.
Qed.

End LoopFacts.

(** ** The stages of the engine's pipeline *)

Module StageFacts.
Import core consensus Vocabulary Samples LoopFacts.

Lemma Uint64_nonneg x : 0 <= types.Uint64 x.
Proof.
  unfold types.Uint64. pose proof (Z.mod_pos_bound (Z.abs x) modulus).
  unfold modulus in *. lia.
Qed.

Lemma Uint64_small x : 0 <= x < modulus -> types.Uint64 x = x.
Proof.
  intros Hx. unfold types.Uint64. rewrite Z.abs_eq by lia.
  apply Z.mod_small. exact Hx.
Qed.

(** C5.  The structural stage rejects a header exactly when its declared
    neighbor count exceeds 6, or the number of non-empty parent slots
    differs from the declared count, or it is genesis with a non-zero
    count, or it is non-genesis with count 0.  In particular a header that
    declares [k] and fills [k+1] or [k-1] slots is rejected. *)
Theorem validateBasicStructure_rejects_iff (header : HexHeader) :
  let k := NeighborCount header in
  let filled := Z.of_nat (List.length (nonempty_parents (ParentHashes header))) in
  let number := types.Uint64 (Number header) in
  (rejected (validateBasicStructure header) <->
     6 < k \/ filled <> k \/ (number = 0 /\ k <> 0) \/ (0 < number /\ k = 0))
  /\ (filled = k + 1 \/ filled = k - 1 -> rejected (validateBasicStructure header)).
Proof.
  intros k filled number.
  assert (Hiff : rejected (validateBasicStructure header) <->
                 6 < k \/ filled <> k \/ (number = 0 /\ k <> 0) \/ (0 < number /\ k = 0)).
  { unfold validateBasicStructure. rewrite count_nonzero_hashes_filter.
    fold k filled number. rewrite rejected_not_ok.
    destruct (k >? 6) eqn:E1; [ split; [intros _; lia | discriminate] | ].
    destruct (filled =? k) eqn:E2; simpl;
      [ | split; [intros _; lia | discriminate] ].
    destruct (number =? 0) eqn:E3; simpl.
    - destruct (k =? 0) eqn:E4; simpl.
      + assert ((number >? 0) = false) as -> by lia. simpl.
        split; [congruence | lia].
      + split; [intros _; lia | discriminate].
    - pose proof (Uint64_nonneg (Number header)). fold number in H.
      assert ((number >? 0) = true) as -> by lia. simpl.
      destruct (k =? 0) eqn:E4.
      + split; [intros _; lia | discriminate].
      + split; [congruence | lia]. }
  split; [exact Hiff | ].
  intros Hk. apply Hiff. right; left. lia.
Qed.

(** C4, as the code has it.  The neighbor-count stage accepts a header
    exactly when its declared count does not exceed [MaxNeighbors] and,
    for every header with number > 0, is at least [MinNeighbors]; genesis
    is the only exemption, whatever the height of the chain. *)
Theorem validateNeighborCount_accepts_iff (h : HexaProof) (header : HexHeader) :
  validateNeighborCount h header = Ok <->
  NeighborCount header <= MaxNeighbors (config h)
  /\ (0 < types.Uint64 (Number header) -> MinNeighbors (config h) <= NeighborCount header).
Proof.
  unfold validateNeighborCount.
  destruct (NeighborCount header >? MaxNeighbors (config h)) eqn:E1;
    [ split; [discriminate | lia] | ].
  destruct (types.Uint64 (Number header) >? 0) eqn:E2; simpl.
  - destruct (NeighborCount header <? MinNeighbors (config h)) eqn:E3.
    + split; [discriminate | lia].
    + split; [intros _; lia | reflexivity].
  - split; [intros _; lia | reflexivity].
Qed.

(** C4, as stated, fails: over an empty chain, a header at height 1, below
    the default [MinNeighbors = 3], with one neighbor is rejected although
    the specification exempts chains below that height. *)
Lemma validateNeighborCount_no_low_height_exemption :
  ~ (forall (h : HexaProof) (header : HexHeader),
        0 < types.Uint64 (Number header) ->
        types.Uint64 (Number header) < MinNeighbors (config h) ->
        NeighborCount header <= MaxNeighbors (config h) ->
        validateNeighborCount h header = Ok).
Proof.
  intros H.
  specialize (H sample_engine low_header).
  assert (E : validateNeighborCount sample_engine low_header
              = Err (ErrInsufficientNeighbors 1 3)) by reflexivity.
  rewrite H in E; [discriminate | reflexivity | reflexivity | ].
  cbn. lia.
Qed.

End StageFacts.

(** ** The timestamp stage *)

Module TimestampFacts.
Import core consensus Vocabulary Samples LoopFacts.

Lemma max_timestamp_upper (times : list Z) (t : Z) :
  In t times -> t <= max_timestamp times.
Proof.
  induction times as [ | x times IH]; simpl; [tauto | ].
  intros [-> | Hin]; [lia | specialize (IH Hin); lia].
Qed.

Lemma max_timestamp_attained (times : list Z) :
  times <> [] -> (forall t, In t times -> 0 <= t) -> In (max_timestamp times) times.
Proof.
  induction times as [ | x times IH]; [congruence | ].
  intros _ Hpos. simpl.
  destruct times as [ | y times].
  - left. simpl. specialize (Hpos x (or_introl eq_refl)). lia.
  - destruct (Z.max_spec x (max_timestamp (y :: times))) as [[_ ->] | [_ ->]].
    + right. apply IH; [discriminate | intros t Ht; apply Hpos; now right].
    + now left.
Qed.

Lemma resolved_parents_In chain header (p : types.Header) :
  In p (resolved_parents chain header) <->
  exists parentHash, In parentHash (elems (ParentHashes header))
                     /\ parentHash <> zero_hash
                     /\ GetHeaderByHash chain parentHash = Some p.
Proof.
  unfold resolved_parents. rewrite in_flat_map. split.
  - intros (x & Hx & Hp). exists x.
    destruct (is_empty_hash x) eqn:E; [contradiction | ].
    apply is_empty_hash_false in E.
    destruct (GetHeaderByHash chain x) as [q | ]; [ | contradiction].
    destruct Hp as [<- | []]. auto.
  - intros (x & Hx & Hne & Hget). exists x. split; [exact Hx | ].
    apply is_empty_hash_false in Hne. rewrite Hne, Hget. now left.
Qed.

Lemma maxParentTime_fold chain (hashes : list Hash) (m : Z) :
  0 <= m ->
  fold_left
    (fun m parentHash =>
       if is_empty_hash parentHash then m
       else match GetHeaderByHash chain parentHash with
            | Some parentHeader =>
                if types.Time parentHeader >? m then types.Time parentHeader else m
            | None => m
            end) hashes m
  = Z.max m (max_timestamp
               (map types.Time
                    (flat_map (fun parentHash =>
                                 if is_empty_hash parentHash then []
                                 else match GetHeaderByHash chain parentHash with
                                      | Some parentHeader => [parentHeader]
                                      | None => []
                                      end) hashes))).
Proof.
  revert m. induction hashes as [ | x hashes IH]; intros m Hm; simpl.
  - lia.
  - destruct (is_empty_hash x); [now apply IH | ].
    destruct (GetHeaderByHash chain x) as [p | ]; [ | now apply IH].
    simpl. destruct (types.Time p >? m) eqn:E; rewrite IH by lia; lia.
Qed.

Lemma maxParentTime_spec chain header :
  maxParentTime chain header
  = max_timestamp (map types.Time (resolved_parents chain header)).
Proof.
  unfold maxParentTime, resolved_parents.
  rewrite maxParentTime_fold by lia.
  apply Z.max_r.
  generalize (map types.Time
     (flat_map
        (fun parentHash : Hash =>
         if is_empty_hash parentHash
         then []
         else
          match GetHeaderByHash chain parentHash with
          | Some parentHeader => [parentHeader]
          | None => []
          end) (elems (ParentHashes header)))).
  induction l; simpl; lia.
Qed.

(** C8.  With the clock at [unixNow] (and [unixNow + 15] within [uint64]),
    the timestamp stage accepts a header exactly when its time is strictly
    greater than the maximum timestamp among its resolved parents and at
    most [unixNow + 15]; a header whose time equals the time of one of its
    resolved parents is rejected. *)
Theorem validateTimestamp_accepts_iff (unixNow : Z) (chain : ChainHeaderReader)
        (header : HexHeader) :
  0 <= unixNow -> unixNow + 15 < modulus ->
  (validateTimestamp unixNow chain header = Ok <->
     max_timestamp (map types.Time (resolved_parents chain header)) < Time header
     /\ Time header <= unixNow + 15)
  /\ (forall p, In p (resolved_parents chain header) ->
                Time header = types.Time p ->
                rejected (validateTimestamp unixNow chain header)).
Proof.
  intros H0 H1.
  assert (Hlim : addU64 (wrapU64 unixNow) maxFuture = unixNow + 15).
  { unfold addU64, wrapU64, maxFuture.
    rewrite (Z.mod_small unixNow) by (unfold modulus in *; lia).
    apply Z.mod_small. unfold modulus in *. lia. }
  assert (Hiff : validateTimestamp unixNow chain header = Ok <->
     max_timestamp (map types.Time (resolved_parents chain header)) < Time header
     /\ Time header <= unixNow + 15).
  { unfold validateTimestamp. rewrite Hlim, maxParentTime_spec.
    set (m := max_timestamp _).
    destruct (Time header <=? m) eqn:E1; [ split; [discriminate | lia] | ].
    destruct (Time header >? unixNow + 15) eqn:E2.
    - split; [discriminate | lia].
    - split; [intros _; lia | reflexivity]. }
  split; [exact Hiff | ].
  intros p Hp Heq. apply rejected_not_ok. intros Hok.
  apply Hiff in Hok. destruct Hok as [Hlt _].
  pose proof (max_timestamp_upper (map types.Time (resolved_parents chain header))
                (types.Time p) (in_map _ _ _ Hp)).
  lia.
Qed.

Lemma validateTimestamp_accepts_iff_witness :
  validateTimestamp 1700000010 two_block_chain (child_at 1700000006) = Ok
  /\ rejected (validateTimestamp 1700000010 two_block_chain (child_at 1700000005)).
Proof.
  split.
  - apply (validateTimestamp_accepts_iff 1700000010 two_block_chain (child_at 1700000006));
      [lia | unfold modulus; lia | ].
    vm_compute. split; [reflexivity | discriminate].
  - apply (proj2 (validateTimestamp_accepts_iff 1700000010 two_block_chain
                    (child_at 1700000005) ltac:(lia) ltac:(unfold modulus; lia))
             (parent_at 1700000005)).
    + vm_compute. right. left. reflexivity.
    + reflexivity.
Defined.

End TimestampFacts.

(** ** The proof stage *)

Module ProofFacts.
Import core consensus Vocabulary Samples LoopFacts.

Lemma proof_parents_ok chain (hashes : list Hash) :
  for_each
    (fun parentHash =>
       if is_empty_hash parentHash then Ok
       else match GetHeaderByHash chain parentHash with
            | None => Err (ErrProofUnknownParent parentHash)
            | Some _ => Ok
            end) hashes = Ok
  <-> forall p, In p hashes -> p <> zero_hash -> GetHeaderByHash chain p <> None.
Proof.
  rewrite for_each_ok. split; intros H p Hin.
  - intros Hne. specialize (H p Hin).
    apply is_empty_hash_false in Hne. rewrite Hne in H.
    destruct (GetHeaderByHash chain p); [discriminate | discriminate H].
  - specialize (H p Hin).
    destruct (is_empty_hash p) eqn:E; [reflexivity | ].
    apply is_empty_hash_false in E. specialize (H E).
    destruct (GetHeaderByHash chain p); [reflexivity | congruence].
Qed.

(** C1, as the code has it.  Both proof validators accept a header exactly
    when its proof timestamp is set and not before the header time, every
    non-empty parent resolves (engine only), and at least [NeighborCount]
    signature slots are non-empty.  Nothing else about a signature is
    examined: whether it verifies plays no part in the verdict. *)
Theorem proof_stage_counts_signatures (chain : ChainHeaderReader) (header : HexHeader)
        (block : HexBlock) :
  (validateHexaProof chain header = Ok <->
     Timestamp (HexProof header) <> 0
     /\ Time header <= Timestamp (HexProof header)
     /\ (forall p, In p (elems (ParentHashes header)) -> p <> zero_hash ->
                   GetHeaderByHash chain p <> None)
     /\ NeighborCount header
        <= Z.of_nat (List.length (present_signatures (NeighborSignatures (HexProof header)))))
  /\ (ValidateHexProof block = Ok <->
        Timestamp (HexProof (header_of block)) <> 0
        /\ Time (header_of block) <= Timestamp (HexProof (header_of block))
        /\ NeighborCount (header_of block)
           <= Z.of_nat (List.length
                          (present_signatures
                             (NeighborSignatures (HexProof (header_of block)))))).
Proof.
  split.
  - unfold validateHexaProof.
    destruct (Timestamp (HexProof header) =? 0) eqn:E1;
      [ split; [discriminate | lia] | ].
    destruct (Timestamp (HexProof header) <? Time header) eqn:E2;
      [ split; [discriminate | lia] | ].
    rewrite and_then_ok, proof_parents_ok, count_signatures_filter.
    set (n := Z.of_nat _).
    destruct (n <? NeighborCount header) eqn:E3.
    + split; [intros [_ H]; discriminate | lia].
    + split; [intros [H _]; repeat split; try lia; exact H | intros (_ & _ & H & _); auto].
  - unfold ValidateHexProof, header_of, Block_Header.
    destruct (Timestamp (HexProof (core.header block)) =? 0) eqn:E1;
      [ split; [discriminate | lia] | ].
    destruct (Timestamp (HexProof (core.header block)) <? Time (core.header block)) eqn:E2;
      [ split; [discriminate | lia] | ].
    rewrite count_signatures_filter.
    set (n := Z.of_nat _).
    destruct (n <? NeighborCount (core.header block)) eqn:E3.
    + split; [discriminate | lia].
    + split; [intros _; lia | reflexivity].
Qed.

(** C1, as stated, fails: whatever the signature check (here: a signature
    has the 65 bytes of a recoverable ECDSA signature), a header whose only
    signature slot holds a single zero byte passes the proof stage. *)
Lemma proof_stage_skips_signature_check :
  ~ (forall (verify : Hash -> bytes -> Address -> bool)
            (signer : HexHeader -> nat -> Address)
            (rlpHash : HexHeader -> Hash)
            (chain : ChainHeaderReader) (header : HexHeader),
        validateHexaProof chain header = Ok ->
        forall (i : nat) (sig : bytes),
          nth_error (elems (NeighborSignatures (HexProof header))) i = Some sig ->
          sig <> [] ->
          verify (rlpHash header) sig (signer header i) = true).
Proof.
  intros H.
  specialize (H (fun _ sig _ => Nat.eqb (List.length sig) 65)
                (fun _ _ => []) (fun _ => 0xc1)
                forged_chain forged_header eq_refl 0%nat [Byte.x00] eq_refl).
  cbn in H. discriminate H. discriminate.
Qed.

End ProofFacts.

(** ** Topology: positional adjacency *)

Module TopologyFacts.
Import core Vocabulary Samples LoopFacts CoordinateFacts.

Lemma coord_eqb_eq (a b : HexCoordinate) : coord_eqb a b = true <-> a = b.
Proof.
  destruct a as [q1 r1 s1], b as [q2 r2 s2]. unfold coord_eqb; simpl.
  rewrite !andb_true_iff, !Z.eqb_eq. split.
  - intros [[-> ->] ->]. reflexivity.
  - intros H. injection H as -> -> ->. auto.
Qed.

Lemma coord_map_get_insert m k v p :
  coord_map_get (coord_map_insert m k v) p
  = if coord_eqb k p then v else coord_map_get m p.
Proof.
  unfold coord_map_get, coord_map_insert. simpl.
  destruct (coord_eqb k p); reflexivity.
Qed.

Lemma coord_map_get_fold (l : list HexCoordinate) (p : HexCoordinate) :
  forall m,
    coord_map_get (fold_left (fun m n => coord_map_insert m n true) l m) p = true
    <-> In p l \/ coord_map_get m p = true.
Proof.
  induction l as [ | x l IH]; intros m; simpl.
  - tauto.
  - rewrite IH, coord_map_get_insert.
    destruct (coord_eqb x p) eqn:E.
    + apply coord_eqb_eq in E. subst. tauto.
    + assert (x <> p) by (intros Heq; apply coord_eqb_eq in Heq; congruence).
      tauto.
Qed.

(** The map built from [Neighbors pos] answers [true] exactly on the six
    neighbors. *)
Lemma neighbor_map_get (pos p : HexCoordinate) :
  coord_map_get (neighbor_map pos) p = true <-> In p (elems (Neighbors pos)).
Proof.
  unfold neighbor_map. rewrite coord_map_get_fold.
  unfold coord_map_get at 1. simpl find. split; [intros [H | H]; [exact H | discriminate] | tauto].
Qed.

(** The block validator's topology check accepts exactly the blocks all of
    whose resolved parents sit on one of the six neighbors of the block's
    position. *)
Lemma block_validateMeshTopology_ok_iff (bc : HexBlockChain) (block : HexBlock) :
  validateMeshTopology bc block = Ok <->
  forall parentHash parentBlock,
    In parentHash (elems (ParentHashes (header block))) ->
    parentHash <> zero_hash ->
    GetHexBlock bc parentHash = Some parentBlock ->
    In (Block_HexPosition parentBlock) (elems (Neighbors (HexPosition (header block)))).
Proof.
  unfold validateMeshTopology, Block_Header. rewrite for_each_ok. split.
  - intros H parentHash parentBlock Hin Hne Hget.
    specialize (H parentHash Hin).
    apply is_empty_hash_false in Hne. rewrite Hne, Hget in H.
    apply neighbor_map_get.
    destruct (coord_map_get _ _); [reflexivity | discriminate H].
  - intros H parentHash Hin.
    destruct (is_empty_hash parentHash) eqn:E; [reflexivity | ].
    destruct (GetHexBlock bc parentHash) as [parentBlock | ] eqn:Hget; [ | reflexivity].
    apply is_empty_hash_false in E.
    specialize (H parentHash parentBlock Hin E Hget).
    apply neighbor_map_get in H. rewrite H. reflexivity.
Qed.

(** With the block at a position of the data model, a resolved parent at
    hex distance 2 makes the block validator's topology check fail. *)
Lemma block_validateMeshTopology_rejects_distance_two
      (bc : HexBlockChain) (block parentBlock : HexBlock) (parentHash : Hash) :
  cube_sum (HexPosition (header block)) = 0 ->
  In parentHash (elems (ParentHashes (header block))) ->
  parentHash <> zero_hash ->
  GetHexBlock bc parentHash = Some parentBlock ->
  Distance (HexPosition (header block)) (Block_HexPosition parentBlock) = 2 ->
  rejected (validateMeshTopology bc block).
Proof.
  intros Hc Hin Hne Hget Hd. apply rejected_not_ok. intros Hok.
  rewrite block_validateMeshTopology_ok_iff in Hok.
  specialize (Hok parentHash parentBlock Hin Hne Hget).
  apply (Neighbors_distance_one _ _ Hc) in Hok. lia.
Qed.

Lemma hash_eqb_false (a b : Hash) : hash_eqb a b = false <-> a <> b.
Proof. unfold hash_eqb. apply Z.eqb_neq. Qed.

(** The engine's topology stage: only hashes decide.  It accepts exactly
    when no non-empty parent is the header's own hash and no resolved
    parent, read through [convertToHexHeader], lists the header's hash in
    one of its six slots (its parent hash and five empty hashes). *)
Lemma engine_validateMeshTopology_ok_iff (rlpHash : HexHeader -> Hash)
      (chain : consensus.ChainHeaderReader) (header : HexHeader) :
  consensus.validateMeshTopology rlpHash chain header = Ok <->
  forall parentHash,
    In parentHash (elems (ParentHashes header)) -> parentHash <> zero_hash ->
    parentHash <> rlpHash header
    /\ forall parentHeader,
         consensus.GetHeaderByHash chain parentHash = Some parentHeader ->
         types.ParentHash parentHeader <> rlpHash header
         /\ zero_hash <> rlpHash header.
Proof.
  unfold consensus.validateMeshTopology, HexHeader_Hash.
  rewrite and_then_ok, for_each_ok.
  split.
  - intros [H _] parentHash Hin Hne. specialize (H parentHash Hin).
    apply is_empty_hash_false in Hne. rewrite Hne in H.
    destruct (hash_eqb parentHash (rlpHash header)) eqn:E1; [discriminate | ].
    apply hash_eqb_false in E1. split; [exact E1 | ].
    intros parentHeader Hget. rewrite Hget in H. cbn -[hash_eqb zero_hash] in H.
    destruct (hash_eqb (types.ParentHash parentHeader) (rlpHash header)) eqn:E2;
      [discriminate | ].
    destruct (hash_eqb zero_hash (rlpHash header)) eqn:E3; [discriminate | ].
    apply hash_eqb_false in E2, E3. auto.
  - intros H. split; [ | reflexivity]. intros parentHash Hin.
    destruct (is_empty_hash parentHash) eqn:E; [reflexivity | ].
    apply is_empty_hash_false in E. destruct (H parentHash Hin E) as [H1 H2].
    apply hash_eqb_false in H1. rewrite H1.
    destruct (consensus.GetHeaderByHash chain parentHash) as [parentHeader | ];
      [ | reflexivity].
    destruct (H2 parentHeader eq_refl) as [H3 H4].
    apply hash_eqb_false in H3, H4. cbn -[hash_eqb zero_hash]. rewrite H3, H4. reflexivity.
Qed.

(** C3, as the code has it.  The block validator's topology check accepts
    a block exactly when every parent that resolves to a known block sits on
    one of the six neighbors of the block's position; in particular, for a
    block at a position of the data model, a resolved parent at hex distance
    2 is rejected, whatever its number.  The engine's topology stage, which
    resolves parents to standard headers (they carry no coordinate), decides
    on hashes alone: it accepts exactly when no non-empty parent is the
    header's own hash and no resolved parent refers back to the header. *)
Theorem adjacency_checked_by_block_validator (rlpHash : HexHeader -> Hash)
        (bc : HexBlockChain) (chain : consensus.ChainHeaderReader) (block : HexBlock) :
  (validateMeshTopology bc block = Ok <->
   forall parentHash parentBlock,
     In parentHash (elems (ParentHashes (header block))) ->
     parentHash <> zero_hash ->
     GetHexBlock bc parentHash = Some parentBlock ->
     In (Block_HexPosition parentBlock) (elems (Neighbors (HexPosition (header block)))))
  /\ (forall parentHash parentBlock,
        cube_sum (HexPosition (header block)) = 0 ->
        In parentHash (elems (ParentHashes (header block))) ->
        parentHash <> zero_hash ->
        GetHexBlock bc parentHash = Some parentBlock ->
        Distance (HexPosition (header block)) (Block_HexPosition parentBlock) = 2 ->
        rejected (validateMeshTopology bc block))
  /\ (consensus.validateMeshTopology rlpHash chain (header block) = Ok <->
      forall parentHash,
        In parentHash (elems (ParentHashes (header block))) -> parentHash <> zero_hash ->
        parentHash <> rlpHash (header block)
        /\ forall parentHeader,
             consensus.GetHeaderByHash chain parentHash = Some parentHeader ->
             types.ParentHash parentHeader <> rlpHash (header block)
             /\ zero_hash <> rlpHash (header block)).
Proof.
  split; [apply block_validateMeshTopology_ok_iff | split].
  - intros parentHash parentBlock Hc Hin Hne Hget Hd.
    exact (block_validateMeshTopology_rejects_distance_two bc block parentBlock parentHash
             Hc Hin Hne Hget Hd).
  - apply engine_validateMeshTopology_ok_iff.
Qed.

Lemma adjacency_checked_by_block_validator_witness :
  rejected (validateMeshTopology origin_chain far_block).
Proof.
  destruct (adjacency_checked_by_block_validator (fun _ => 0xf1) origin_chain origin_reader
              far_block) as (_ & Hreject & _).
  apply (Hreject 0xb0 genesis_block).
  - reflexivity.
  - cbn. left. reflexivity.
  - unfold zero_hash. discriminate.
  - reflexivity.
  - reflexivity.
Defined.

(** The claim read on the engine's topology stage fails: [far_header] sits
    at hex distance 2 from its only parent, which resolves and has a smaller
    number, and the stage accepts it. *)
Lemma engine_topology_accepts_distance_two :
  ~ (forall (rlpHash : HexHeader -> Hash) (bc : HexBlockChain) (header : HexHeader)
            (parentHash : Hash) (parentBlock : HexBlock),
        In parentHash (elems (ParentHashes header)) ->
        parentHash <> zero_hash ->
        GetHexBlock bc parentHash = Some parentBlock ->
        consensus.GetHeaderByHash (consensus.mkChainHeaderReader (GetHeaderByHash bc))
          parentHash <> None ->
        Distance (HexPosition header) (Block_HexPosition parentBlock) = 2 ->
        rejected (consensus.validateMeshTopology rlpHash
                    (consensus.mkChainHeaderReader (GetHeaderByHash bc)) header)).
Proof.
  intros H.
  specialize (H (fun _ => 0xf1) origin_chain far_header 0xb0 genesis_block).
  assert (E : consensus.validateMeshTopology (fun _ => 0xf1)
                (consensus.mkChainHeaderReader (GetHeaderByHash origin_chain)) far_header
              = Ok) by reflexivity.
  destruct H as [e He].
  - cbn. left. reflexivity.
  - unfold zero_hash. discriminate.
  - reflexivity.
  - discriminate.
  - reflexivity.
  - rewrite E in He. discriminate He.
Qed.

End TopologyFacts.

(** ** State transitions *)

Module StateFacts.
Import core Vocabulary Samples LoopFacts.

Lemma collect_parent_states_inl bc (hashes : list Hash) :
  forall acc sts,
    collect_parent_states bc hashes acc = inl sts ->
    (forall p, In p hashes -> p <> zero_hash -> exists st, GetState bc p = inl st)
    /\ List.length sts
       = (List.length acc
          + List.length (filter (fun x => negb (is_empty_hash x)) hashes))%nat.
Proof.
  induction hashes as [ | x hashes IH]; intros acc sts H; simpl in *.
  - injection H as <-. split; [intros p [] | lia].
  - destruct (is_empty_hash x) eqn:E; simpl.
    + destruct (IH _ _ H) as [H1 H2]. split; [ | exact H2].
      intros p [<- | Hin] Hne; [ | now apply H1].
      apply is_empty_hash_true in E. contradiction.
    + destruct (GetState bc x) as [st | e] eqn:Hst; [ | discriminate].
      destruct (IH _ _ H) as [H1 H2]. split.
      * intros p [<- | Hin] Hne; [now exists st | now apply H1].
      * rewrite H2, length_app. simpl. lia.
Qed.

Lemma collect_parent_states_total bc (hashes : list Hash) :
  (forall p, In p hashes -> p <> zero_hash -> exists st, GetState bc p = inl st) ->
  forall acc, exists sts, collect_parent_states bc hashes acc = inl sts.
Proof.
  induction hashes as [ | x hashes IH]; intros H acc; simpl.
  - now exists acc.
  - destruct (is_empty_hash x) eqn:E.
    + apply IH. intros p Hin. apply H. now right.
    + apply is_empty_hash_false in E.
      destruct (H x (or_introl eq_refl) E) as [st ->].
      apply IH. intros p Hin. apply H. now right.
Qed.

(** C2, as the code has it.  State validation accepts a block exactly when
    the state of every non-empty parent can be read and, if the block has
    no parent at all, the block is genesis.  The parent states are neither
    merged nor hashed, and the declared state root is not read: replacing
    it by any other root leaves the verdict unchanged. *)
Theorem ValidateStateTransitions_accepts_iff (bc : HexBlockChain) (block : HexBlock) :
  (ValidateStateTransitions bc block = Ok <->
     (forall p, In p (nonempty_parents (ParentHashes (header block))) ->
                exists st, GetState bc p = inl st)
     /\ (nonempty_parents (ParentHashes (header block)) = [] ->
         types.Uint64 (Number (header block)) = 0))
  /\ (forall root, ValidateStateTransitions bc (with_Root block root)
                   = ValidateStateTransitions bc block).
Proof.
  split; [ | reflexivity].
  unfold ValidateStateTransitions, Block_Header.
  destruct (collect_parent_states bc (elems (ParentHashes (header block))) [])
    as [sts | e] eqn:Hc.
  - destruct (collect_parent_states_inl _ _ _ _ Hc) as [H1 H2].
    fold (nonempty_parents (ParentHashes (header block))) in H2. simpl in H2.
    assert (Hall : forall p, In p (nonempty_parents (ParentHashes (header block))) ->
                             exists st, GetState bc p = inl st).
    { intros p Hp. apply nonempty_parents_In in Hp. destruct Hp. now apply H1. }
    destruct sts as [ | first rest].
    + destruct (types.Uint64 (Number (header block)) =? 0) eqn:E; simpl.
      * split; [intros _; split; [exact Hall | lia] | reflexivity].
      * split; [discriminate | ].
        intros [_ H]. destruct (nonempty_parents _); [ | discriminate H2].
        specialize (H eq_refl). lia.
    + split; [ | reflexivity]. intros _. split; [exact Hall | ].
      intros Hnil. rewrite Hnil in H2. discriminate H2.
  - split; [discriminate | ]. intros [Hall _]. exfalso.
    destruct (collect_parent_states_total bc (elems (ParentHashes (header block)))) with (acc := @nil StateDB)
      as [sts Hsts].
    + intros p Hin Hne. apply Hall. apply nonempty_parents_In. auto.
    + congruence.
Qed.

(** C2, as stated, fails: no merge rule and no state-root function make
    acceptance imply that the root of the merged parent states is the
    declared one, since a block over two conflicting parents is accepted
    under the declared root 1 and under the declared root 2 alike. *)
Lemma ValidateStateTransitions_never_compares_root :
  ~ (exists (merge : list (Hash * StateDB) -> StateDB) (stateRoot : StateDB -> Hash),
        forall (bc : HexBlockChain) (block : HexBlock),
          (2 <= List.length (nonempty_parents (ParentHashes (header block))))%nat ->
          stateRoot (merge (parent_states bc block)) <> Root (header block) ->
          rejected (ValidateStateTransitions bc block)).
Proof.
  intros (merge & stateRoot & H).
  pose proof (H forked_chain (merge_block 1)) as H1.
  pose proof (H forked_chain (merge_block 2)) as H2.
  assert (Hps : parent_states forked_chain (merge_block 1)
                = parent_states forked_chain (merge_block 2)) by reflexivity.
  rewrite Hps in H1.
  set (r := stateRoot (merge (parent_states forked_chain (merge_block 2)))) in *.
  assert (Hok1 : ValidateStateTransitions forked_chain (merge_block 1) = Ok) by reflexivity.
  assert (Hok2 : ValidateStateTransitions forked_chain (merge_block 2) = Ok) by reflexivity.
  destruct (Z.eq_dec r 1) as [E | E].
  - destruct H2 as [e He]; [cbn; lia | cbn; lia | congruence].
  - destruct H1 as [e He]; [cbn; lia | exact E | congruence].
Qed.

End StateFacts.

(** ** The memoized proof hash *)

Module ProofHashFacts.
Import core Vocabulary Samples LoopFacts.

Section WithSha256.
Variable sha256 : bytes -> Hash.

Lemma proof_preimage_cache_free (hp : HexaProof) (h : Hash) :
  proof_preimage (set_ProofHash hp h) = proof_preimage hp.
Proof. reflexivity. Qed.

Lemma HexaProof_Hash_cached (hp : HexaProof) :
  ProofHash hp <> zero_hash -> HexaProof_Hash sha256 hp = (ProofHash hp, hp).
Proof.
  intros H. unfold HexaProof_Hash.
  apply is_empty_hash_false in H. rewrite H. reflexivity.
Qed.

Lemma HexaProof_Hash_fresh (hp : HexaProof) :
  ProofHash hp = zero_hash ->
  HexaProof_Hash sha256 hp
  = (sha256 (proof_preimage hp), set_ProofHash hp (sha256 (proof_preimage hp))).
Proof.
  intros H. unfold HexaProof_Hash.
  apply is_empty_hash_true in H. rewrite H. reflexivity.
Qed.

Lemma byte_of_Z_value (z : Z) : Z.of_N (Byte.to_N (byte_of_Z z)) = z mod 256.
Proof.
  unfold byte_of_Z.
  assert (Hr : 0 <= z mod 256 < 256) by (apply Z.mod_pos_bound; lia).
  destruct (Byte.of_N (Z.to_N (z mod 256))) as [b | ] eqn:E.
  - apply Byte.to_of_N in E. rewrite E. apply Z2N.id. lia.
  - apply Byte.of_N_None_iff in E. lia.
Qed.

(** The eight bytes written for a timestamp determine it. *)
Lemma PutUint64_inj (a b : Z) :
  uint64_range a -> uint64_range b -> PutUint64 a = PutUint64 b -> a = b.
Proof.
  unfold uint64_range, modulus, PutUint64. intros Ha Hb H. cbn [map] in H.
  injection H as H7 H6 H5 H4 H3 H2 H1 H0.
  apply (f_equal (fun x => Z.of_N (Byte.to_N x))) in H0, H1, H2, H3, H4, H5, H6, H7.
  rewrite !byte_of_Z_value, !Z.shiftr_div_pow2 in * by lia.
  change (2 ^ (8 * 0)) with 1 in *. change (2 ^ (8 * 1)) with 256 in *.
  change (2 ^ (8 * 2)) with 65536 in *. change (2 ^ (8 * 3)) with 16777216 in *.
  change (2 ^ (8 * 4)) with 4294967296 in *.
  change (2 ^ (8 * 5)) with 1099511627776 in *.
  change (2 ^ (8 * 6)) with 281474976710656 in *.
  change (2 ^ (8 * 7)) with 72057594037927936 in *.
  rewrite !Z.div_1_r in *.
  pose proof (Z.div_mod a 256 ltac:(lia)) as Ea0.
  pose proof (Z.div_mod b 256 ltac:(lia)) as Eb0.
  assert (Hstep : forall x y m, 0 < m ->
                    x / (m * 256) = y / (m * 256) -> (x / m) mod 256 = (y / m) mod 256 ->
                    x / m = y / m).
  { intros x y m Hm Hq Hrm.
    rewrite <- !Z.div_div in Hq by lia.
    rewrite (Z.div_mod (x / m) 256), (Z.div_mod (y / m) 256) by lia.
    now rewrite Hq, Hrm. }
  assert (E8 : a / (72057594037927936 * 256) = b / (72057594037927936 * 256)).
  { rewrite !Z.div_small by lia. reflexivity. }
  pose proof (Hstep a b 72057594037927936 ltac:(lia) E8 H7) as E7.
  pose proof (Hstep a b 281474976710656 ltac:(lia) E7 H6) as E6.
  pose proof (Hstep a b 1099511627776 ltac:(lia) E6 H5) as E5.
  pose proof (Hstep a b 4294967296 ltac:(lia) E5 H4) as E4.
  pose proof (Hstep a b 16777216 ltac:(lia) E4 H3) as E3.
  pose proof (Hstep a b 65536 ltac:(lia) E3 H2) as E2.
  pose proof (Hstep a b 256 ltac:(lia) E2 H1) as E1.
  rewrite Ea0, Eb0, E1, H0. reflexivity.
Qed.

Lemma app_same_length_inj {A} (a b x y : list A) :
  List.length a = List.length b -> a ++ x = b ++ y -> a = b /\ x = y.
Proof.
  revert b. induction a as [ | c a IH]; intros [ | d b] Hl H; try discriminate.
  - now split.
  - cbn in H. injection H as -> H. injection Hl as Hl.
    destruct (IH b Hl H) as [-> ->]. now split.
Qed.

(** Addresses are written without separators; their fixed size makes the
    bytes written determine the validator set. *)
Lemma concat_sized_inj (vs vs' : list Address) :
  addresses_sized vs -> addresses_sized vs' ->
  List.concat vs = List.concat vs' -> vs = vs'.
Proof.
  unfold addresses_sized. revert vs'.
  induction vs as [ | a vs IH]; intros [ | b vs'] Hs Hs' H.
  - reflexivity.
  - inversion Hs' as [ | ? ? Hb _]. subst. cbn in H.
    destruct b; [discriminate Hb | discriminate H].
  - inversion Hs as [ | ? ? Ha _]. subst. cbn in H.
    destruct a; [discriminate Ha | discriminate H].
  - inversion Hs as [ | ? ? Ha Hs1]. inversion Hs' as [ | ? ? Hb Hs1']. subst.
    cbn [List.concat] in H.
    destruct (app_same_length_inj a b _ _ (eq_trans Ha (eq_sym Hb)) H) as [-> Hrest].
    f_equal. now apply IH.
Qed.

(** Slots are written without separators too: with the other slots equal,
    the bytes written determine the remaining one. *)
Lemma concat_one_slot (l l' : list bytes) :
  forall k : nat,
    List.length l = List.length l' ->
    (forall j : nat, j <> k -> nth j l [] = nth j l' []) ->
    List.concat l = List.concat l' -> l = l'.
Proof.
  revert l'. induction l as [ | x l IH]; intros [ | y l'] k Hl Hn H; try discriminate.
  - reflexivity.
  - injection Hl as Hl. cbn [List.concat] in H. destruct k as [ | k].
    + assert (l = l') as ->.
      { apply (nth_ext _ _ [] [] Hl). intros j _.
        exact (Hn (Datatypes.S j) ltac:(discriminate)). }
      apply app_inv_tail in H. now subst.
    + pose proof (Hn 0%nat ltac:(discriminate)) as H0. cbn in H0. subst y.
      apply app_inv_head in H. f_equal.
      apply (IH l' k Hl); [ | exact H].
      intros j Hj. apply (Hn (Datatypes.S j)). congruence.
Qed.

Lemma elems_inj {A} (a b : Array6 A) : elems a = elems b -> a = b.
Proof. destruct a, b. cbn. intros H. injection H as -> -> -> -> -> ->. reflexivity. Qed.

(** Each field of a proof enters the bytes that are hashed. *)
Lemma proof_preimage_reads_every_field (hp : HexaProof) :
  (forall (k : nat) (sigs : Array6 bytes),
      same_but_slot k (NeighborSignatures hp) sigs ->
      proof_preimage (with_NeighborSignatures hp sigs) = proof_preimage hp ->
      sigs = NeighborSignatures hp)
  /\ (forall stateProof : bytes,
        proof_preimage (with_StateProof hp stateProof) = proof_preimage hp ->
        stateProof = StateProof hp)
  /\ (forall meshProof : bytes,
        proof_preimage (with_MeshProof hp meshProof) = proof_preimage hp ->
        meshProof = MeshProof hp)
  /\ (forall timestamp : Z,
        uint64_range timestamp -> uint64_range (Timestamp hp) ->
        proof_preimage (with_Timestamp hp timestamp) = proof_preimage hp ->
        timestamp = Timestamp hp)
  /\ (forall validatorSet : list Address,
        addresses_sized validatorSet -> addresses_sized (ValidatorSet hp) ->
        proof_preimage (with_ValidatorSet hp validatorSet) = proof_preimage hp ->
        validatorSet = ValidatorSet hp).
Proof.
  unfold proof_preimage, with_NeighborSignatures, with_StateProof, with_MeshProof,
    with_Timestamp, with_ValidatorSet.
  cbn [NeighborSignatures StateProof MeshProof Timestamp ValidatorSet].
  split; [ | split; [ | split; [ | split] ] ].
  - intros k sigs Hsame H. apply app_inv_tail in H.
    apply elems_inj. apply (concat_one_slot _ _ k); [ | | exact H].
    + destruct sigs, (NeighborSignatures hp). reflexivity.
    + intros j Hj. symmetry. now apply Hsame.
  - intros sp H. apply app_inv_head in H. now apply app_inv_tail in H.
  - intros mp H. do 2 apply app_inv_head in H. now apply app_inv_tail in H.
  - intros ts Hts Hts' H. do 3 apply app_inv_head in H. apply app_inv_tail in H.
    now apply PutUint64_inj.
  - intros vs Hvs Hvs' H. do 4 apply app_inv_head in H. now apply concat_sized_inj.
Qed.

(** C10.  (1) Two calls of [Hash] in a row return equal values.  (2) On a
    proof whose cache is empty, [Hash] returns the digest of the bytes of
    all the proof's fields: the six signature slots, the state proof, the
    mesh proof, the timestamp and the validator set.  (3) Once a (non-empty)
    hash has been returned, it is what every later call returns, however
    the other fields are changed in between.  (4) After the cache has
    been reset to the empty hash, [Hash] returns the digest of the fields
    as they then are.  (5) Every field enters the bytes that are hashed:
    replacing one signature slot, the state proof, the mesh proof, the
    timestamp (a [uint64]) or the validator set (of 20-byte addresses) by
    another value changes them. *)
Theorem HexaProof_Hash_memoized (hp : HexaProof) :
  let h1 := fst (HexaProof_Hash sha256 hp) in
  let hp1 := snd (HexaProof_Hash sha256 hp) in
  fst (HexaProof_Hash sha256 hp1) = h1
  /\ (ProofHash hp = zero_hash -> h1 = sha256 (proof_preimage hp))
  /\ (h1 <> zero_hash ->
      forall sigs stateProof meshProof timestamp validatorSet,
        let mutated := mkHexaProof sigs stateProof meshProof timestamp validatorSet
                                   (ProofHash hp1) in
        fst (HexaProof_Hash sha256 mutated) = h1
        /\ fst (HexaProof_Hash sha256 (snd (HexaProof_Hash sha256 mutated))) = h1)
  /\ (forall mutated : HexaProof,
        fst (HexaProof_Hash sha256 (set_ProofHash mutated zero_hash))
        = sha256 (proof_preimage mutated))
  /\ ((forall (k : nat) (sigs : Array6 bytes),
          same_but_slot k (NeighborSignatures hp) sigs ->
          sigs <> NeighborSignatures hp ->
          proof_preimage (with_NeighborSignatures hp sigs) <> proof_preimage hp)
      /\ (forall stateProof : bytes,
            stateProof <> StateProof hp ->
            proof_preimage (with_StateProof hp stateProof) <> proof_preimage hp)
      /\ (forall meshProof : bytes,
            meshProof <> MeshProof hp ->
            proof_preimage (with_MeshProof hp meshProof) <> proof_preimage hp)
      /\ (forall timestamp : Z,
            uint64_range timestamp -> uint64_range (Timestamp hp) ->
            timestamp <> Timestamp hp ->
            proof_preimage (with_Timestamp hp timestamp) <> proof_preimage hp)
      /\ (forall validatorSet : list Address,
            addresses_sized validatorSet -> addresses_sized (ValidatorSet hp) ->
            validatorSet <> ValidatorSet hp ->
            proof_preimage (with_ValidatorSet hp validatorSet) <> proof_preimage hp)).
Proof.
  intros h1 hp1.
  assert (Hfields :
            (forall (k : nat) (sigs : Array6 bytes),
                same_but_slot k (NeighborSignatures hp) sigs ->
                sigs <> NeighborSignatures hp ->
                proof_preimage (with_NeighborSignatures hp sigs) <> proof_preimage hp)
            /\ (forall stateProof : bytes,
                  stateProof <> StateProof hp ->
                  proof_preimage (with_StateProof hp stateProof) <> proof_preimage hp)
            /\ (forall meshProof : bytes,
                  meshProof <> MeshProof hp ->
                  proof_preimage (with_MeshProof hp meshProof) <> proof_preimage hp)
            /\ (forall timestamp : Z,
                  uint64_range timestamp -> uint64_range (Timestamp hp) ->
                  timestamp <> Timestamp hp ->
                  proof_preimage (with_Timestamp hp timestamp) <> proof_preimage hp)
            /\ (forall validatorSet : list Address,
                  addresses_sized validatorSet -> addresses_sized (ValidatorSet hp) ->
                  validatorSet <> ValidatorSet hp ->
                  proof_preimage (with_ValidatorSet hp validatorSet)
                  <> proof_preimage hp)).
  { destruct (proof_preimage_reads_every_field hp) as (F1 & F2 & F3 & F4 & F5).
    split; [ | split; [ | split; [ | split] ] ].
    - intros k sigs Hsame Hne H. exact (Hne (F1 k sigs Hsame H)).
    - intros sp Hne H. exact (Hne (F2 sp H)).
    - intros mp Hne H. exact (Hne (F3 mp H)).
    - intros ts Hts Hts' Hne H. exact (Hne (F4 ts Hts Hts' H)).
    - intros vs Hvs Hvs' Hne H. exact (Hne (F5 vs Hvs Hvs' H)). }
  subst h1 hp1.
  destruct (Z.eq_dec (ProofHash hp) zero_hash) as [Hz | Hnz].
  - rewrite (HexaProof_Hash_fresh hp Hz). cbn [fst snd].
    set (d := sha256 (proof_preimage hp)).
    split; [ | split; [ | split; [ | split; [ | exact Hfields] ] ] ].
    + destruct (Z.eq_dec d zero_hash) as [Hd | Hd].
      * rewrite HexaProof_Hash_fresh by (cbn; exact Hd).
        cbn [fst]. apply (f_equal sha256), proof_preimage_cache_free.
      * rewrite HexaProof_Hash_cached by (cbn; exact Hd). reflexivity.
    + reflexivity.
    + intros Hd sigs sp mp ts vs. cbn [ProofHash set_ProofHash].
      rewrite !HexaProof_Hash_cached by (cbn; exact Hd). cbn. auto.
    + intros mutated. rewrite HexaProof_Hash_fresh by reflexivity.
      cbn [fst]. apply (f_equal sha256), proof_preimage_cache_free.
  - rewrite (HexaProof_Hash_cached hp Hnz). cbn [fst snd].
    split; [ | split; [ | split; [ | split; [ | exact Hfields] ] ] ].
    + rewrite HexaProof_Hash_cached by exact Hnz. reflexivity.
    + intros Hz. contradiction.
    + intros _ sigs sp mp ts vs.
      rewrite !HexaProof_Hash_cached by (cbn; exact Hnz). cbn. auto.
    + intros mutated. rewrite HexaProof_Hash_fresh by reflexivity.
      cbn [fst]. apply (f_equal sha256), proof_preimage_cache_free.
Qed.

End WithSha256.

Lemma HexaProof_Hash_memoized_witness :
  fst (HexaProof_Hash byte_sum signed_proof) = byte_sum (proof_preimage signed_proof)
  /\ fst (HexaProof_Hash byte_sum
            (mkHexaProof (fill6 []) [] [] 5 []
               (ProofHash (snd (HexaProof_Hash byte_sum signed_proof)))))
     = fst (HexaProof_Hash byte_sum signed_proof).
Proof.
  destruct (HexaProof_Hash_memoized byte_sum signed_proof) as (_ & Hfresh & Hkeep & _).
  split.
  - apply Hfresh. reflexivity.
  - apply (Hkeep ltac:(vm_compute; discriminate) (fill6 []) [] [] 5 []).
Defined.

End ProofHashFacts.

(** ** The pipeline as a whole *)

Module PipelineFacts.
Import core consensus Vocabulary Samples LoopFacts StageFacts.

Lemma and_then_rejected_l (r k : res) : rejected r -> rejected (r ;; k).
Proof. intros [e ->]. now exists e. Qed.

Lemma and_then_rejected_r (r k : res) : rejected k -> rejected (r ;; k).
Proof. intros Hk. destruct r as [ | e]; [exact Hk | now exists e]. Qed.

Lemma genesis_with_neighbors_rejected (header : HexHeader) :
  types.Uint64 (Number header) = 0 -> NeighborCount header <> 0 ->
  rejected (validateBasicStructure header).
Proof.
  intros Hn Hk. unfold validateBasicStructure.
  destruct (NeighborCount header >? 6); [eexists; reflexivity | ].
  destruct (negb _); [eexists; reflexivity | ].
  rewrite Hn. apply Z.eqb_neq in Hk. rewrite Hk. simpl.
  eexists; reflexivity.
Qed.

(** C6, as the code has it.  A genesis header with a non-zero neighbor
    count is rejected by the pipeline (at the structural stage).  A genesis
    header with neighbor count 0 is accepted when its six parent slots are
    empty, its time is positive and at most 15 seconds ahead of the clock,
    and its proof carries a timestamp that is set and not before the header
    time; its position plays no part. *)
Theorem genesis_verdict (rlpHash : HexHeader -> Hash) (unixNow : Z) (h : HexaProof)
        (chain : ChainHeaderReader) (header : HexHeader) :
  types.Uint64 (Number header) = 0 ->
  (NeighborCount header <> 0 ->
   rejected (validateBasicStructure header)
   /\ rejected (verifyHexHeader rlpHash unixNow h chain header))
  /\ (NeighborCount header = 0 ->
      ParentHashes header = fill6 zero_hash ->
      0 <= MaxNeighbors (config h) ->
      0 <= unixNow -> unixNow + 15 < modulus ->
      0 < Time header <= unixNow + 15 ->
      Timestamp (HexProof header) <> 0 ->
      Time header <= Timestamp (HexProof header) ->
      verifyHexHeader rlpHash unixNow h chain header = Ok).
Proof.
  intros Hn. split.
  - intros Hk. pose proof (genesis_with_neighbors_rejected header Hn Hk) as Hr.
    split; [exact Hr | ]. unfold verifyHexHeader. now apply and_then_rejected_l.
  - intros Hk Hp Hmax Hnow0 Hnow1 Ht Hts Hpt.
    unfold verifyHexHeader. repeat rewrite and_then_ok.
    assert (Hlim : addU64 (wrapU64 unixNow) maxFuture = unixNow + 15).
    { unfold addU64, wrapU64, maxFuture.
      rewrite (Z.mod_small unixNow) by (unfold modulus in *; lia).
      apply Z.mod_small. unfold modulus in *. lia. }
    repeat split.
    + unfold validateBasicStructure. rewrite Hk, Hp, Hn. reflexivity.
    + unfold validateParents. rewrite Hp. reflexivity.
    + unfold validateMeshTopology. rewrite Hp. reflexivity.
    + unfold validateNeighborCount. rewrite Hk, Hn.
      assert ((0 >? MaxNeighbors (config h)) = false) as -> by lia. reflexivity.
    + unfold validateTimestamp, maxParentTime. rewrite Hp, Hlim. cbn [fold_left elems fill6 slot0 slot1 slot2 slot3 slot4 slot5].
      change (is_empty_hash zero_hash) with true. cbv iota.
      assert ((Time header <=? 0) = false) as -> by lia.
      assert ((Time header >? unixNow + 15) = false) as -> by lia. reflexivity.
    + unfold validateHexaProof. rewrite Hp, Hk.
      assert ((Timestamp (HexProof header) =? 0) = false) as -> by lia.
      assert ((Timestamp (HexProof header) <? Time header) = false) as -> by lia.
      cbn [for_each elems fill6 slot0 slot1 slot2 slot3 slot4 slot5].
      change (is_empty_hash zero_hash) with true. cbv iota. cbn [and_then].
      rewrite count_signatures_filter.
      assert ((Z.of_nat (List.length (present_signatures
                 (NeighborSignatures (HexProof header)))) <? 0) = false) as ->
        by apply Z.ltb_ge, Nat2Z.is_nonneg.
      reflexivity.
Qed.

Lemma genesis_verdict_witness :
  verifyHexHeader (fun _ => 0xf1) 1700000003 sample_engine
    empty_reader stamped_genesis = Ok.
Proof.
  apply (genesis_verdict (fun _ => 0xf1) 1700000003 sample_engine
           empty_reader stamped_genesis eq_refl);
    try reflexivity; try (unfold modulus; cbn; lia); try discriminate.
Defined.

(** C6, as stated, fails on the code's own genesis: the header built by
    [HexGenesisBlock], validated at the second of its creation under the
    default configuration, has number 0, neighbor count 0 and the origin as
    position, and the proof stage rejects it for its missing proof
    timestamp. *)
Lemma genesis_block_fails_proof_stage :
  ~ (forall (rlpHash : HexHeader -> Hash) (unixNow : Z) (h : HexaProof)
            (chain : ChainHeaderReader) (header : HexHeader),
        types.Uint64 (Number header) = 0 ->
        NeighborCount header = 0 ->
        HexPosition header = NewHexCoordinate 0 0 ->
        verifyHexHeader rlpHash unixNow h chain header = Ok).
Proof.
  intros H.
  specialize (H (fun _ => 0xf1) 1700000000 sample_engine
                empty_reader
                (header (HexGenesisBlock 1700000000)) eq_refl eq_refl eq_refl).
  assert (E : verifyHexHeader (fun _ => 0xf1) 1700000000 sample_engine
                empty_reader
                (header (HexGenesisBlock 1700000000))
              = Err ErrMissingProofTimestamp) by reflexivity.
  rewrite H in E. discriminate E.
Qed.

End PipelineFacts.

(** ** [VerifyHeader] on standard headers *)

Module VerifyHeaderFacts.
Import core consensus Vocabulary Samples LoopFacts StageFacts PipelineFacts.

Lemma converted_neighbor_count_insufficient (h : HexaProof) (header : types.Header) :
  config h = DefaultHexaProofConfig ->
  0 < types.Uint64 (types.Number header) ->
  validateNeighborCount h (fst (convertToHexHeader header))
  = Err (ErrInsufficientNeighbors 1 3).
Proof.
  intros Hc Hn. unfold validateNeighborCount. rewrite Hc.
  cbn [fst convertToHexHeader NeighborCount Number MaxNeighbors MinNeighbors
         DefaultHexaProofConfig].
  assert ((types.Uint64 (types.Number header) >? 0) = true) as -> by lia.
  reflexivity.
Qed.

(** C7, as the code has it.  The conversion of a standard header never
    fails and yields neighbor count 1, the header's parent hash in slot 0
    with the other five slots empty, and the origin as position.  Under the
    default configuration every header with number > 0 is therefore
    rejected by [VerifyHeader]: the neighbor-count stage fails on it with
    "insufficient neighbors: 1 < min 3", and that is the verdict whenever
    the three earlier stages pass.  The verdict on a hexagonal header
    handed over through [ToEthHeader] is the same for any other parents
    with the same first non-empty one, neighbor count, position, mesh root
    and proof. *)
Theorem VerifyHeader_default_rejects (rlpHash : HexHeader -> Hash) (unixNow : Z)
        (h : HexaProof) (chain : ChainHeaderReader) (header : types.Header) :
  let hexHeader := fst (convertToHexHeader header) in
  (snd (convertToHexHeader header) = None
   /\ NeighborCount hexHeader = 1
   /\ ParentHashes hexHeader = mkArray6 (types.ParentHash header) 0 0 0 0 0
   /\ HexPosition hexHeader = NewHexCoordinate 0 0)
  /\ (config h = DefaultHexaProofConfig ->
      0 < types.Uint64 (types.Number header) ->
      rejected (VerifyHeader rlpHash unixNow h chain header)
      /\ validateNeighborCount h hexHeader = Err (ErrInsufficientNeighbors 1 3)
      /\ (validateBasicStructure hexHeader = Ok ->
          validateParents chain hexHeader = Ok ->
          validateMeshTopology rlpHash chain hexHeader = Ok ->
          VerifyHeader rlpHash unixNow h chain header
          = Err (ErrInsufficientNeighbors 1 3)))
  /\ (forall (hh : HexHeader) parents count pos meshRoot proof,
        first_parent (with_hex_fields hh parents count pos meshRoot proof)
        = first_parent hh ->
        VerifyHeader rlpHash unixNow h chain
          (ToEthHeader (with_hex_fields hh parents count pos meshRoot proof))
        = VerifyHeader rlpHash unixNow h chain (ToEthHeader hh)).
Proof.
  intros hexHeader. split; [repeat split | split].
  - intros Hc Hn.
    pose proof (converted_neighbor_count_insufficient h header Hc Hn) as H4.
    fold hexHeader in H4.
    assert (HV : VerifyHeader rlpHash unixNow h chain header
                 = verifyHexHeader rlpHash unixNow h chain hexHeader) by reflexivity.
    split; [ | split; [exact H4 | ] ].
    + rewrite HV. unfold verifyHexHeader.
      do 3 apply and_then_rejected_r. apply and_then_rejected_l.
      rewrite H4. eexists; reflexivity.
    + intros H1 H2 H3. rewrite HV. unfold verifyHexHeader.
      rewrite H1, H2, H3, H4. reflexivity.
  - intros hh parents count pos meshRoot proof Hfp.
    f_equal. unfold ToEthHeader. rewrite Hfp. reflexivity.
Qed.

Lemma VerifyHeader_default_rejects_witness :
  rejected (VerifyHeader (fun _ => 0xf1) 1700000003 sample_engine
              empty_reader orphan_header)
  /\ validateNeighborCount sample_engine (fst (convertToHexHeader orphan_header))
     = Err (ErrInsufficientNeighbors 1 3).
Proof.
  destruct (VerifyHeader_default_rejects (fun _ => 0xf1) 1700000003 sample_engine
              empty_reader orphan_header)
    as (_ & Hrej & _).
  destruct (Hrej eq_refl ltac:(vm_compute; reflexivity)) as (H1 & H2 & _).
  split; [exact H1 | exact H2].
Defined.

(** C7, as stated, fails in naming the stage: under the default
    configuration a header at height 1 whose parent is unknown is rejected
    by the parent stage with "unknown parent", which is not the
    neighbor-count stage's error. *)
Lemma VerifyHeader_may_reject_before_neighbor_stage :
  ~ (forall (rlpHash : HexHeader -> Hash) (unixNow : Z) (h : HexaProof)
            (chain : ChainHeaderReader) (header : types.Header),
        config h = DefaultHexaProofConfig ->
        0 < types.Uint64 (types.Number header) ->
        VerifyHeader rlpHash unixNow h chain header
        = validateNeighborCount h (fst (convertToHexHeader header))).
Proof.
  intros H.
  specialize (H (fun _ => 0xf1) 1700000003 sample_engine
                empty_reader orphan_header eq_refl
                ltac:(vm_compute; reflexivity)).
  assert (E : VerifyHeader (fun _ => 0xf1) 1700000003 sample_engine
                empty_reader orphan_header
              = Err (ErrUnknownParent 0x1234 0)) by reflexivity.
  rewrite E in H. discriminate H.
Qed.

End VerifyHeaderFacts.

(* ================================================================== *)
(** * Further properties of the code *)

(** ** The hexagonal grid *)

Module GridFacts.
Import core Vocabulary Samples LoopFacts CoordinateFacts.

Lemma wrap64_congr x y k : x = y + k * modulus -> wrap64 x = wrap64 y.
Proof. intros ->. apply wrap64_shift. Qed.

Lemma sub64_swap a b : sub64 b a = wrap64 (- sub64 a b).
Proof.
  unfold sub64. destruct (wrap64_spec (a - b)) as [k Hk]. rewrite Hk.
  apply wrap64_congr with (k := k). ring.
Qed.

Lemma abs_wrap_neg x : int64_range x -> abs (wrap64 (- x)) = abs x.
Proof.
  unfold int64_range. intros Hx.
  destruct (Z.eq_dec x (- half_modulus)) as [-> | Hne].
  - reflexivity.
  - rewrite (wrap64_small (- x)) by lia.
    unfold abs, neg64.
    destruct (x <? 0) eqn:E1; destruct (- x <? 0) eqn:E2; try lia.
    + rewrite wrap64_small; unfold half_modulus in *; lia.
    + rewrite Z.opp_involutive. rewrite wrap64_small; unfold half_modulus in *; lia.
Qed.

Lemma abs_sub64_swap a b : abs (sub64 a b) = abs (sub64 b a).
Proof.
  rewrite (sub64_swap a b). symmetry. apply abs_wrap_neg.
  unfold int64_range, sub64. apply wrap64_range.
Qed.

Lemma Distance_sym (a b : HexCoordinate) : Distance a b = Distance b a.
Proof.
  unfold Distance.
  rewrite (abs_sub64_swap (Q a) (Q b)), (abs_sub64_swap (R a) (R b)),
    (abs_sub64_swap (S a) (S b)).
  reflexivity.
Qed.

(** X1.  [Distance] is symmetric and the distance of a coordinate to itself
    is 0, for all [int64] components, wrap-around included. *)
Theorem Distance_symmetric_reflexive :
  (forall a b : HexCoordinate, Distance a b = Distance b a)
  /\ (forall a : HexCoordinate, Distance a a = 0).
Proof.
  split.
  - exact Distance_sym.
  - intros a. unfold Distance, sub64. rewrite !Z.sub_diag. reflexivity.
Qed.

Lemma in_grid_sum p : in_grid p -> Q p + R p + S p = 0.
Proof.
  unfold in_grid, cube_sum, add64, grid_bound. intros (Hc & HQ & HR & HS).
  rewrite (wrap64_small (Q p + R p)) in Hc by (unfold half_modulus; lia).
  rewrite wrap64_small in Hc by (unfold half_modulus; lia).
  exact Hc.
Qed.

Lemma abs_small x : - half_modulus < x < half_modulus -> abs x = Z.abs x.
Proof.
  intros Hx. unfold abs, neg64.
  destruct (x <? 0) eqn:E.
  - rewrite wrap64_small by lia. lia.
  - lia.
Qed.

(** Inside the grid [Distance] is the max-norm of the difference. *)
Lemma Distance_in_grid a b : in_grid a -> in_grid b -> Distance a b = max_norm a b.
Proof.
  intros Ha Hb.
  pose proof (in_grid_sum a Ha) as Sa. pose proof (in_grid_sum b Hb) as Sb.
  destruct Ha as (_ & HQa & HRa & HSa). destruct Hb as (_ & HQb & HRb & HSb).
  unfold grid_bound in *. unfold Distance, max_norm, sub64, add64.
  rewrite (wrap64_small (Q a - Q b)) by (unfold half_modulus; lia).
  rewrite (wrap64_small (R a - R b)) by (unfold half_modulus; lia).
  rewrite (wrap64_small (S a - S b)) by (unfold half_modulus; lia).
  rewrite !abs_small by (unfold half_modulus; lia).
  rewrite (wrap64_small (Z.abs (Q a - Q b) + Z.abs (R a - R b)))
    by (unfold half_modulus; lia).
  rewrite wrap64_small by (unfold half_modulus; lia).
  set (m := Z.max _ _).
  replace (Z.abs (Q a - Q b) + Z.abs (R a - R b) + Z.abs (S a - S b)) with (m * 2)
    by (subst m; lia).
  apply Z.quot_mul. discriminate.
Qed.

Lemma coord_ext (a b : HexCoordinate) :
  Q a = Q b -> R a = R b -> S a = S b -> a = b.
Proof. destruct a, b; simpl; intros -> -> ->; reflexivity. Qed.

(** X2.  For coordinates inside the grid, [Distance] is the largest of the
    three component differences; it is never negative and it is 0 only
    between equal coordinates. *)
Theorem Distance_is_max_norm (a b : HexCoordinate) :
  in_grid a -> in_grid b ->
  Distance a b = max_norm a b
  /\ 0 <= Distance a b
  /\ (Distance a b = 0 <-> a = b).
Proof.
  intros Ha Hb. rewrite (Distance_in_grid a b Ha Hb).
  split; [reflexivity | ]. split; [unfold max_norm; lia | ].
  split.
  - intros H0. unfold max_norm in H0. apply coord_ext; lia.
  - intros ->. unfold max_norm. rewrite !Z.sub_diag. reflexivity.
Qed.

Lemma Distance_is_max_norm_witness :
  Distance (NewHexCoordinate 0 0) (NewHexCoordinate 1 2) = 3.
Proof.
  destruct (Distance_is_max_norm (NewHexCoordinate 0 0) (NewHexCoordinate 1 2))
    as (H & _).
  - unfold in_grid, grid_bound. cbn. repeat split; lia.
  - unfold in_grid, grid_bound. cbn. repeat split; lia.
  - rewrite H. reflexivity.
Defined.

(** X3.  Inside the grid [Distance] satisfies the triangle inequality. *)
Theorem Distance_triangle (a b c : HexCoordinate) :
  in_grid a -> in_grid b -> in_grid c ->
  Distance a c <= Distance a b + Distance b c.
Proof.
  intros Ha Hb Hc.
  rewrite (Distance_in_grid a c Ha Hc), (Distance_in_grid a b Ha Hb),
    (Distance_in_grid b c Hb Hc).
  clear Ha Hb Hc. unfold max_norm.
  assert (Hstep : forall x y z m n, Z.abs (x - y) <= m -> Z.abs (y - z) <= n ->
                                    Z.abs (x - z) <= m + n) by (intros; lia).
  repeat apply Z.max_lub.
  - apply (Hstep _ (Q b)); [apply Z.le_max_l | apply Z.le_max_l].
  - apply (Hstep _ (R b)).
    + etransitivity; [apply Z.le_max_l | apply Z.le_max_r].
    + etransitivity; [apply Z.le_max_l | apply Z.le_max_r].
  - apply (Hstep _ (S b)).
    + etransitivity; [apply Z.le_max_r | apply Z.le_max_r].
    + etransitivity; [apply Z.le_max_r | apply Z.le_max_r].
Qed.

Lemma Distance_triangle_witness :
  Distance (NewHexCoordinate 0 0) (NewHexCoordinate 4 (-1))
  <= Distance (NewHexCoordinate 0 0) (NewHexCoordinate 1 2)
     + Distance (NewHexCoordinate 1 2) (NewHexCoordinate 4 (-1)).
Proof.
  apply (Distance_triangle (NewHexCoordinate 0 0) (NewHexCoordinate 1 2)
           (NewHexCoordinate 4 (-1)));
    unfold in_grid, grid_bound; cbn; repeat split; lia.
Defined.

Lemma cube_sum_zero_iff_New (p : HexCoordinate) :
  int64_range (S p) -> (cube_sum p = 0 <-> p = NewHexCoordinate (Q p) (R p)).
Proof.
  intros HS. split.
  - intros Hc. apply coord_ext; [reflexivity | reflexivity | ].
    cbn [S Q R NewHexCoordinate]. symmetry.
    unfold cube_sum, add64 in Hc. unfold sub64, neg64.
    destruct (wrap64_spec (Q p + R p)) as [k0 H0]. rewrite H0 in Hc.
    destruct (wrap64_spec (Q p + R p + k0 * modulus + S p)) as [k1 H1]. rewrite H1 in Hc.
    destruct (wrap64_spec (- Q p)) as [k2 H2]. rewrite H2.
    apply wrap64_unique with (k := k2 + k0 + k1); [ | exact HS].
    unfold modulus in *. lia.
  - intros ->. apply cube_sum_New.
Qed.

Lemma in_grid_int64 p : in_grid p ->
  int64_range (Q p) /\ int64_range (R p) /\ int64_range (S p).
Proof.
  unfold in_grid, grid_bound, int64_range, half_modulus. intros (_ & HQ & HR & HS).
  repeat split; lia.
Qed.

Lemma add64_small x d :
  - half_modulus <= x + d < half_modulus -> add64 x d = x + d.
Proof. intros H. unfold add64. now apply wrap64_small. Qed.

Lemma Neighbors_iff_distance_one (a n : HexCoordinate) :
  in_grid a -> in_grid n ->
  (In n (elems (Neighbors a)) <-> Distance a n = 1).
Proof.
  intros Ha Hn. split.
  - apply Neighbors_distance_one. apply Ha.
  - intros Hd. rewrite (Distance_in_grid a n Ha Hn) in Hd.
    pose proof (in_grid_sum a Ha) as Sa. pose proof (in_grid_sum n Hn) as Sn.
    destruct (in_grid_int64 n Hn) as (_ & _ & HSn).
    pose proof (proj1 (cube_sum_zero_iff_New n HSn) (proj1 Hn)) as Hnew.
    destruct Ha as (_ & HQa & HRa & _). unfold grid_bound in *.
    unfold max_norm in Hd.
    assert (Hcases :
              (Q n = Q a + 1 /\ R n = R a + 0) \/ (Q n = Q a + 1 /\ R n = R a + -1) \/
              (Q n = Q a + 0 /\ R n = R a + -1) \/ (Q n = Q a + -1 /\ R n = R a + 0) \/
              (Q n = Q a + -1 /\ R n = R a + 1) \/ (Q n = Q a + 0 /\ R n = R a + 1))
      by lia.
    unfold Neighbors. rewrite elems_map6.
    cbn [elems directions map slot0 slot1 slot2 slot3 slot4 slot5 fst snd In].
    rewrite !add64_small by (unfold half_modulus; lia).
    rewrite Hnew.
    destruct Hcases as [[-> ->] | [[-> ->] | [[-> ->] | [[-> ->] | [[-> ->] | [-> ->]]]]]];
      tauto.
Qed.

(** X4.  Inside the grid, the six coordinates of [Neighbors a] are exactly
    the coordinates at distance 1 from [a]; hence [n] is a neighbor of [a]
    exactly when [a] is a neighbor of [n]. *)
Theorem Neighbors_are_the_distance_one (a n : HexCoordinate) :
  in_grid a -> in_grid n ->
  (In n (elems (Neighbors a)) <-> Distance a n = 1)
  /\ (In n (elems (Neighbors a)) <-> In a (elems (Neighbors n))).
Proof.
  intros Ha Hn. split.
  - now apply Neighbors_iff_distance_one.
  - rewrite (Neighbors_iff_distance_one a n Ha Hn),
      (Neighbors_iff_distance_one n a Hn Ha), (Distance_sym n a).
    reflexivity.
Qed.

Lemma Neighbors_are_the_distance_one_witness :
  In (NewHexCoordinate 4 (-3)) (elems (Neighbors (NewHexCoordinate 3 (-2)))).
Proof.
  destruct (Neighbors_are_the_distance_one (NewHexCoordinate 3 (-2))
              (NewHexCoordinate 4 (-3))) as [H _].
  - unfold in_grid, grid_bound. cbn. repeat split; lia.
  - unfold in_grid, grid_bound. cbn. repeat split; lia.
  - apply H. reflexivity.
Defined.

Lemma add64_back x d e : int64_range x -> d + e = 0 -> add64 (add64 x d) e = x.
Proof.
  intros Hx Hde. unfold add64.
  destruct (wrap64_spec (x + d)) as [k Hk]. rewrite Hk.
  apply wrap64_unique with (k := k); [lia | exact Hx].
Qed.

(** X5.  Being a neighbor is symmetric: for a coordinate [a] of the data
    model, whatever its magnitude, [a] is one of the six neighbors of each of
    its own neighbors. *)
Theorem Neighbors_symmetric (a n : HexCoordinate) :
  int64_range (Q a) -> int64_range (R a) -> int64_range (S a) -> cube_sum a = 0 ->
  In n (elems (Neighbors a)) -> In a (elems (Neighbors n)).
Proof.
  intros HQ HR HS Hc Hin.
  pose proof (proj1 (cube_sum_zero_iff_New a HS) Hc) as Ha.
  unfold Neighbors in *. rewrite elems_map6 in *.
  cbn [elems directions map slot0 slot1 slot2 slot3 slot4 slot5 fst snd In] in *.
  rewrite Ha at 1 2 3 4 5 6.
  destruct Hin as [<- | [<- | [<- | [<- | [<- | [<- | []]]]]]];
    cbn [Q R NewHexCoordinate].
  - do 3 right. left. now rewrite !add64_back by (assumption || lia).
  - do 4 right. left. now rewrite !add64_back by (assumption || lia).
  - do 5 right. left. now rewrite !add64_back by (assumption || lia).
  - left. now rewrite !add64_back by (assumption || lia).
  - right. left. now rewrite !add64_back by (assumption || lia).
  - do 2 right. left. now rewrite !add64_back by (assumption || lia).
Qed.

Lemma Neighbors_symmetric_witness :
  In (NewHexCoordinate 9223372036854775807 0)
     (elems (Neighbors (slot0 (Neighbors (NewHexCoordinate 9223372036854775807 0))))).
Proof.
  apply (Neighbors_symmetric (NewHexCoordinate 9223372036854775807 0)).
  - unfold int64_range, half_modulus. cbn. lia.
  - unfold int64_range, half_modulus. cbn. lia.
  - unfold int64_range, half_modulus. cbn. lia.
  - reflexivity.
  - cbn. left. reflexivity.
Defined.

(** X6.  For a position whose components are [int64] values, the block
    validator's coordinate check accepts exactly the positions the
    constructor builds from their [Q] and [R]. *)
Theorem validateHexCoordinate_accepts_constructed (h : HexHeader) :
  int64_range (S (HexPosition h)) ->
  (validateHexCoordinate h = Ok <->
   HexPosition h = NewHexCoordinate (Q (HexPosition h)) (R (HexPosition h))).
Proof.
  intros HS. rewrite <- (cube_sum_zero_iff_New _ HS).
  unfold validateHexCoordinate.
  destruct (cube_sum (HexPosition h) =? 0) eqn:E; simpl.
  - split; [intros _; lia | reflexivity].
  - split; [discriminate | lia].
Qed.

Lemma validateHexCoordinate_accepts_constructed_witness :
  validateHexCoordinate far_header = Ok.
Proof.
  apply (validateHexCoordinate_accepts_constructed far_header).
  - unfold int64_range, half_modulus. cbn. lia.
  - reflexivity.
Defined.

End GridFacts.

(** ** Conversions between standard and hexagonal headers *)

Module ConversionFacts.
Import core consensus Vocabulary Samples LoopFacts.

Lemma first_parent_single (x : Hash) (h : HexHeader) :
  ParentHashes h = mkArray6 x 0 0 0 0 0 -> first_parent h = x.
Proof.
  intros H. unfold first_parent. rewrite H. cbn [elems slot0 slot1 slot2 slot3 slot4 slot5 find].
  destruct (is_empty_hash x) eqn:E; simpl.
  - apply is_empty_hash_true in E. now subst.
  - reflexivity.
Qed.

(** X7.  Converting a standard header to a hexagonal one and back keeps the
    eighteen fields the two conversions copy, replaces the uncle hash by the
    empty-uncle hash and leaves the parent beacon root unset, which neither
    conversion copies: the round trip changes every header that has a parent
    beacon root or an uncle hash other than the empty one.  The other way
    round, a hexagonal header comes back with its first non-empty parent as
    only parent, neighbor count 1, the origin as position, its state root as
    mesh root and an empty proof. *)
Theorem header_conversion_round_trip :
  (forall e : types.Header,
      same_copied_fields (ToEthHeader (fst (convertToHexHeader e))) e
      /\ types.UncleHash (ToEthHeader (fst (convertToHexHeader e))) = types.EmptyUncleHash
      /\ types.ParentBeaconRoot (ToEthHeader (fst (convertToHexHeader e))) = None)
  /\ (forall e : types.Header,
        types.ParentBeaconRoot e <> None \/ types.UncleHash e <> types.EmptyUncleHash ->
        ToEthHeader (fst (convertToHexHeader e)) <> e)
  /\ (forall hh : HexHeader,
        fst (convertToHexHeader (ToEthHeader hh))
        = with_hex_fields hh (mkArray6 (first_parent hh) 0 0 0 0 0) 1
            (NewHexCoordinate 0 0) (Root hh) empty_proof).
Proof.
  assert (H1 : forall e : types.Header,
             same_copied_fields (ToEthHeader (fst (convertToHexHeader e))) e
             /\ types.UncleHash (ToEthHeader (fst (convertToHexHeader e)))
                = types.EmptyUncleHash
             /\ types.ParentBeaconRoot (ToEthHeader (fst (convertToHexHeader e))) = None).
  { intros e. unfold same_copied_fields, ToEthHeader.
    cbn [types.ParentHash types.UncleHash types.Coinbase types.Root types.TxHash
           types.ReceiptHash types.Bloom types.Difficulty types.Number types.GasLimit
           types.GasUsed types.Time types.Extra types.MixDigest types.Nonce types.BaseFee
           types.WithdrawalsHash types.BlobGasUsed types.ExcessBlobGas
           types.ParentBeaconRoot].
    rewrite (first_parent_single (types.ParentHash e)) by reflexivity.
    repeat split; reflexivity. }
  split; [exact H1 | split].
  - intros e Hd Heq. destruct (H1 e) as (_ & Hu & Hb). rewrite Heq in Hu, Hb.
    destruct Hd as [Hd | Hd]; contradiction.
  - intros hh. reflexivity.
Qed.

Lemma header_conversion_round_trip_witness :
  ToEthHeader (fst (convertToHexHeader beacon_header)) <> beacon_header.
Proof.
  apply (proj1 (proj2 header_conversion_round_trip) beacon_header).
  left. discriminate.
Defined.

End ConversionFacts.

(** ** More on the stages of the engine *)

Module EngineFacts.
Import core consensus Vocabulary Samples LoopFacts StageFacts TimestampFacts
       TopologyFacts PipelineFacts.

Lemma subU64_exact a b : 0 <= b <= a -> a < modulus -> subU64 a b = a - b.
Proof.
  intros H1 H2. unfold subU64, wrapU64. apply Z.mod_small. lia.
Qed.

Lemma Uint64_lt_modulus x : types.Uint64 x < modulus.
Proof.
  unfold types.Uint64. pose proof (Z.mod_pos_bound (Z.abs x) modulus).
  unfold modulus in *. lia.
Qed.

Lemma parents_ok_iff (chain : ChainHeaderReader) (header : HexHeader) :
  validateParents chain header = Ok <->
  forall p, In p (nonempty_parents (ParentHashes header)) ->
            exists parentHeader,
              GetHeaderByHash chain p = Some parentHeader
              /\ acceptable_parent (types.Uint64 (Number header)) parentHeader.
Proof.
  unfold validateParents.
  rewrite (for_each_indexed_ok _
             (fun p => p <> zero_hash ->
                       exists parentHeader,
                         GetHeaderByHash chain p = Some parentHeader
                         /\ acceptable_parent (types.Uint64 (Number header)) parentHeader)).
  - split.
    + intros H p Hp. apply nonempty_parents_In in Hp. destruct Hp. now apply H.
    + intros H p Hin Hne. apply H. apply nonempty_parents_In. auto.
  - intros i p. unfold acceptable_parent, maxDepthDiff.
    destruct (is_empty_hash p) eqn:E.
    + apply is_empty_hash_true in E. split; [intros _ Hne; contradiction | reflexivity].
    + destruct (GetHeaderByHash chain p) as [ph | ].
      * pose proof (Uint64_nonneg (types.Number ph)).
        pose proof (Uint64_lt_modulus (Number header)).
        destruct (types.Uint64 (types.Number ph) >=? types.Uint64 (Number header)) eqn:E1.
        { split; [discriminate | ]. intros H1. destruct H1 as (q & Hq & Hlt & _).
          - now apply is_empty_hash_false.
          - injection Hq as <-. lia. }
        rewrite subU64_exact by lia.
        destruct (types.Uint64 (Number header) - types.Uint64 (types.Number ph) >? 10) eqn:E2.
        { split; [discriminate | ]. intros H1. destruct H1 as (q & Hq & _ & Hle).
          - now apply is_empty_hash_false.
          - injection Hq as <-. lia. }
        split; [ | reflexivity]. intros _ _. exists ph. split; [reflexivity | lia].
      * split; [discriminate | ]. intros H1. destruct H1 as (q & Hq & _).
        -- now apply is_empty_hash_false.
        -- discriminate.
Qed.

(** X8.  The parent stage accepts a header exactly when every non-empty
    parent hash resolves to a header that is strictly older and at most 10
    blocks older; empty slots are skipped.  In particular a header at height
    0 passes only without any parent. *)
Theorem validateParents_accepts_iff (chain : ChainHeaderReader) (header : HexHeader) :
  (validateParents chain header = Ok <->
   forall p, In p (nonempty_parents (ParentHashes header)) ->
             exists parentHeader,
               GetHeaderByHash chain p = Some parentHeader
               /\ types.Uint64 (types.Number parentHeader) < types.Uint64 (Number header)
               /\ types.Uint64 (Number header) - types.Uint64 (types.Number parentHeader)
                  <= 10)
  /\ (types.Uint64 (Number header) = 0 ->
      validateParents chain header = Ok ->
      ParentHashes header = fill6 zero_hash).
Proof.
  split; [apply parents_ok_iff | ].
  intros H0 Hok. apply nonempty_parents_nil.
  rewrite parents_ok_iff in Hok.
  destruct (nonempty_parents (ParentHashes header)) as [ | p rest]; [reflexivity | ].
  destruct (Hok p (or_introl eq_refl)) as (ph & _ & Hlt & _).
  pose proof (Uint64_nonneg (types.Number ph)). lia.
Qed.

(** X9.  The engine's topology stage looks at hashes only.  It rejects a
    header that lists its own hash as a parent, a header whose hash is the
    parent hash of one of its resolved parents, and, because the five unused
    slots of a converted parent are compared too, any header with a resolved
    parent whose own hash is the empty hash.  Parents that do not resolve
    never cause a rejection at this stage. *)
Theorem engine_topology_verdicts (rlpHash : HexHeader -> Hash)
        (chain : ChainHeaderReader) (header : HexHeader) :
  (In (rlpHash header) (nonempty_parents (ParentHashes header)) ->
   rejected (validateMeshTopology rlpHash chain header))
  /\ (forall p parentHeader,
        In p (nonempty_parents (ParentHashes header)) ->
        GetHeaderByHash chain p = Some parentHeader ->
        types.ParentHash parentHeader = rlpHash header \/ rlpHash header = zero_hash ->
        rejected (validateMeshTopology rlpHash chain header))
  /\ ((forall p, In p (nonempty_parents (ParentHashes header)) ->
                 p <> rlpHash header /\ GetHeaderByHash chain p = None) ->
      validateMeshTopology rlpHash chain header = Ok).
Proof.
  split; [ | split].
  - intros Hin. apply rejected_not_ok. intros Hok.
    rewrite engine_validateMeshTopology_ok_iff in Hok.
    apply nonempty_parents_In in Hin. destruct Hin as [Hin Hne].
    destruct (Hok _ Hin Hne) as [Hself _]. congruence.
  - intros p ph Hin Hget Hcirc. apply rejected_not_ok. intros Hok.
    rewrite engine_validateMeshTopology_ok_iff in Hok.
    apply nonempty_parents_In in Hin. destruct Hin as [Hin Hne].
    destruct (Hok _ Hin Hne) as [_ Hgp]. destruct (Hgp ph Hget) as [H1 H2].
    destruct Hcirc; congruence.
  - intros H. apply engine_validateMeshTopology_ok_iff.
    intros p Hin Hne.
    destruct (H p) as [H1 H2]; [apply nonempty_parents_In; auto | ].
    split; [exact H1 | ]. intros ph Hget. congruence.
Qed.

(** X10.  [VerifyHeader] accepts no header at all, whatever the
    configuration, the chain, the clock and the header: the converted header
    carries the empty proof, which the proof stage rejects for its missing
    timestamp.  A header at height 0 does not get past the structural
    stage. *)
Theorem VerifyHeader_never_accepts (rlpHash : HexHeader -> Hash) (unixNow : Z)
        (h : HexaProof) (chain : ChainHeaderReader) (header : types.Header) :
  rejected (VerifyHeader rlpHash unixNow h chain header)
  /\ validateHexaProof chain (fst (convertToHexHeader header)) = Err ErrMissingProofTimestamp
  /\ (types.Uint64 (types.Number header) = 0 ->
      rejected (validateBasicStructure (fst (convertToHexHeader header)))).
Proof.
  assert (H6 : validateHexaProof chain (fst (convertToHexHeader header))
               = Err ErrMissingProofTimestamp) by reflexivity.
  split; [ | split; [exact H6 | ] ].
  - change (VerifyHeader rlpHash unixNow h chain header)
      with (verifyHexHeader rlpHash unixNow h chain (fst (convertToHexHeader header))).
    unfold verifyHexHeader. do 5 apply and_then_rejected_r.
    rewrite H6. eexists; reflexivity.
  - intros H0. apply genesis_with_neighbors_rejected; [exact H0 | discriminate].
Qed.

Lemma structure_ok_iff (header : HexHeader) :
  validateBasicStructure header = Ok <->
  NeighborCount header <= 6
  /\ Z.of_nat (List.length (nonempty_parents (ParentHashes header))) = NeighborCount header
  /\ (types.Uint64 (Number header) = 0 <-> NeighborCount header = 0).
Proof.
  unfold validateBasicStructure. rewrite count_nonzero_hashes_filter.
  set (k := NeighborCount header).
  set (filled := Z.of_nat _).
  set (number := types.Uint64 (Number header)).
  pose proof (Uint64_nonneg (Number header)) as Hn. fold number in Hn.
  destruct (k >? 6) eqn:E1; [ split; [discriminate | lia] | ].
  destruct (filled =? k) eqn:E2; simpl; [ | split; [discriminate | lia] ].
  destruct (number =? 0) eqn:E3; destruct (k =? 0) eqn:E4; simpl.
  - assert ((number >? 0) = false) as -> by lia. simpl. split; [intros _; lia | reflexivity].
  - split; [discriminate | lia].
  - assert ((number >? 0) = true) as -> by lia. simpl. split; [discriminate | lia].
  - assert ((number >? 0) = true) as -> by lia. simpl. split; [intros _; lia | reflexivity].
Qed.

Lemma count_ok_iff (h : HexaProof) (header : HexHeader) :
  validateNeighborCount h header = Ok <->
  NeighborCount header <= MaxNeighbors (config h)
  /\ (0 < types.Uint64 (Number header) -> MinNeighbors (config h) <= NeighborCount header).
Proof.
  unfold validateNeighborCount.
  destruct (NeighborCount header >? MaxNeighbors (config h)) eqn:E1;
    [ split; [discriminate | lia] | ].
  destruct (types.Uint64 (Number header) >? 0) eqn:E2;
    destruct (NeighborCount header <? MinNeighbors (config h)) eqn:E3; simpl.
  - split; [discriminate | lia].
  - split; [intros _; lia | reflexivity].
  - split; [intros _; lia | reflexivity].
  - split; [intros _; lia | reflexivity].
Qed.

Lemma max_timestamp_lt (times : list Z) (t : Z) :
  max_timestamp times < t <-> 0 < t /\ forall x, In x times -> x < t.
Proof.
  induction times as [ | y times IH]; simpl.
  - split; [intros H; split; [exact H | intros x []] | tauto].
  - split.
    + intros H. assert (H' : max_timestamp times < t) by lia.
      apply IH in H'. destruct H' as [H0 Hall].
      split; [exact H0 | ]. intros x [<- | Hx]; [lia | now apply Hall].
    + intros [H0 Hall].
      assert (H' : max_timestamp times < t)
        by (apply IH; split; [exact H0 | intros x Hx; apply Hall; now right]).
      specialize (Hall y (or_introl eq_refl)). lia.
Qed.

Lemma timestamp_ok_iff (unixNow : Z) (chain : ChainHeaderReader) (header : HexHeader) :
  0 <= unixNow -> unixNow + 15 < modulus ->
  (validateTimestamp unixNow chain header = Ok <->
   (forall parentHeader, In parentHeader (resolved_parents chain header) ->
                         types.Time parentHeader < Time header)
   /\ 0 < Time header <= unixNow + 15).
Proof.
  intros H0 H1.
  assert (Hlim : addU64 (wrapU64 unixNow) maxFuture = unixNow + 15).
  { unfold addU64, wrapU64, maxFuture.
    rewrite (Z.mod_small unixNow) by (unfold modulus in *; lia).
    apply Z.mod_small. unfold modulus in *. lia. }
  unfold validateTimestamp. rewrite Hlim, maxParentTime_spec.
  pose proof (max_timestamp_lt (map types.Time (resolved_parents chain header))
                (Time header)) as Hmax.
  set (m := max_timestamp _) in *.
  assert (Hall : (forall x, In x (map types.Time (resolved_parents chain header)) ->
                            x < Time header)
                 <-> (forall parentHeader, In parentHeader (resolved_parents chain header) ->
                                           types.Time parentHeader < Time header)).
  { split.
    - intros H ph Hph. apply H. now apply in_map.
    - intros H x Hx. apply in_map_iff in Hx. destruct Hx as (ph & <- & Hph). now apply H. }
  destruct (Time header <=? m) eqn:E1.
  - split; [discriminate | ]. intros [Hp Ht].
    assert (m < Time header) by (apply Hmax; split; [lia | now apply Hall]). lia.
  - assert (Hm : m < Time header) by lia. apply Hmax in Hm. destruct Hm as [Hpos Hx].
    destruct (Time header >? unixNow + 15) eqn:E2.
    + split; [discriminate | lia].
    + split; [ | reflexivity]. intros _. split; [now apply Hall | lia].
Qed.

Lemma hexaproof_ok_iff (chain : ChainHeaderReader) (header : HexHeader) :
  validateHexaProof chain header = Ok <->
  Timestamp (HexProof header) <> 0
  /\ Time header <= Timestamp (HexProof header)
  /\ (forall p, In p (nonempty_parents (ParentHashes header)) ->
                GetHeaderByHash chain p <> None)
  /\ NeighborCount header
     <= Z.of_nat (List.length (present_signatures (NeighborSignatures (HexProof header)))).
Proof.
  unfold validateHexaProof.
  destruct (Timestamp (HexProof header) =? 0) eqn:E1; [ split; [discriminate | lia] | ].
  destruct (Timestamp (HexProof header) <? Time header) eqn:E2;
    [ split; [discriminate | lia] | ].
  rewrite and_then_ok, for_each_ok, count_signatures_filter.
  set (n := Z.of_nat _).
  assert (Hpar : (forall x, In x (elems (ParentHashes header)) ->
                            (if is_empty_hash x then Ok
                             else match GetHeaderByHash chain x with
                                  | Some _ => Ok
                                  | None => Err (ErrProofUnknownParent x)
                                  end) = Ok)
                 <-> (forall p, In p (nonempty_parents (ParentHashes header)) ->
                                GetHeaderByHash chain p <> None)).
  { split.
    - intros H p Hp. apply nonempty_parents_In in Hp. destruct Hp as [Hin Hne].
      specialize (H p Hin). apply is_empty_hash_false in Hne. rewrite Hne in H.
      destruct (GetHeaderByHash chain p); [discriminate | discriminate H].
    - intros H x Hin. destruct (is_empty_hash x) eqn:E; [reflexivity | ].
      apply is_empty_hash_false in E.
      specialize (H x (proj2 (nonempty_parents_In _ _) (conj Hin E))).
      destruct (GetHeaderByHash chain x); [reflexivity | congruence]. }
  rewrite Hpar.
  destruct (n <? NeighborCount header) eqn:E3.
  - split; [intros [_ H]; discriminate | lia].
  - split; [intros [H _]; repeat split; try lia; exact H | intros (_ & _ & H & _); auto].
Qed.

(** X11.  The pipeline as a whole.  With the clock at [unixNow], a header
    passes all six stages exactly when: it declares at most 6 neighbors, as
    many as it has non-empty parent slots, and none exactly at height 0;
    every non-empty parent resolves to a header that is older by 1 to 10
    blocks, is not the header itself and does not name the header as its
    parent, the header's hash not being the empty hash; the count lies
    within the configured bounds (the lower one for heights above 0 only);
    its time is positive, after the time of every parent and at most 15
    seconds ahead of the clock; and its proof is stamped, not before the
    header time, with at least as many signatures as neighbors. *)
Theorem verifyHexHeader_accepts_iff (rlpHash : HexHeader -> Hash) (unixNow : Z)
        (h : HexaProof) (chain : ChainHeaderReader) (header : HexHeader) :
  0 <= unixNow -> unixNow + 15 < modulus ->
  (verifyHexHeader rlpHash unixNow h chain header = Ok <->
   (NeighborCount header <= 6
    /\ Z.of_nat (List.length (nonempty_parents (ParentHashes header))) = NeighborCount header
    /\ (types.Uint64 (Number header) = 0 <-> NeighborCount header = 0))
   /\ (forall p, In p (nonempty_parents (ParentHashes header)) ->
                 exists parentHeader,
                   GetHeaderByHash chain p = Some parentHeader
                   /\ acceptable_parent (types.Uint64 (Number header)) parentHeader
                   /\ types.Time parentHeader < Time header
                   /\ p <> rlpHash header
                   /\ types.ParentHash parentHeader <> rlpHash header
                   /\ rlpHash header <> zero_hash)
   /\ (NeighborCount header <= MaxNeighbors (config h)
       /\ (0 < types.Uint64 (Number header) ->
           MinNeighbors (config h) <= NeighborCount header))
   /\ 0 < Time header <= unixNow + 15
   /\ (Timestamp (HexProof header) <> 0
       /\ Time header <= Timestamp (HexProof header)
       /\ NeighborCount header
          <= Z.of_nat (List.length
                         (present_signatures (NeighborSignatures (HexProof header)))))).
Proof.
  intros H0 H1. unfold verifyHexHeader.
  rewrite !and_then_ok, structure_ok_iff, parents_ok_iff,
    engine_validateMeshTopology_ok_iff, count_ok_iff,
    (timestamp_ok_iff unixNow chain header H0 H1), hexaproof_ok_iff.
  split.
  - intros (Hs & Hp & Ht & Hc & (Htp & Htime) & (Hq1 & Hq2 & _ & Hq4)).
    split; [exact Hs | ]. split; [ | tauto].
    intros p Hin. destruct (Hp p Hin) as (ph & Hget & Hacc).
    exists ph. split; [exact Hget | ]. split; [exact Hacc | ].
    pose proof Hin as Hin'. apply nonempty_parents_In in Hin'. destruct Hin' as [Hel Hne].
    destruct (Ht p Hel Hne) as [Hself Hgp]. destruct (Hgp ph Hget) as [Hg1 Hg2].
    split; [ | split; [exact Hself | split; [exact Hg1 | congruence] ] ].
    apply Htp. apply resolved_parents_In. exists p. auto.
  - intros (Hs & Hp & Hc & Htime & (Hq1 & Hq2 & Hq4)).
    split; [exact Hs | ]. split; [ | split; [ | split; [exact Hc | split] ] ].
    + intros p Hin. destruct (Hp p Hin) as (ph & Hget & Hacc & _). now exists ph.
    + intros p Hel Hne.
      destruct (Hp p (proj2 (nonempty_parents_In _ _) (conj Hel Hne)))
        as (ph & Hget & _ & _ & Hself & Hg1 & Hg2).
      split; [exact Hself | ]. intros ph' Hget'. rewrite Hget in Hget'.
      injection Hget' as <-. split; [exact Hg1 | congruence].
    + split; [ | exact Htime]. intros ph Hph.
      apply resolved_parents_In in Hph. destruct Hph as (p & Hel & Hne & Hget).
      destruct (Hp p (proj2 (nonempty_parents_In _ _) (conj Hel Hne)))
        as (ph' & Hget' & _ & Hlt & _).
      rewrite Hget in Hget'. injection Hget' as <-. exact Hlt.
    + split; [exact Hq1 | split; [exact Hq2 | split; [ | exact Hq4] ] ].
      intros p Hin. destruct (Hp p Hin) as (ph & Hget & _). congruence.
Qed.

Lemma verifyHexHeader_accepts_iff_witness :
  verifyHexHeader (fun _ => 0xf1) 1700000003 lenient_engine forged_chain forged_header = Ok
  /\ 0 < Time forged_header <= 1700000003 + 15.
Proof.
  split; [reflexivity | ].
  apply (proj1 (verifyHexHeader_accepts_iff (fun _ => 0xf1) 1700000003 lenient_engine
                  forged_chain forged_header ltac:(lia) ltac:(unfold modulus; lia))
           eq_refl).
Defined.

End EngineFacts.

(** ** More on the block validator *)

Module BlockValidatorFacts.
Import core Vocabulary Samples LoopFacts StageFacts TopologyFacts GridFacts PipelineFacts.

(** X12.  The two proof validators agree.  Whatever the engine's proof stage
    accepts the block validator accepts; when every non-empty parent of the
    header resolves in the engine's chain they return the same result, error
    included; and what the block validator rejects the engine rejects. *)
Theorem proof_validators_agree (chain : consensus.ChainHeaderReader) (block : HexBlock) :
  (consensus.validateHexaProof chain (header block) = Ok -> ValidateHexProof block = Ok)
  /\ ((forall p, In p (nonempty_parents (ParentHashes (header block))) ->
                 consensus.GetHeaderByHash chain p <> None) ->
      consensus.validateHexaProof chain (header block) = ValidateHexProof block)
  /\ (rejected (ValidateHexProof block) ->
      rejected (consensus.validateHexaProof chain (header block))).
Proof.
  unfold consensus.validateHexaProof, ValidateHexProof, Block_Header.
  destruct (Timestamp (HexProof (header block)) =? 0);
    [ repeat split; auto | ].
  destruct (Timestamp (HexProof (header block)) <? Time (header block));
    [ repeat split; auto | ].
  set (loop := for_each _ _).
  set (verdict := if _ <? _ then _ else _).
  split; [ | split].
  - intros H. apply and_then_ok in H. tauto.
  - intros Hall.
    assert (Hloop : loop = Ok).
    { subst loop. apply for_each_ok. intros x Hin.
      destruct (is_empty_hash x) eqn:E; [reflexivity | ].
      apply is_empty_hash_false in E.
      specialize (Hall x (proj2 (nonempty_parents_In _ _) (conj Hin E))).
      destruct (consensus.GetHeaderByHash chain x); [reflexivity | congruence]. }
    rewrite Hloop. reflexivity.
  - intros H. now apply and_then_rejected_r.
Qed.

Lemma proof_validators_agree_witness :
  ValidateHexProof (NewHexBlock forged_header [] []) = Ok.
Proof.
  apply (proj1 (proof_validators_agree forged_chain (NewHexBlock forged_header [] []))).
  reflexivity.
Defined.

(** X13.  The block validator's header check accepts a header exactly when
    it declares at most 6 neighbors, as many as it has non-empty parent
    slots, every non-empty parent is a known block, and the position
    satisfies the cube constraint. *)
Theorem validateHexSpecificHeader_accepts_iff (bc : HexBlockChain) (h : HexHeader) :
  validateHexSpecificHeader bc h = Ok <->
  NeighborCount h <= 6
  /\ Z.of_nat (List.length (nonempty_parents (ParentHashes h))) = NeighborCount h
  /\ (forall p, In p (nonempty_parents (ParentHashes h)) -> HasHexBlock bc p = true)
  /\ cube_sum (HexPosition h) = 0.
Proof.
  unfold validateHexSpecificHeader. rewrite count_nonzero_hashes_filter.
  destruct (NeighborCount h >? 6) eqn:E1; [ split; [discriminate | lia] | ].
  destruct (Z.of_nat (List.length (nonempty_parents (ParentHashes h))) =? NeighborCount h)
    eqn:E2; cbn [negb]; [ | split; [discriminate | lia] ].
  rewrite and_then_ok.
  rewrite (for_each_indexed_ok _ (fun p => p <> zero_hash -> HasHexBlock bc p = true)).
  - unfold validateHexCoordinate.
    destruct (cube_sum (HexPosition h) =? 0) eqn:E3; simpl.
    + split.
      * intros [H _]. repeat split; try lia.
        intros p Hp. apply nonempty_parents_In in Hp. destruct Hp. now apply H.
      * intros (_ & _ & H & _). split; [ | reflexivity].
        intros p Hin Hne. apply H. apply nonempty_parents_In. auto.
    + split; [intros [_ H]; discriminate | lia].
  - intros i p. destruct (is_empty_hash p) eqn:E.
    + apply is_empty_hash_true in E. split; [intros _ Hne; contradiction | reflexivity].
    + apply is_empty_hash_false in E.
      destruct (HasHexBlock bc p); simpl.
      * split; [reflexivity | reflexivity].
      * split; [discriminate | intros H; specialize (H E); discriminate].
Qed.

Lemma grandparents_ok (blockHash : Hash) (hashes : list Hash) :
  for_each (fun grandParentHash =>
              if hash_eqb grandParentHash blockHash
              then Err ErrCircularReference else Ok) hashes = Ok
  <-> ~ In blockHash hashes.
Proof.
  rewrite for_each_ok. split.
  - intros H Hin. specialize (H _ Hin). unfold hash_eqb in H.
    rewrite Z.eqb_refl in H. discriminate.
  - intros H x Hin. destruct (hash_eqb x blockHash) eqn:E; [ | reflexivity].
    apply Z.eqb_eq in E. subst. contradiction.
Qed.

(** X14.  Mesh integrity accepts a block exactly when no non-empty parent is
    the block's own hash, no known parent block lists the block's hash among
    its six parent slots, every known parent block sits on a neighbor of the
    block's position, the neighbor count is at most 6, and a block above
    height 0 has at least one neighbor.  The block's hash is its cached hash
    if one is set and the hash of its header otherwise. *)
Theorem ValidateMeshIntegrity_accepts_iff (rlpHash : HexHeader -> Hash)
        (bc : HexBlockChain) (block : HexBlock) :
  let blockHash := fst (HexBlock_Hash rlpHash block) in
  (ValidateMeshIntegrity rlpHash bc block = Ok <->
   (forall p, In p (nonempty_parents (ParentHashes (header block))) ->
              p <> blockHash
              /\ forall parentBlock,
                   GetHexBlock bc p = Some parentBlock ->
                   ~ In blockHash (elems (ParentHashes (header parentBlock)))
                   /\ In (HexPosition (header parentBlock))
                         (elems (Neighbors (HexPosition (header block)))))
   /\ NeighborCount (header block) <= 6
   /\ (0 < types.Uint64 (Number (header block)) -> 1 <= NeighborCount (header block)))
  /\ blockHash = (if is_empty_hash (hash block) then rlpHash (header block)
                  else hash block).
Proof.
  intros blockHash. split.
  - unfold ValidateMeshIntegrity, Block_Header. fold blockHash.
    rewrite !and_then_ok, for_each_ok, block_validateMeshTopology_ok_iff.
    set (k := NeighborCount (header block)).
    set (number := types.Uint64 (Number (header block))).
    assert (Htail : (if k >? 6 then Err (ErrTooManyNeighborsForConfig k 6)
                     else if (number >? 0) && (k <? 1) then Err ErrNonGenesisNoParent
                          else Ok) = Ok
                    <-> k <= 6 /\ (0 < number -> 1 <= k)).
    { destruct (k >? 6) eqn:E1; [ split; [discriminate | lia] | ].
      destruct (number >? 0) eqn:E2; destruct (k <? 1) eqn:E3; simpl;
        (split; [try discriminate; intros _; lia | try reflexivity; lia]). }
    rewrite Htail. split.
    + intros (Hloop & Htopo & Hk). split; [ | exact Hk].
      intros p Hp. apply nonempty_parents_In in Hp. destruct Hp as [Hin Hne].
      specialize (Hloop p Hin). apply is_empty_hash_false in Hne. rewrite Hne in Hloop.
      destruct (hash_eqb p blockHash) eqn:E; [discriminate | ].
      apply hash_eqb_false in E. split; [exact E | ].
      intros pb Hget. rewrite Hget in Hloop.
      apply grandparents_ok in Hloop. split; [exact Hloop | ].
      apply (Htopo p pb Hin); [now apply is_empty_hash_false | exact Hget].
    + intros (Hall & Hk). split; [ | split; [ | exact Hk] ].
      * intros p Hin. destruct (is_empty_hash p) eqn:E; [reflexivity | ].
        apply is_empty_hash_false in E.
        destruct (Hall p (proj2 (nonempty_parents_In _ _) (conj Hin E))) as [Hself Hpb].
        apply hash_eqb_false in Hself. rewrite Hself.
        destruct (GetHexBlock bc p) as [pb | ]; [ | reflexivity].
        apply grandparents_ok. apply (Hpb pb eq_refl).
      * intros p pb Hin Hne Hget.
        destruct (Hall p (proj2 (nonempty_parents_In _ _) (conj Hin Hne))) as [_ Hpb].
        apply (Hpb pb Hget).
  - subst blockHash. unfold HexBlock_Hash. destruct (is_empty_hash (hash block)); reflexivity.
Qed.

(** X15.  When the positions involved lie inside the grid, the block
    validator's topology check accepts a block exactly when each of its known
    parent blocks is at distance 1 from the block's position. *)
Theorem block_topology_accepts_iff_adjacent (bc : HexBlockChain) (block : HexBlock) :
  in_grid (HexPosition (header block)) ->
  (forall p parentBlock,
     In p (nonempty_parents (ParentHashes (header block))) ->
     GetHexBlock bc p = Some parentBlock -> in_grid (HexPosition (header parentBlock))) ->
  (validateMeshTopology bc block = Ok <->
   forall p parentBlock,
     In p (nonempty_parents (ParentHashes (header block))) ->
     GetHexBlock bc p = Some parentBlock ->
     Distance (HexPosition (header block)) (HexPosition (header parentBlock)) = 1).
Proof.
  intros Hpos Hparents. rewrite block_validateMeshTopology_ok_iff. split.
  - intros H p pb Hp Hget.
    apply (Neighbors_iff_distance_one _ _ Hpos (Hparents p pb Hp Hget)).
    apply nonempty_parents_In in Hp. destruct Hp as [Hin Hne].
    apply (H p pb Hin Hne Hget).
  - intros H p pb Hin Hne Hget.
    assert (Hp : In p (nonempty_parents (ParentHashes (header block))))
      by (apply nonempty_parents_In; auto).
    apply (Neighbors_iff_distance_one _ _ Hpos (Hparents p pb Hp Hget)).
    apply (H p pb Hp Hget).
Qed.

Lemma block_topology_accepts_iff_adjacent_witness :
  validateMeshTopology origin_chain near_block = Ok.
Proof.
  apply (block_topology_accepts_iff_adjacent origin_chain near_block).
  - unfold in_grid, grid_bound. cbn. repeat split; lia.
  - intros p pb Hp Hget. cbn in Hp. destruct Hp as [<- | []].
    injection Hget as <-. unfold in_grid, grid_bound. cbn. repeat split; lia.
  - intros p pb Hp Hget. cbn in Hp. destruct Hp as [<- | []].
    injection Hget as <-. reflexivity.
Defined.

End BlockValidatorFacts.

(** ** Processing blocks *)

Module ProcessingFacts.
Import core processing Vocabulary MeshVocabulary Samples LoopFacts PipelineFacts.

Section WithAccessors.
Variable rlpHash : HexHeader -> Hash.
Variable txGas : types.Transaction -> Z.
Variable txType : types.Transaction -> Z.
Variable txHash : types.Transaction -> Hash.

(** X16.  [ProcessHexBlock] returns only for a block without transactions
    and withdrawals, and then with no error, gas used 0 and no receipts.  On
    a block with a transaction or a withdrawal the conversion to a standard
    block panics before the loop over the transactions starts, so that no
    receipt is ever built. *)
Theorem ProcessHexBlock_outcome (block : HexBlock) (statedb : option StateDB) :
  (ProcessHexBlock rlpHash txGas txType txHash block statedb = Panicked <->
   transactions block <> [] \/ withdrawals block <> [])
  /\ (transactions block = [] -> withdrawals block = [] ->
      ProcessHexBlock rlpHash txGas txType txHash block statedb
      = Returned (mkProcessHexResult 0 [] [] [], None))
  /\ (forall (res : ProcessHexResult) (err : option error),
        ProcessHexBlock rlpHash txGas txType txHash block statedb = Returned (res, err) ->
        err = None /\ GasUsed res = 0 /\ Receipts res = []
        /\ transactions block = [] /\ withdrawals block = []).
Proof.
  unfold ProcessHexBlock, ToEthBlock_Transactions.
  destruct (transactions block) as [ | tx txs]; [destruct (withdrawals block) as [ | w ws] | ].
  - cbn [fold_left]. split; [ | split].
    + split; [discriminate | intros [H | H]; contradiction].
    + reflexivity.
    + intros res err H. injection H as <- <-. repeat split.
  - split; [ | split].
    + split; [intros _; right; discriminate | reflexivity].
    + discriminate.
    + discriminate.
  - split; [ | split].
    + split; [intros _; left; discriminate | reflexivity].
    + discriminate.
    + discriminate.
Qed.

Variable deriveSha : list receipts.Receipt -> Hash.
Variable IntermediateRoot : StateDB -> bool -> Hash.
Variable IsEIP158 : Z -> bool.

(** X17.  The processed result of a block is accepted exactly when the
    header's gas used and receipt root are those of the result and, if a
    state is handed over, the state's root is the header's state root; with
    no state the state root is not looked at.  A result that
    [ProcessHexBlock] returned is accepted only for a block without
    transactions whose header declares gas used 0 and the receipt root of the
    empty receipt list. *)
Theorem ValidateProcessedHexBlock_accepts_iff (block : HexBlock)
        (res : ProcessHexResult) (statedb : option StateDB) :
  (ValidateProcessedHexBlock deriveSha IntermediateRoot IsEIP158 block res statedb = Ok <->
   core.GasUsed (header block) = GasUsed res
   /\ deriveSha (Receipts res) = ReceiptHash (header block)
   /\ forall st, statedb = Some st ->
                 IntermediateRoot st (IsEIP158 (Number (header block)))
                 = Root (header block))
  /\ (forall err : option error,
        ProcessHexBlock rlpHash txGas txType txHash block statedb = Returned (res, err) ->
        ValidateProcessedHexBlock deriveSha IntermediateRoot IsEIP158 block res statedb = Ok ->
        transactions block = []
        /\ core.GasUsed (header block) = 0
        /\ ReceiptHash (header block) = deriveSha []).
Proof.
  assert (Hiff : forall res',
             ValidateProcessedHexBlock deriveSha IntermediateRoot IsEIP158 block res' statedb
             = Ok <->
             core.GasUsed (header block) = GasUsed res'
             /\ deriveSha (Receipts res') = ReceiptHash (header block)
             /\ forall st, statedb = Some st ->
                           IntermediateRoot st (IsEIP158 (Number (header block)))
                           = Root (header block)).
  { intros res'. unfold ValidateProcessedHexBlock, Block_Header, hash_eqb.
    destruct (core.GasUsed (header block) =? GasUsed res') eqn:E1; cbn [negb];
      [ | split; [discriminate | lia] ].
    destruct (deriveSha (Receipts res') =? ReceiptHash (header block)) eqn:E2; cbn [negb];
      [ | split; [discriminate | lia] ].
    destruct statedb as [st | ].
    - destruct (IntermediateRoot st (IsEIP158 (Number (header block)))
                =? Root (header block)) eqn:E3; cbn [negb].
      + split; [ | reflexivity]. intros _. repeat split; try lia.
        intros st' Hst. injection Hst as <-. lia.
      + split; [discriminate | ]. intros (_ & _ & H). specialize (H st eq_refl). lia.
    - split; [ | reflexivity]. intros _. repeat split; try lia. discriminate. }
  split; [apply Hiff | ].
  intros err Hres Hok. apply Hiff in Hok. destruct Hok as (Hg & Hr & _).
  unfold ProcessHexBlock, ToEthBlock_Transactions in Hres.
  destruct (transactions block) as [ | tx txs]; [ | discriminate Hres].
  destruct (withdrawals block) as [ | w ws]; [ | discriminate Hres].
  cbn [fold_left] in Hres. injection Hres as <- _.
  cbn [GasUsed Receipts] in Hg, Hr. auto.
Qed.

End WithAccessors.

(** X18.  With the HexaProof engine as consensus engine, [ValidateHexBlock]
    accepts no block: it answers "block already known" for a known block and
    a header-validation failure for every other one, so that the body, state
    and mesh checks are never reached. *)
Theorem ValidateHexBlock_never_accepts (rlpHash : HexHeader -> Hash) (unixNow : Z)
        (engine : consensus.HexaProof) (ValidateHexBody : HexBlock -> res)
        (bc : HexBlockChain) (block : HexBlock) :
  let VerifyHeader :=
    consensus.VerifyHeader rlpHash unixNow engine
      (consensus.mkChainHeaderReader (GetHeaderByHash bc)) in
  let verdict := ValidateHexBlock rlpHash VerifyHeader ValidateHexBody bc block in
  (HasHexBlock bc (fst (HexBlock_Hash rlpHash block)) = true -> verdict = Err ErrKnownBlock)
  /\ (HasHexBlock bc (fst (HexBlock_Hash rlpHash block)) = false ->
      exists e, verdict = Err (ErrHeaderValidation e))
  /\ verdict <> Ok.
Proof.
  intros VerifyHeader verdict. subst verdict. unfold ValidateHexBlock.
  destruct (HexBlock_Hash rlpHash block) as [blockHash block'] eqn:Hh. cbn [fst].
  assert (Hhdr : exists e, ValidateHexHeader VerifyHeader bc (Block_Header block') = Err e).
  { unfold ValidateHexHeader. apply and_then_rejected_l.
    subst VerifyHeader.
    change (consensus.VerifyHeader rlpHash unixNow engine
              (consensus.mkChainHeaderReader (GetHeaderByHash bc))
              (ToEthHeader (Block_Header block')))
      with (consensus.verifyHexHeader rlpHash unixNow engine
              (consensus.mkChainHeaderReader (GetHeaderByHash bc))
              (fst (consensus.convertToHexHeader (ToEthHeader (Block_Header block'))))).
    unfold consensus.verifyHexHeader. do 5 apply and_then_rejected_r.
    eexists. reflexivity. }
  destruct Hhdr as [e He].
  destruct (HasHexBlock bc blockHash).
  - repeat split; [discriminate | discriminate].
  - rewrite He. split; [discriminate | ]. split; [intros _; now exists e | discriminate].
Qed.

End ProcessingFacts.

(** ** The cached hash of a block *)

Module BlockHashFacts.
Import core Vocabulary Samples.

Section WithKeccak.
Variable rlpHash : HexHeader -> Hash.

Lemma HexBlock_Hash_fresh (b : HexBlock) :
  hash b = zero_hash ->
  HexBlock_Hash rlpHash b
  = (rlpHash (header b),
     mkHexBlock (header b) (transactions b) (withdrawals b) (neighborProofs b)
                (meshWitness b) (rlpHash (header b)) (size b)).
Proof. intros H. unfold HexBlock_Hash, HexHeader_Hash. rewrite H. reflexivity. Qed.

Lemma HexBlock_Hash_cached (b : HexBlock) :
  hash b <> zero_hash -> HexBlock_Hash rlpHash b = (hash b, b).
Proof.
  intros H. unfold HexBlock_Hash.
  destruct (is_empty_hash (hash b)) eqn:E; [ | reflexivity].
  exfalso. apply H. unfold is_empty_hash, hash_eqb in E. now apply Z.eqb_eq in E.
Qed.

(** X19.  [HexBlock.Hash] on a block whose cache is empty returns the hash
    of the block's header and stores it; nothing else of the block changes.
    Calling it again returns the same value, and once a non-empty hash is
    cached it is what every later call returns even when the block's header
    has been replaced in between, so the block hash and the hash of the
    block's header may then differ. *)
Theorem HexBlock_Hash_memoized (b : HexBlock) :
  let h1 := fst (HexBlock_Hash rlpHash b) in
  let b1 := snd (HexBlock_Hash rlpHash b) in
  (hash b = zero_hash -> h1 = HexHeader_Hash rlpHash (header b))
  /\ fst (HexBlock_Hash rlpHash b1) = h1
  /\ (header b1 = header b /\ transactions b1 = transactions b
      /\ withdrawals b1 = withdrawals b /\ neighborProofs b1 = neighborProofs b
      /\ meshWitness b1 = meshWitness b /\ size b1 = size b)
  /\ (h1 <> zero_hash ->
      forall header',
        fst (HexBlock_Hash rlpHash
               (mkHexBlock header' (transactions b1) (withdrawals b1) (neighborProofs b1)
                           (meshWitness b1) (hash b1) (size b1)))
        = h1).
Proof.
  intros h1 b1. subst h1 b1.
  destruct (Z.eq_dec (hash b) zero_hash) as [Hz | Hnz].
  - rewrite (HexBlock_Hash_fresh b Hz). cbn [fst snd].
    split; [reflexivity | ]. split; [ | split].
    + destruct (Z.eq_dec (rlpHash (header b)) zero_hash) as [Hd | Hd].
      * rewrite HexBlock_Hash_fresh by exact Hd. reflexivity.
      * rewrite HexBlock_Hash_cached by exact Hd. reflexivity.
    + repeat split.
    + intros Hd header'. rewrite HexBlock_Hash_cached by exact Hd. reflexivity.
  - rewrite (HexBlock_Hash_cached b Hnz). cbn [fst snd].
    split; [intros Hz; contradiction | ]. split; [ | split].
    + rewrite HexBlock_Hash_cached by exact Hnz. reflexivity.
    + repeat split.
    + intros _ header'. rewrite HexBlock_Hash_cached by exact Hnz. reflexivity.
Qed.

End WithKeccak.

End BlockHashFacts.

(** ** The mesh protocol *)

Module NetworkFacts.
Import network Vocabulary MeshVocabulary LoopFacts.

Lemma zmap_get_delete_same {V} (m : zmap V) (k : Z) : zmap_get (zmap_delete m k) k = None.
Proof.
  induction m as [ | [k' v] m IH]; [reflexivity | ].
  unfold zmap_delete in *. cbn [filter fst].
  destruct (k' =? k) eqn:E; cbn [negb]; [exact IH | ].
  cbn [zmap_get]. rewrite E. exact IH.
Qed.

Lemma zmap_get_delete_other {V} (m : zmap V) (k k' : Z) :
  k' <> k -> zmap_get (zmap_delete m k) k' = zmap_get m k'.
Proof.
  intros Hne. induction m as [ | [k0 v] m IH]; [reflexivity | ].
  unfold zmap_delete in *. cbn [filter fst].
  destruct (k0 =? k) eqn:E; cbn [negb zmap_get].
  - apply Z.eqb_eq in E. subst k0.
    assert ((k =? k') = false) as -> by (apply Z.eqb_neq; congruence). exact IH.
  - destruct (k0 =? k'); [reflexivity | exact IH].
Qed.

Lemma zmap_get_put_same {V} (m : zmap V) (k : Z) (v : V) : zmap_get (zmap_put m k v) k = Some v.
Proof. unfold zmap_put. cbn [zmap_get]. now rewrite Z.eqb_refl. Qed.

Lemma zmap_get_put_other {V} (m : zmap V) (k k' : Z) (v : V) :
  k' <> k -> zmap_get (zmap_put m k v) k' = zmap_get m k'.
Proof.
  intros Hne. unfold zmap_put. cbn [zmap_get].
  assert ((k =? k') = false) as -> by (apply Z.eqb_neq; congruence).
  now apply zmap_get_delete_other.
Qed.

Lemma zmap_delete_incl {V} (m : zmap V) (k : Z) (x : V) :
  In x (map snd (zmap_delete m k)) -> In x (map snd m).
Proof.
  unfold zmap_delete. rewrite !in_map_iff. intros (kv & <- & Hin).
  apply filter_In in Hin. exists kv. tauto.
Qed.

Lemma same_frame_refl a : same_frame a a.
Proof. repeat split. Qed.

Lemma same_frame_trans a b c : same_frame a b -> same_frame b c -> same_frame a c.
Proof.
  unfold same_frame.
  intros (H1 & H2 & H3 & H4 & H5 & H6 & H7) (G1 & G2 & G3 & G4 & G5 & G6 & G7).
  repeat split; congruence.
Qed.

Lemma update_object_frame hmp addr f : same_frame (update_object hmp addr f) hmp.
Proof.
  unfold update_object. destruct (zmap_get (objects hmp) addr); repeat split.
Qed.

Lemma peer_at_update_object hmp addr f a :
  peer_at (update_object hmp addr f) a
  = if a =? addr then option_map f (peer_at hmp addr) else peer_at hmp a.
Proof.
  unfold update_object, peer_at.
  destruct (zmap_get (objects hmp) addr) as [p | ] eqn:Hp.
  - cbn [objects set_objects]. destruct (a =? addr) eqn:E.
    + apply Z.eqb_eq in E. subst a. now rewrite zmap_get_put_same.
    + apply Z.eqb_neq in E. now apply zmap_get_put_other.
  - destruct (a =? addr) eqn:E; [ | reflexivity].
    apply Z.eqb_eq in E. subst a. now rewrite Hp.
Qed.

Lemma fold_update_frame (f : HexPeer -> HexPeer) (l : list Z) :
  forall st, same_frame (fold_left (fun st addr => update_object st addr f) l st) st.
Proof.
  induction l as [ | x l IH]; intros st; cbn [fold_left].
  - apply same_frame_refl.
  - eapply same_frame_trans; [apply IH | apply update_object_frame].
Qed.

(** After the loop every object it visited satisfies what [f] establishes. *)
Lemma fold_update_all (f : HexPeer -> HexPeer) (P : HexPeer -> Prop) :
  (forall p, P (f p)) ->
  forall (l : list Z) (st : HexMeshProtocol) (visited : list Z),
    (forall a p, In a visited -> peer_at st a = Some p -> P p) ->
    forall a p, In a visited \/ In a l ->
                peer_at (fold_left (fun st addr => update_object st addr f) l st) a = Some p ->
                P p.
Proof.
  intros Hf. induction l as [ | x l IH]; intros st visited Hv a p Hin Hp; cbn [fold_left] in Hp.
  - destruct Hin as [Hin | []]. eapply Hv; eassumption.
  - apply (IH (update_object st x f) (x :: visited)) with (a := a); [ | | exact Hp].
    + intros a' p' Ha' Hp'. rewrite peer_at_update_object in Hp'.
      destruct (a' =? x) eqn:E.
      * destruct (peer_at st x); [ | discriminate]. injection Hp' as <-. apply Hf.
      * destruct Ha' as [-> | Ha']; [rewrite Z.eqb_refl in E; discriminate | ].
        eapply Hv; eassumption.
    + destruct Hin as [Hin | [-> | Hin]]; [left; now right | left; now left | now right].
Qed.

(** The loop keeps what [f] keeps, on every object. *)
Lemma fold_update_keeps (f : HexPeer -> HexPeer) (P : HexPeer -> Prop) :
  (forall p, P p -> P (f p)) ->
  forall (l : list Z) (st : HexMeshProtocol) (a : Z) (p : HexPeer),
    (forall q, peer_at st a = Some q -> P q) ->
    peer_at (fold_left (fun st addr => update_object st addr f) l st) a = Some p ->
    P p.
Proof.
  intros Hf. induction l as [ | x l IH]; intros st a p Hq Hp; cbn [fold_left] in Hp.
  - now apply Hq.
  - apply (IH (update_object st x f) a p); [ | exact Hp].
    intros q Hq'. rewrite peer_at_update_object in Hq'.
    destruct (a =? x) eqn:E.
    + apply Z.eqb_eq in E. subst x.
      destruct (peer_at st a) as [q0 | ]; [ | discriminate]. injection Hq' as <-.
      apply Hf. now apply Hq.
    + now apply Hq.
Qed.

Lemma place_peer_synced localPos pos hd p : peer_synced localPos (place_peer localPos pos hd p).
Proof.
  unfold peer_synced, place_peer. cbn [distance position isNeighbor]. split; reflexivity.
Qed.

Lemma place_peer_fields localPos pos hd p :
  distance (place_peer localPos pos hd p) = core.Distance localPos pos
  /\ isNeighbor (place_peer localPos pos hd p) = (core.Distance localPos pos =? 1)
  /\ id (place_peer localPos pos hd p) = id p
  /\ position (place_peer localPos pos hd p) = pos
  /\ head (place_peer localPos pos hd p) = hd
  /\ lastSeen (place_peer localPos pos hd p) = lastSeen p
  /\ requests (place_peer localPos pos hd p) = requests p.
Proof.
  unfold place_peer. cbn [distance isNeighbor id position head lastSeen requests].
  repeat split; reflexivity.
Qed.

Lemma place_peer_again localPos p :
  place_peer localPos
    (position (place_peer localPos (position p) (head p) p))
    (head (place_peer localPos (position p) (head p) p))
    (place_peer localPos (position p) (head p) p)
  = place_peer localPos (position p) (head p) p.
Proof.
  destruct p as [i ps hd df nb ds ls rq ri]. unfold place_peer.
  cbn [id position head difficulty lastSeen requests reqID]. reflexivity.
Qed.

Lemma select_peers_iff hmp keep addr :
  In addr (select_peers hmp keep) <->
  In addr (peer_addresses hmp) /\ exists p, peer_at hmp addr = Some p /\ keep p = true.
Proof.
  unfold select_peers. rewrite filter_In. split.
  - intros [Hin Hk]. split; [exact Hin | ].
    destruct (peer_at hmp addr) as [p | ]; [ | discriminate]. now exists p.
  - intros [Hin (p & Hp & Hk)]. split; [exact Hin | ]. now rewrite Hp.
Qed.

Lemma touch_peer_synced localPos now p :
  peer_synced localPos p -> peer_synced localPos (touch_peer now p).
Proof. intros H. exact H. Qed.

Lemma synced_same_view (a b : HexMeshProtocol) :
  peers b = peers a -> objects b = objects a -> localPosition b = localPosition a ->
  synced a -> synced b.
Proof.
  intros Hp Ho Hl H addr p Hin Hat. unfold peer_addresses, peer_at in *.
  rewrite Hp in Hin. rewrite Ho in Hat. rewrite Hl. exact (H addr p Hin Hat).
Qed.

Lemma synced_update_object hmp addr f :
  (forall p, peer_synced (localPosition hmp) p -> peer_synced (localPosition hmp) (f p)) ->
  synced hmp -> synced (update_object hmp addr f).
Proof.
  intros Hf Hs a p Hin Hat.
  destruct (update_object_frame hmp addr f) as (_ & Hp & Hl & _).
  unfold peer_addresses in Hin. rewrite Hp in Hin. rewrite Hl.
  rewrite peer_at_update_object in Hat.
  destruct (a =? addr) eqn:E.
  - apply Z.eqb_eq in E. subst addr.
    destruct (peer_at hmp a) as [q | ] eqn:Hq; [ | discriminate]. injection Hat as <-.
    apply Hf. now apply (Hs a).
  - now apply (Hs a).
Qed.

Lemma SetLocalPosition_frame hmp pos :
  peers (SetLocalPosition hmp pos) = peers hmp
  /\ localPosition (SetLocalPosition hmp pos) = pos
  /\ config (SetLocalPosition hmp pos) = config hmp
  /\ networkID (SetLocalPosition hmp pos) = networkID hmp
  /\ currentHead (SetLocalPosition hmp pos) = currentHead hmp
  /\ blockCh (SetLocalPosition hmp pos) = blockCh hmp
  /\ headerCh (SetLocalPosition hmp pos) = headerCh hmp.
Proof.
  unfold SetLocalPosition.
  match goal with
  | |- context [fold_left ?g ?l ?st] =>
      destruct (fold_update_frame (fun p => place_peer pos (position p) (head p) p) l st)
        as (H1 & H2 & H3 & H4 & H5 & H6 & H7)
  end.
  repeat split; assumption.
Qed.

Lemma SetLocalPosition_synced hmp pos : synced (SetLocalPosition hmp pos).
Proof.
  intros a p Hin Hat.
  destruct (SetLocalPosition_frame hmp pos) as (Hp & Hl & _).
  unfold peer_addresses in Hin. rewrite Hp in Hin. rewrite Hl.
  unfold SetLocalPosition in Hat.
  eapply (fold_update_all (fun p => place_peer pos (position p) (head p) p)
            (peer_synced pos)) with (visited := []); [ | | right; exact Hin | exact Hat].
  - intros q. apply place_peer_synced.
  - intros a' p' [].
Qed.

Lemma cleanup_frame hmp now : same_frame (cleanupStaleRequests hmp now) hmp.
Proof. unfold cleanupStaleRequests. apply fold_update_frame. Qed.

Lemma cleanup_synced hmp now : synced hmp -> synced (cleanupStaleRequests hmp now).
Proof.
  intros Hs a p Hin Hat.
  destruct (cleanup_frame hmp now) as (_ & Hp & Hl & _).
  unfold peer_addresses in Hin. rewrite Hp in Hin. rewrite Hl.
  unfold cleanupStaleRequests in Hat.
  eapply (fold_update_keeps _ (peer_synced (localPosition hmp))); [ | | exact Hat].
  - intros q Hq. exact Hq.
  - intros q Hq. now apply (Hs a).
Qed.

Lemma fold_update_visited (f : HexPeer -> HexPeer) :
  (forall p, f (f p) = f p) ->
  forall (l : list Z) (st : HexMeshProtocol) (a : Z),
    In a l ->
    peer_at (fold_left (fun st addr => update_object st addr f) l st) a
    = option_map f (peer_at st a).
Proof.
  intros Hf. induction l as [ | x l IH]; intros st a Hin; [destruct Hin | ].
  cbn [fold_left].
  destruct (in_dec Z.eq_dec a l) as [Hl | Hl].
  - rewrite (IH _ _ Hl), peer_at_update_object.
    destruct (a =? x) eqn:E; [ | reflexivity].
    apply Z.eqb_eq in E. subst x. destruct (peer_at st a); cbn; [now rewrite Hf | reflexivity].
  - destruct Hin as [-> | Hin]; [ | contradiction].
    assert (Hskip : forall l' st', ~ In a l' ->
              peer_at (fold_left (fun st addr => update_object st addr f) l' st') a
              = peer_at st' a).
    { induction l' as [ | y l' IH']; intros st' Hn; [reflexivity | ].
      cbn [fold_left]. rewrite IH' by (intros H; apply Hn; now right).
      rewrite peer_at_update_object.
      destruct (a =? y) eqn:E; [ | reflexivity].
      apply Z.eqb_eq in E. subst y. exfalso. apply Hn. now left. }
    rewrite (Hskip l _ Hl), peer_at_update_object, Z.eqb_refl. reflexivity.
Qed.

Lemma fold_update_unvisited (f : HexPeer -> HexPeer) :
  forall (l : list Z) (st : HexMeshProtocol) (a : Z),
    ~ In a l ->
    peer_at (fold_left (fun st addr => update_object st addr f) l st) a = peer_at st a.
Proof.
  induction l as [ | y l IH]; intros st a Hn; [reflexivity | ].
  cbn [fold_left]. rewrite IH by (intros H; apply Hn; now right).
  rewrite peer_at_update_object.
  destruct (a =? y) eqn:E; [ | reflexivity].
  apply Z.eqb_eq in E. subst y. exfalso. apply Hn. now left.
Qed.

Lemma fold_update_backed (f : HexPeer -> HexPeer) :
  forall (l : list Z) (st : HexMeshProtocol) (a : Z),
    peer_at st a <> None ->
    peer_at (fold_left (fun st addr => update_object st addr f) l st) a <> None.
Proof.
  induction l as [ | y l IH]; intros st a Hn; [exact Hn | ].
  cbn [fold_left]. apply IH. rewrite peer_at_update_object.
  destruct (a =? y) eqn:E; [ | exact Hn].
  apply Z.eqb_eq in E. subst y. destruct (peer_at st a); [discriminate | congruence].
Qed.

Lemma update_object_backed hmp addr f : table_backed hmp -> table_backed (update_object hmp addr f).
Proof.
  intros Hb a Hin.
  destruct (update_object_frame hmp addr f) as (_ & Hp & _).
  unfold peer_addresses in Hin. rewrite Hp in Hin.
  rewrite peer_at_update_object. destruct (a =? addr) eqn:E; [ | now apply Hb].
  apply Z.eqb_eq in E. subst addr. specialize (Hb a Hin).
  destruct (peer_at hmp a); [discriminate | congruence].
Qed.

Lemma offer_bounded {A} (q : list A) (x : A) :
  (List.length q <= channelCapacity)%nat -> (List.length (offer q x) <= channelCapacity)%nat.
Proof.
  intros H. unfold offer.
  destruct (List.length q <? channelCapacity)%nat eqn:E; [ | exact H].
  apply Nat.ltb_lt in E. rewrite length_app. cbn. lia.
Qed.

Lemma tl_bounded {A} (q : list A) :
  (List.length q <= channelCapacity)%nat -> (List.length (tl q) <= channelCapacity)%nat.
Proof. destruct q; cbn; lia. Qed.

Section WithDecoders.
Variable decodeStatus : bytes -> option HexStatus.
Variable decodeBlock : bytes -> option core.HexBlock.
Variable decodeHeader : bytes -> option core.HexHeader.
Variable decodeRequest : bytes -> option (Z * Hash).
Variable decodeProof : bytes -> option core.HexaProof.
Variable decodeNeighbor : bytes -> option (core.HexCoordinate * Hash).
Variable decodeMeshState : bytes -> option (list Hash * list Hash).
Variable rlpHash : core.HexHeader -> Hash.

(** A handshake succeeds exactly on a status message of the same network. *)
Lemma handshake_ok_iff hmp peer sendErr received :
  snd (handshake decodeStatus hmp peer sendErr received) = Ok <->
  sendErr = None
  /\ exists msg st,
       received = inl msg /\ Code msg = HexStatusMsg
       /\ decodeStatus (Payload msg) = Some st
       /\ StatusNetworkID st = networkID hmp.
Proof.
  unfold handshake. destruct sendErr as [e | ].
  - split; [discriminate | intros [H _]; discriminate].
  - destruct received as [msg | e].
    + destruct (Code msg =? HexStatusMsg) eqn:E1; cbn [negb].
      * destruct (decodeStatus (Payload msg)) as [st | ] eqn:E2.
        -- destruct (StatusNetworkID st =? networkID hmp) eqn:E3; cbn [negb snd].
           ++ split; [ | reflexivity]. intros _. split; [reflexivity | ].
              exists msg, st. repeat split; try assumption; lia.
           ++ split; [discriminate | ].
              intros (_ & m & st' & Hm & _ & Hd & Hn). injection Hm as <-.
              rewrite E2 in Hd. injection Hd as <-. lia.
        -- split; [discriminate | ].
           intros (_ & m & st' & Hm & _ & Hd & _). injection Hm as <-. congruence.
      * split; [discriminate | ].
        intros (_ & m & st' & Hm & Hc & _). injection Hm as <-. lia.
    + split; [discriminate | ]. intros (_ & m & st' & Hm & _). discriminate.
Qed.

Lemma handshake_ok_peer hmp peer msg st :
  Code msg = HexStatusMsg -> decodeStatus (Payload msg) = Some st ->
  StatusNetworkID st = networkID hmp ->
  handshake decodeStatus hmp peer None (inl msg)
  = (place_peer (localPosition hmp) (Position st) (Head st) peer, Ok).
Proof.
  intros Hc Hd Hn. unfold handshake.
  apply Z.eqb_eq in Hc, Hn. rewrite Hc, Hd, Hn. reflexivity.
Qed.

Lemma AddPeer_cases hmp peerID now sendErr received :
  (snd (handshake decodeStatus hmp
          (mkHexPeer peerID (core.mkHexCoordinate 0 0 0) zero_hash 0 false 0 now [] 0)
          sendErr received) <> Ok
   /\ fst (AddPeer decodeStatus hmp peerID now sendErr received) = hmp
   /\ snd (AddPeer decodeStatus hmp peerID now sendErr received) <> Ok)
  \/ (exists msg st,
        sendErr = None /\ received = inl msg /\ Code msg = HexStatusMsg
        /\ decodeStatus (Payload msg) = Some st
        /\ StatusNetworkID st = networkID hmp
        /\ AddPeer decodeStatus hmp peerID now sendErr received
           = (mkHexMeshProtocol (config hmp)
                (zmap_put (peers hmp) peerID (nextAddress hmp))
                (zmap_put (objects hmp) (nextAddress hmp)
                   (place_peer (localPosition hmp) (Position st) (Head st)
                      (mkHexPeer peerID (core.mkHexCoordinate 0 0 0) zero_hash 0 false 0
                                 now [] 0)))
                (nextAddress hmp + 1) (localPosition hmp) (networkID hmp)
                (currentHead hmp) (blockCh hmp) (headerCh hmp)
                (blockHandler hmp) (headerHandler hmp),
              Ok)).
Proof.
  set (fresh := mkHexPeer peerID (core.mkHexCoordinate 0 0 0) zero_hash 0 false 0 now [] 0).
  destruct (snd (handshake decodeStatus hmp fresh sendErr received)) as [ | e] eqn:Hs.
  - right. apply handshake_ok_iff in Hs. destruct Hs as (-> & msg & st & -> & Hc & Hd & Hn).
    exists msg, st. repeat split; try assumption.
    unfold AddPeer. fold fresh. rewrite (handshake_ok_peer hmp fresh msg st Hc Hd Hn).
    reflexivity.
  - left. split; [discriminate | ].
    unfold AddPeer. fold fresh.
    destruct (handshake decodeStatus hmp fresh sendErr received) as [p r].
    cbn [snd] in Hs. subst r. cbn [fst snd]. split; [reflexivity | discriminate].
Qed.

(** X20.  [AddPeer] succeeds exactly when the status could be sent and the
    answer read is a status message that decodes and names the local network
    id; the peer's protocol version and genesis hash are not examined.  On
    failure the protocol state is unchanged, so a peer of another network is
    never entered in the table.  On success the table maps the peer's id to a
    peer object with the position and head of the status, the distance from
    the local position, the neighbor flag set exactly at distance 1, and no
    pending request. *)
Theorem AddPeer_outcome (hmp : HexMeshProtocol) (peerID now : Z)
        (sendErr : option net_error) (received : Msg + net_error) :
  let out := AddPeer decodeStatus hmp peerID now sendErr received in
  (snd out = Ok <->
   sendErr = None
   /\ exists msg st,
        received = inl msg /\ Code msg = HexStatusMsg
        /\ decodeStatus (Payload msg) = Some st
        /\ StatusNetworkID st = networkID hmp)
  /\ (snd out <> Ok -> fst out = hmp)
  /\ (forall msg st,
        sendErr = None -> received = inl msg -> Code msg = HexStatusMsg ->
        decodeStatus (Payload msg) = Some st -> StatusNetworkID st = networkID hmp ->
        exists addr p,
          zmap_get (peers (fst out)) peerID = Some addr
          /\ peer_at (fst out) addr = Some p
          /\ id p = peerID /\ position p = Position st /\ head p = Head st
          /\ distance p = core.Distance (localPosition hmp) (Position st)
          /\ isNeighbor p = (distance p =? 1)
          /\ lastSeen p = now /\ requests p = []).
Proof.
  intros out. subst out.
  destruct (AddPeer_cases hmp peerID now sendErr received)
    as [(Hno & Hst & Herr) | (msg & st & -> & -> & Hc & Hd & Hn & Heq)].
  - split; [ | split].
    + split; [intros H; contradiction | ].
      intros H. exfalso. apply Hno. apply handshake_ok_iff. exact H.
    + intros _. exact Hst.
    + intros msg st -> -> Hc Hd Hn. exfalso. apply Hno.
      apply handshake_ok_iff. split; [reflexivity | ]. exists msg, st. auto.
  - rewrite Heq. cbn [fst snd]. split; [ | split].
    + split; [ | reflexivity]. intros _. split; [reflexivity | ]. exists msg, st. auto.
    + intros H. contradiction.
    + intros msg' st' _ Hm _ Hd' _. injection Hm as <-. rewrite Hd in Hd'. injection Hd' as <-.
      eexists. eexists. split; [apply zmap_get_put_same | ].
      split; [unfold peer_at; cbn [objects]; apply zmap_get_put_same | ].
      unfold place_peer.
      cbn [id position head distance isNeighbor lastSeen requests].
      repeat split; reflexivity.
Qed.

Lemma invariant_same_view (a b : HexMeshProtocol) :
  peers b = peers a -> objects b = objects a -> localPosition b = localPosition a ->
  blockCh b = blockCh a -> headerCh b = headerCh a -> currentHead b = currentHead a ->
  networkID b = networkID a -> config b = config a ->
  invariant a -> invariant b.
Proof.
  intros Hp Ho Hl Hb Hh Hc Hn Hf (I1 & I2 & I3 & I4 & I5).
  split; [now apply (synced_same_view a b) | ].
  split; [ | split; [ | split; congruence] ].
  - intros addr Hin. unfold peer_addresses, peer_at in *. rewrite Hp in Hin. rewrite Ho.
    now apply I2.
  - unfold bounded_queues in *. now rewrite Hb, Hh.
Qed.

Lemma invariant_update_object hmp addr f :
  (forall p, peer_synced (localPosition hmp) p -> peer_synced (localPosition hmp) (f p)) ->
  invariant hmp -> invariant (update_object hmp addr f).
Proof.
  intros Hf (I1 & I2 & I3 & I4 & I5).
  destruct (update_object_frame hmp addr f) as (F1 & F2 & F3 & F4 & F5 & F6 & F7).
  split; [now apply synced_update_object | ].
  split; [now apply update_object_backed | ].
  split; [unfold bounded_queues in *; now rewrite F6, F7 | ].
  split; congruence.
Qed.

Lemma invariant_queue_block hmp q :
  (List.length q <= channelCapacity)%nat -> invariant hmp -> invariant (set_blockCh hmp q).
Proof.
  intros Hq (I1 & I2 & I3 & I4 & I5).
  split; [exact I1 | split; [exact I2 | split; [ | split; assumption] ] ].
  split; [exact Hq | apply I3].
Qed.

Lemma invariant_queue_header hmp q :
  (List.length q <= channelCapacity)%nat -> invariant hmp -> invariant (set_headerCh hmp q).
Proof.
  intros Hq (I1 & I2 & I3 & I4 & I5).
  split; [exact I1 | split; [exact I2 | split; [ | split; assumption] ] ].
  split; [apply I3 | exact Hq].
Qed.

Lemma invariant_handleMessage hmp peer now msg :
  invariant hmp ->
  invariant (fst (handleMessage decodeBlock decodeHeader decodeRequest decodeProof
                    decodeNeighbor decodeMeshState rlpHash hmp peer now msg)).
Proof.
  intros Hinv. unfold handleMessage.
  destruct (Code msg =? HexBlockMsg).
  { unfold handleHexBlock. destruct (decodeBlock (Payload msg)); [ | exact Hinv].
    cbn [fst]. apply invariant_queue_block.
    - apply offer_bounded.
      destruct (update_object_frame hmp peer (touch_peer now)) as (_ & _ & _ & _ & _ & F6 & _).
      rewrite F6. apply Hinv.
    - apply invariant_update_object; [intros p Hp; exact Hp | exact Hinv]. }
  destruct (Code msg =? HexHeaderMsg).
  { unfold handleHexHeader. destruct (decodeHeader (Payload msg)); [ | exact Hinv].
    cbn [fst]. apply invariant_queue_header.
    - apply offer_bounded.
      destruct (update_object_frame hmp peer (touch_peer now)) as (_ & _ & _ & _ & _ & _ & F7).
      rewrite F7. apply Hinv.
    - apply invariant_update_object; [intros p Hp; exact Hp | exact Hinv]. }
  destruct (Code msg =? HexBlockRequestMsg).
  { unfold handleBlockRequest. destruct (decodeRequest (Payload msg)); exact Hinv. }
  destruct (Code msg =? HexHeaderRequestMsg).
  { unfold handleHeaderRequest. destruct (decodeRequest (Payload msg)); exact Hinv. }
  destruct (Code msg =? HexProofMsg).
  { unfold handleHexProof. destruct (decodeProof (Payload msg)); exact Hinv. }
  destruct (Code msg =? HexNeighborMsg).
  { unfold handleNeighborUpdate.
    destruct (decodeNeighbor (Payload msg)) as [[pos hd] | ]; [ | exact Hinv].
    cbn [fst]. apply invariant_update_object; [ | exact Hinv].
    intros p _. apply place_peer_synced. }
  destruct (Code msg =? HexMeshStateMsg).
  { unfold handleMeshState. destruct (decodeMeshState (Payload msg)); exact Hinv. }
  exact Hinv.
Qed.

Lemma invariant_AddPeer hmp peerID now sendErr received :
  invariant hmp -> invariant (fst (AddPeer decodeStatus hmp peerID now sendErr received)).
Proof.
  intros Hinv.
  destruct (AddPeer_cases hmp peerID now sendErr received)
    as [(_ & -> & _) | (msg & st & _ & _ & _ & _ & _ & ->)];
    [exact Hinv | ].
  destruct Hinv as (I1 & I2 & I3 & I4 & I5).
  cbn [fst].
  assert (Haddr : forall a,
             In a (map snd (zmap_put (peers hmp) peerID (nextAddress hmp))) ->
             a = nextAddress hmp \/ In a (peer_addresses hmp)).
  { intros a [<- | Hin]; [now left | right]. now apply zmap_delete_incl in Hin. }
  split; [ | split; [ | split; [exact I3 | split; assumption] ] ].
  - intros a p Hin Hat. unfold peer_addresses, peer_at in Hin, Hat.
    cbn [peers objects localPosition] in *.
    destruct (Z.eq_dec a (nextAddress hmp)) as [-> | Hne].
    + rewrite zmap_get_put_same in Hat. injection Hat as <-. apply place_peer_synced.
    + rewrite zmap_get_put_other in Hat by exact Hne.
      destruct (Haddr a Hin) as [ | Hold]; [contradiction | ].
      exact (I1 a p Hold Hat).
  - intros a Hin. unfold peer_addresses, peer_at in *. cbn [peers objects] in *.
    destruct (Z.eq_dec a (nextAddress hmp)) as [-> | Hne].
    + rewrite zmap_get_put_same. discriminate.
    + rewrite zmap_get_put_other by exact Hne.
      destruct (Haddr a Hin) as [ | Hold]; [contradiction | ]. now apply I2.
Qed.

Lemma reachable_invariant hmp :
  reachable decodeStatus decodeBlock decodeHeader decodeRequest decodeProof
            decodeNeighbor decodeMeshState rlpHash hmp ->
  invariant hmp.
Proof.
  induction 1 as [cfg | hmp f _ IH | hmp f _ IH | hmp peerID now sendErr received _ IH
                  | hmp peerID _ IH | hmp peer now msg _ IH | hmp pos _ IH
                  | hmp now _ IH | hmp _ IH | hmp _ IH].
  - split; [intros a p [] | ]. split; [intros a [] | ].
    split; [split; apply Nat.le_0_l | ]. split; reflexivity.
  - apply (invariant_same_view hmp); try reflexivity. exact IH.
  - apply (invariant_same_view hmp); try reflexivity. exact IH.
  - now apply invariant_AddPeer.
  - destruct IH as (I1 & I2 & I3 & I4 & I5).
    split; [ | split; [ | split; [exact I3 | split; assumption] ] ].
    + intros a p Hin Hat. unfold peer_addresses in Hin. cbn [RemovePeer set_peers peers] in Hin.
      apply zmap_delete_incl in Hin. exact (I1 a p Hin Hat).
    + intros a Hin. unfold peer_addresses in Hin. cbn [RemovePeer set_peers peers] in Hin.
      apply zmap_delete_incl in Hin. exact (I2 a Hin).
  - now apply invariant_handleMessage.
  - destruct IH as (I1 & I2 & I3 & I4 & I5).
    destruct (SetLocalPosition_frame hmp pos) as (F1 & F2 & F3 & F4 & F5 & F6 & F7).
    split; [apply SetLocalPosition_synced | ].
    split; [ | split; [unfold bounded_queues in *; now rewrite F6, F7 | split; congruence] ].
    intros a Hin. unfold peer_addresses in Hin. rewrite F1 in Hin.
    unfold SetLocalPosition. apply fold_update_backed. exact (I2 a Hin).
  - destruct IH as (I1 & I2 & I3 & I4 & I5).
    destruct (cleanup_frame hmp now) as (F1 & F2 & F3 & F4 & F5 & F6 & F7).
    split; [now apply cleanup_synced | ].
    split; [ | split; [unfold bounded_queues in *; now rewrite F6, F7 | split; congruence] ].
    intros a Hin. unfold peer_addresses in Hin. rewrite F2 in Hin.
    unfold cleanupStaleRequests. apply fold_update_backed. exact (I2 a Hin).
  - apply invariant_queue_block; [apply tl_bounded; apply IH | exact IH].
  - apply invariant_queue_header; [apply tl_bounded; apply IH | exact IH].
Qed.

(** X21.  In every state the protocol reaches from [NewHexMeshProtocol]
    through its operations, run one at a time, each peer of the table has its object, the
    object's distance is the distance from the current local position to the
    peer's position and its neighbor flag is set exactly at distance 1; the
    block and header channels hold at most 100 entries; and the status the
    node sends carries the zero hash as head and as genesis, and the network
    id of the configuration. *)
Theorem reachable_states_consistent (hmp : HexMeshProtocol) :
  reachable decodeStatus decodeBlock decodeHeader decodeRequest decodeProof
            decodeNeighbor decodeMeshState rlpHash hmp ->
  synced hmp /\ table_backed hmp /\ bounded_queues hmp
  /\ Head (local_status hmp) = zero_hash
  /\ Genesis (local_status hmp) = zero_hash
  /\ StatusNetworkID (local_status hmp) = NetworkID (config hmp).
Proof.
  intros Hr. destruct (reachable_invariant hmp Hr) as (I1 & I2 & I3 & I4 & I5).
  unfold local_status. cbn [Head Genesis StatusNetworkID]. auto 10.
Qed.

(** X22.  In every reachable state [BroadcastHexBlock] sends the block to
    exactly the peers of the table within distance 3 of the local position
    (a peer at the node's own position among them), so the neighbor test in
    its condition adds nobody; [GetNeighborPeers] returns exactly the peers
    at distance 1, all of which are sent the block; and [BroadcastHexHeader]
    sends the header to every peer of the table. *)
Theorem broadcast_recipients (hmp : HexMeshProtocol) :
  reachable decodeStatus decodeBlock decodeHeader decodeRequest decodeProof
            decodeNeighbor decodeMeshState rlpHash hmp ->
  forall addr,
    (In addr (BroadcastHexBlock hmp) <->
     In addr (peer_addresses hmp)
     /\ exists p, peer_at hmp addr = Some p
                  /\ core.Distance (localPosition hmp) (position p) <= 3)
    /\ (In addr (GetNeighborPeers hmp) <->
        In addr (peer_addresses hmp)
        /\ exists p, peer_at hmp addr = Some p
                     /\ core.Distance (localPosition hmp) (position p) = 1)
    /\ (In addr (GetNeighborPeers hmp) -> In addr (BroadcastHexBlock hmp))
    /\ (In addr (BroadcastHexHeader hmp) <-> In addr (peer_addresses hmp)).
Proof.
  intros Hr addr. destruct (reachable_invariant hmp Hr) as (Hs & Hb & _).
  unfold BroadcastHexBlock, GetNeighborPeers, BroadcastHexHeader, select_peers.
  rewrite !filter_In.
  assert (Hcase : In addr (peer_addresses hmp) ->
                  exists p, peer_at hmp addr = Some p
                            /\ peer_synced (localPosition hmp) p).
  { intros Hin. specialize (Hb addr Hin).
    destruct (peer_at hmp addr) as [p | ] eqn:E; [ | congruence].
    exists p. split; [reflexivity | exact (Hs addr p Hin E)]. }
  split; [ | split; [ | split] ].
  - split.
    + intros [Hin Hk]. split; [exact Hin | ].
      destruct (Hcase Hin) as (p & Hp & Hd & Hn). rewrite Hp in Hk. exists p.
      split; [exact Hp | ]. rewrite <- Hd. rewrite Hn in Hk.
      destruct (Z.eqb_spec (distance p) 1); [lia | ].
      cbn [orb] in Hk. now apply Z.leb_le.
    + intros [Hin (p & Hp & Hle)]. split; [exact Hin | ].
      destruct (Hcase Hin) as (q & Hq & Hd & Hn). rewrite Hq in Hp. injection Hp as ->.
      rewrite Hq. rewrite <- Hd in Hle. apply Z.leb_le in Hle. rewrite Hle.
      apply orb_true_r.
  - split.
    + intros [Hin Hk]. split; [exact Hin | ].
      destruct (Hcase Hin) as (p & Hp & Hd & Hn). rewrite Hp in Hk. exists p.
      split; [exact Hp | ]. rewrite <- Hd. rewrite Hn in Hk. now apply Z.eqb_eq.
    + intros [Hin (p & Hp & Heq)]. split; [exact Hin | ].
      destruct (Hcase Hin) as (q & Hq & Hd & Hn). rewrite Hq in Hp. injection Hp as ->.
      rewrite Hq, Hn. apply Z.eqb_eq. now rewrite Hd.
  - intros [Hin Hk]. split; [exact Hin | ].
    destruct (peer_at hmp addr) as [p | ]; [ | discriminate]. now rewrite Hk.
  - split; [tauto | ]. intros Hin. split; [exact Hin | ].
    destruct (Hcase Hin) as (p & -> & _). reflexivity.
Qed.

Lemma handleMessage_frame hmp peer now msg :
  peers (fst (handleMessage decodeBlock decodeHeader decodeRequest decodeProof
                decodeNeighbor decodeMeshState rlpHash hmp peer now msg)) = peers hmp
  /\ localPosition (fst (handleMessage decodeBlock decodeHeader decodeRequest decodeProof
                           decodeNeighbor decodeMeshState rlpHash hmp peer now msg))
     = localPosition hmp.
Proof.
  unfold handleMessage.
  destruct (Code msg =? HexBlockMsg).
  { unfold handleHexBlock. destruct (decodeBlock (Payload msg)); [ | split; reflexivity].
    destruct (update_object_frame hmp peer (touch_peer now)) as (_ & F2 & F3 & _).
    cbn [fst set_blockCh peers localPosition]. split; assumption. }
  destruct (Code msg =? HexHeaderMsg).
  { unfold handleHexHeader. destruct (decodeHeader (Payload msg)); [ | split; reflexivity].
    destruct (update_object_frame hmp peer (touch_peer now)) as (_ & F2 & F3 & _).
    cbn [fst set_headerCh peers localPosition]. split; assumption. }
  destruct (Code msg =? HexBlockRequestMsg).
  { unfold handleBlockRequest. destruct (decodeRequest (Payload msg)); split; reflexivity. }
  destruct (Code msg =? HexHeaderRequestMsg).
  { unfold handleHeaderRequest. destruct (decodeRequest (Payload msg)); split; reflexivity. }
  destruct (Code msg =? HexProofMsg).
  { unfold handleHexProof. destruct (decodeProof (Payload msg)); split; reflexivity. }
  destruct (Code msg =? HexNeighborMsg).
  { unfold handleNeighborUpdate.
    destruct (decodeNeighbor (Payload msg)) as [[pos hd] | ]; [ | split; reflexivity].
    cbn [fst].
    destruct (update_object_frame hmp peer
                (fun p => touch_peer now (place_peer (localPosition hmp) pos hd p)))
      as (_ & F2 & F3 & _).
    split; assumption. }
  destruct (Code msg =? HexMeshStateMsg).
  { unfold handleMeshState. destruct (decodeMeshState (Payload msg)); split; reflexivity. }
  split; reflexivity.
Qed.

Lemma run_handler_not_decode {A} (handler : option (A -> core.res)) (x : A) :
  run_handler handler x <> Err ErrDecode.
Proof.
  unfold run_handler. destruct handler as [f | ]; [ | discriminate].
  destruct (f x); discriminate.
Qed.

(** X23.  [handleMessage] answers a message whose code is none of its seven
    cases, the status code 0x15 among them, with the unknown-code error and
    leaves the state as it is; request, proof and mesh-state messages never
    change the state; a message that fails to decode changes nothing; and no
    message changes the peer table or the local position. *)
Theorem handleMessage_effects (hmp : HexMeshProtocol) (peer now : Z) (msg : Msg) :
  let out := handleMessage decodeBlock decodeHeader decodeRequest decodeProof
               decodeNeighbor decodeMeshState rlpHash hmp peer now msg in
  (Code msg < 0x10 \/ Code msg = HexStatusMsg \/ 0x17 < Code msg ->
   out = (hmp, Err (ErrUnknownMessageCode (Code msg))))
  /\ (Code msg = HexBlockRequestMsg \/ Code msg = HexHeaderRequestMsg
      \/ Code msg = HexProofMsg \/ Code msg = HexMeshStateMsg ->
      fst out = hmp)
  /\ (snd out = Err ErrDecode -> fst out = hmp)
  /\ peers (fst out) = peers hmp
  /\ localPosition (fst out) = localPosition hmp.
Proof.
  intros out. subst out.
  split; [ | split; [ | split; [ | apply handleMessage_frame] ] ].
  - intros Hc. unfold handleMessage.
    unfold HexBlockMsg, HexHeaderMsg, HexBlockRequestMsg, HexHeaderRequestMsg,
      HexProofMsg, HexStatusMsg, HexNeighborMsg, HexMeshStateMsg in *.
    repeat match goal with
           | |- context [Code msg =? ?c] =>
               destruct (Z.eqb_spec (Code msg) c); [exfalso; lia | ]
           end.
    reflexivity.
  - intros Hc. unfold handleMessage.
    unfold HexBlockMsg, HexHeaderMsg, HexBlockRequestMsg, HexHeaderRequestMsg,
      HexProofMsg, HexStatusMsg, HexNeighborMsg, HexMeshStateMsg in *.
    destruct (Z.eqb_spec (Code msg) 16); [exfalso; lia | ].
    destruct (Z.eqb_spec (Code msg) 17); [exfalso; lia | ].
    destruct (Z.eqb_spec (Code msg) 18).
    { unfold handleBlockRequest. now destruct (decodeRequest (Payload msg)). }
    destruct (Z.eqb_spec (Code msg) 19).
    { unfold handleHeaderRequest. now destruct (decodeRequest (Payload msg)). }
    destruct (Z.eqb_spec (Code msg) 20).
    { unfold handleHexProof. now destruct (decodeProof (Payload msg)). }
    destruct (Z.eqb_spec (Code msg) 22); [exfalso; lia | ].
    destruct (Z.eqb_spec (Code msg) 23).
    { unfold handleMeshState. now destruct (decodeMeshState (Payload msg)). }
    exfalso. lia.
  - unfold handleMessage.
    destruct (Code msg =? HexBlockMsg).
    { unfold handleHexBlock. destruct (decodeBlock (Payload msg)); [ | reflexivity].
      cbn [fst snd]. intros H. now apply run_handler_not_decode in H. }
    destruct (Code msg =? HexHeaderMsg).
    { unfold handleHexHeader. destruct (decodeHeader (Payload msg)); [ | reflexivity].
      cbn [fst snd]. intros H. now apply run_handler_not_decode in H. }
    destruct (Code msg =? HexBlockRequestMsg).
    { unfold handleBlockRequest. now destruct (decodeRequest (Payload msg)). }
    destruct (Code msg =? HexHeaderRequestMsg).
    { unfold handleHeaderRequest. now destruct (decodeRequest (Payload msg)). }
    destruct (Code msg =? HexProofMsg).
    { unfold handleHexProof. now destruct (decodeProof (Payload msg)). }
    destruct (Code msg =? HexNeighborMsg).
    { unfold handleNeighborUpdate.
      now destruct (decodeNeighbor (Payload msg)) as [[pos hd] | ]. }
    destruct (Code msg =? HexMeshStateMsg).
    { unfold handleMeshState. now destruct (decodeMeshState (Payload msg)). }
    reflexivity.
Qed.

Lemma handleMessage_keeps_id hmp peer now msg p :
  peer_at hmp peer = Some p ->
  exists p',
    peer_at (fst (handleMessage decodeBlock decodeHeader decodeRequest decodeProof
                    decodeNeighbor decodeMeshState rlpHash hmp peer now msg)) peer = Some p'
    /\ id p' = id p.
Proof.
  intros Hp.
  assert (Hupd : forall f, (forall q, id (f q) = id q) ->
                   exists p', peer_at (update_object hmp peer f) peer = Some p'
                              /\ id p' = id p).
  { intros f Hf. rewrite peer_at_update_object, Z.eqb_refl, Hp. cbn.
    exists (f p). split; [reflexivity | apply Hf]. }
  assert (Hsame : exists p', peer_at hmp peer = Some p' /\ id p' = id p)
    by (exists p; split; [exact Hp | reflexivity]).
  unfold handleMessage.
  destruct (Code msg =? HexBlockMsg).
  { unfold handleHexBlock. destruct (decodeBlock (Payload msg)); [ | exact Hsame].
    cbn [fst]. apply (Hupd (touch_peer now)). reflexivity. }
  destruct (Code msg =? HexHeaderMsg).
  { unfold handleHexHeader. destruct (decodeHeader (Payload msg)); [ | exact Hsame].
    cbn [fst]. apply (Hupd (touch_peer now)). reflexivity. }
  destruct (Code msg =? HexBlockRequestMsg).
  { unfold handleBlockRequest. destruct (decodeRequest (Payload msg)); exact Hsame. }
  destruct (Code msg =? HexHeaderRequestMsg).
  { unfold handleHeaderRequest. destruct (decodeRequest (Payload msg)); exact Hsame. }
  destruct (Code msg =? HexProofMsg).
  { unfold handleHexProof. destruct (decodeProof (Payload msg)); exact Hsame. }
  destruct (Code msg =? HexNeighborMsg).
  { unfold handleNeighborUpdate.
    destruct (decodeNeighbor (Payload msg)) as [[pos hd] | ]; [ | exact Hsame].
    cbn [fst]. apply Hupd. reflexivity. }
  destruct (Code msg =? HexMeshStateMsg).
  { unfold handleMeshState. destruct (decodeMeshState (Payload msg)); exact Hsame. }
  exact Hsame.
Qed.

(** X24.  When the connection of a peer fails to read at some point,
    [handlePeer] ends (at that read, or earlier at a message that failed) and
    leaves no entry in the table under the id of its peer object: the entry
    is removed by id, whichever peer object it refers to at that time. *)
Theorem handlePeer_removes_peer (events : list (Z * (Msg + net_error)))
        (hmp : HexMeshProtocol) (peer : Z) (p : HexPeer) :
  peer_at hmp peer = Some p ->
  read_fails events ->
  zmap_get (peers (handlePeer decodeBlock decodeHeader decodeRequest decodeProof
                     decodeNeighbor decodeMeshState rlpHash hmp peer events)) (id p)
  = None.
Proof.
  revert hmp p.
  induction events as [ | [now [msg | e]] rest IH]; intros hmp p Hp Hf.
  - inversion Hf.
  - cbn [handlePeer].
    destruct (handleMessage_keeps_id hmp peer now msg p Hp) as (p' & Hp' & Hid).
    destruct (handleMessage decodeBlock decodeHeader decodeRequest decodeProof
                decodeNeighbor decodeMeshState rlpHash hmp peer now msg) as [hmp' r].
    cbn [fst] in Hp'. destruct r as [ | err].
    + rewrite <- Hid. apply IH; [exact Hp' | ].
      inversion Hf as [ev l (e & He) | ev l Hl]; subst; [discriminate He | exact Hl].
    + unfold drop_peer. unfold peer_at in Hp'. rewrite Hp', Hid.
      cbn [RemovePeer set_peers peers]. apply zmap_get_delete_same.
  - cbn [handlePeer]. unfold drop_peer. unfold peer_at in Hp. rewrite Hp.
    cbn [RemovePeer set_peers peers]. apply zmap_get_delete_same.
Qed.

End WithDecoders.

Lemma filter_idem {A} (g : A -> bool) (l : list A) : filter g (filter g l) = filter g l.
Proof.
  induction l as [ | x l IH]; [reflexivity | ]. cbn [filter].
  destruct (g x) eqn:E; [ | exact IH]. cbn [filter]. now rewrite E, IH.
Qed.

Lemma stale_iff now req :
  stale now req = true <-> now - Timestamp req > RequestTimeout * Second.
Proof.
  unfold stale, Sub, minDuration, maxDuration, RequestTimeout, Second.
  destruct (Z.ltb_spec (now - Timestamp req) (- 9223372036854775808)) as [Hlow | Hlow];
    [split; [intros G; apply Z.gtb_lt in G; lia | lia] | ].
  destruct (now - Timestamp req >? 9223372036854775807) eqn:E.
  - apply Z.gtb_lt in E. split; [lia | reflexivity].
  - split; [intros G; apply Z.gtb_lt in G; lia | intros G; apply Z.gtb_lt; lia].
Qed.

(** X25.  [SetLocalPosition] sets the local position and recomputes, for
    every peer of the table, the distance from the new position and the
    neighbor flag, leaving the peer's id, position, head, last-seen time and
    requests; the table itself is unchanged, and so is every peer object that
    is no longer in the table.  Afterwards [BroadcastHexBlock] sends to
    exactly the backed peers of the table within distance 3 of the new
    position. *)
Theorem SetLocalPosition_effect (hmp : HexMeshProtocol) (pos : core.HexCoordinate) :
  let hmp' := SetLocalPosition hmp pos in
  localPosition hmp' = pos
  /\ peers hmp' = peers hmp
  /\ (forall addr p,
        In addr (peer_addresses hmp) -> peer_at hmp addr = Some p ->
        exists p', peer_at hmp' addr = Some p'
                   /\ distance p' = core.Distance pos (position p)
                   /\ isNeighbor p' = (core.Distance pos (position p) =? 1)
                   /\ id p' = id p /\ position p' = position p /\ head p' = head p
                   /\ lastSeen p' = lastSeen p /\ requests p' = requests p)
  /\ (forall addr, ~ In addr (peer_addresses hmp) -> peer_at hmp' addr = peer_at hmp addr)
  /\ (forall addr,
        In addr (BroadcastHexBlock hmp') <->
        In addr (peer_addresses hmp)
        /\ exists p, peer_at hmp addr = Some p /\ core.Distance pos (position p) <= 3).
Proof.
  intros hmp'. subst hmp'.
  destruct (SetLocalPosition_frame hmp pos) as (F1 & F2 & _).
  set (f := fun p : HexPeer => place_peer pos (position p) (head p) p).
  assert (Hidem : forall p, f (f p) = f p).
  { intros p. exact (place_peer_again pos p). }
  assert (Hfields : forall p,
             distance (f p) = core.Distance pos (position p)
             /\ isNeighbor (f p) = (core.Distance pos (position p) =? 1)
             /\ id (f p) = id p /\ position (f p) = position p /\ head (f p) = head p
             /\ lastSeen (f p) = lastSeen p /\ requests (f p) = requests p).
  { intros p. exact (place_peer_fields pos (position p) (head p) p). }
  assert (Hin : forall addr, In addr (peer_addresses hmp) ->
                  peer_at (SetLocalPosition hmp pos) addr = option_map f (peer_at hmp addr)).
  { intros addr Ha. unfold SetLocalPosition. fold f.
    exact (fold_update_visited f Hidem _ _ addr Ha). }
  clearbody f.
  split; [exact F2 | ]. split; [exact F1 | ]. split; [ | split].
  - intros addr p Ha Hp. rewrite (Hin addr Ha), Hp. cbn [option_map].
    exists (f p). split; [reflexivity | exact (Hfields p)].
  - intros addr Ha. unfold SetLocalPosition.
    rewrite fold_update_unvisited by exact Ha. reflexivity.
  - intros addr. unfold BroadcastHexBlock.
    assert (Hpa : peer_addresses (SetLocalPosition hmp pos) = peer_addresses hmp)
      by (unfold peer_addresses; now rewrite F1).
    split.
    + intros Hsel. apply select_peers_iff in Hsel. destruct Hsel as (Ha & q & Hq & Hk).
      rewrite Hpa in Ha. split; [exact Ha | ].
      pose proof (Hin addr Ha) as E. rewrite Hq in E.
      destruct (peer_at hmp addr) as [p | ]; [ | discriminate]. exists p.
      split; [reflexivity | ]. cbn [option_map] in E. injection E as ->.
      destruct (Hfields p) as (Hd & Hn & _). rewrite Hd, Hn in Hk.
      destruct (Z.eqb_spec (core.Distance pos (position p)) 1) as [Heq | Hne];
        [rewrite Heq; discriminate | ].
      cbn [orb] in Hk. now apply Z.leb_le.
    + intros [Ha (p & Hp & Hle)]. apply select_peers_iff.
      split; [now rewrite Hpa | ]. exists (f p).
      split; [rewrite (Hin addr Ha), Hp; reflexivity | ].
      destruct (Hfields p) as (Hd & Hn & _). rewrite Hd, Hn.
      apply Z.leb_le in Hle. rewrite Hle. apply orb_true_r.
Qed.

(** X26.  [cleanupStaleRequests] at time [now] keeps, for every peer of the
    table, exactly the pending requests that are at most 30 seconds old (a
    request exactly 30 seconds old is kept) and nothing else of the peer
    changes; the table is unchanged, and the requests of a peer object that
    is no longer in the table are not cleaned. *)
Theorem cleanupStaleRequests_effect (hmp : HexMeshProtocol) (now : Z) :
  let hmp' := cleanupStaleRequests hmp now in
  peers hmp' = peers hmp
  /\ (forall addr p,
        In addr (peer_addresses hmp) -> peer_at hmp addr = Some p ->
        exists p', peer_at hmp' addr = Some p'
                   /\ (forall k req,
                         In (k, req) (requests p') <->
                         In (k, req) (requests p)
                         /\ now - Timestamp req <= 30 * 1000000000)
                   /\ id p' = id p /\ position p' = position p /\ head p' = head p
                   /\ distance p' = distance p /\ isNeighbor p' = isNeighbor p
                   /\ lastSeen p' = lastSeen p)
  /\ (forall addr, ~ In addr (peer_addresses hmp) -> peer_at hmp' addr = peer_at hmp addr).
Proof.
  intros hmp'. subst hmp'.
  destruct (cleanup_frame hmp now) as (_ & F2 & _).
  set (f := fun p : HexPeer =>
              set_requests p (filter (fun kv => negb (stale now (snd kv))) (requests p))).
  assert (Hidem : forall p, f (f p) = f p).
  { intros p. unfold f, set_requests.
    cbn [id position head difficulty isNeighbor distance lastSeen requests reqID].
    now rewrite filter_idem. }
  split; [exact F2 | ]. split.
  - intros addr p Ha Hp. unfold cleanupStaleRequests. fold f.
    rewrite (fold_update_visited f Hidem _ _ addr Ha), Hp. cbn [option_map].
    exists (f p). split; [reflexivity | ]. unfold f, set_requests.
    cbn [id position head isNeighbor distance lastSeen requests].
    split; [ | repeat split; reflexivity].
    intros k req. rewrite filter_In. cbn [snd].
    pose proof (stale_iff now req) as Hst. unfold RequestTimeout, Second in Hst.
    destruct (stale now req); cbn [negb].
    + split; [intros [_ H]; discriminate | ].
      intros [_ H]. assert (now - Timestamp req > 30 * 1000000000) by now apply Hst. lia.
    + split; [ | tauto]. intros [Hi _]. split; [exact Hi | ].
      destruct (Z_le_gt_dec (now - Timestamp req) (30 * 1000000000)) as [Hle | Hgt];
        [exact Hle | ].
      apply Hst in Hgt. discriminate.
  - intros addr Ha. unfold cleanupStaleRequests.
    rewrite fold_update_unvisited by exact Ha. reflexivity.
Qed.

Lemma reachable_states_consistent_witness :
  synced Samples.mesh_with_peer /\ table_backed Samples.mesh_with_peer
  /\ bounded_queues Samples.mesh_with_peer
  /\ Head (local_status Samples.mesh_with_peer) = zero_hash
  /\ Genesis (local_status Samples.mesh_with_peer) = zero_hash
  /\ StatusNetworkID (local_status Samples.mesh_with_peer)
     = NetworkID (config Samples.mesh_with_peer).
Proof.
  apply (reachable_states_consistent
           (fun _ => Some (Samples.status_at (core.NewHexCoordinate 1 0)))
           (fun _ => None) (fun _ => None) (fun _ => None) (fun _ => None)
           (fun _ => None) (fun _ => None) (fun _ => 0)).
  unfold Samples.mesh_with_peer. apply reach_add. apply reach_new.
Defined.

Lemma broadcast_recipients_witness :
  In 0 (BroadcastHexBlock Samples.mesh_with_peer).
Proof.
  assert (Hr : reachable (fun _ => Some (Samples.status_at (core.NewHexCoordinate 1 0)))
                 (fun _ => None) (fun _ => None) (fun _ => None) (fun _ => None)
                 (fun _ => None) (fun _ => None) (fun _ => 0) Samples.mesh_with_peer).
  { unfold Samples.mesh_with_peer. apply reach_add. apply reach_new. }
  destruct (broadcast_recipients _ _ _ _ _ _ _ _ Samples.mesh_with_peer Hr 0)
    as (Hblock & _).
  apply Hblock. split; [left; reflexivity | ].
  eexists. split; [reflexivity | ]. vm_compute. discriminate.
Defined.

Lemma handlePeer_removes_peer_witness :
  zmap_get
    (peers (handlePeer (fun _ => None) (fun _ => None) (fun _ => None) (fun _ => None)
              (fun _ => None) (fun _ => None) (fun _ => 0)
              Samples.mesh_with_peer 0 [(2000, inr (ErrIO "EOF"))]))
    7 = None.
Proof.
  apply (handlePeer_removes_peer (fun _ => None) (fun _ => None) (fun _ => None)
           (fun _ => None) (fun _ => None) (fun _ => None) (fun _ => 0)
           [(2000, inr (ErrIO "EOF"))] Samples.mesh_with_peer 0
           (place_peer (core.NewHexCoordinate 0 0) (core.NewHexCoordinate 1 0) zero_hash
              (mkHexPeer 7 (core.mkHexCoordinate 0 0 0) zero_hash 0 false 0 1000 [] 0))).
  - reflexivity.
  - apply Exists_cons_hd. exists (ErrIO "EOF"). reflexivity.
Defined.

Lemma idle_update_object hmp addr f :
  (forall p, requests p = [] -> requests (f p) = []) ->
  idle hmp -> idle (update_object hmp addr f).
Proof.
  intros Hf Hs a p Hin Hat.
  destruct (update_object_frame hmp addr f) as (_ & Hp & _).
  unfold peer_addresses in Hin. rewrite Hp in Hin.
  rewrite peer_at_update_object in Hat.
  destruct (a =? addr) eqn:E.
  - apply Z.eqb_eq in E. subst addr.
    destruct (peer_at hmp a) as [q | ] eqn:Hq; [ | discriminate]. injection Hat as <-.
    apply Hf. now apply (Hs a).
  - now apply (Hs a).
Qed.

Lemma idle_same_view (a b : HexMeshProtocol) :
  peers b = peers a -> objects b = objects a -> idle a -> idle b.
Proof.
  intros Hp Ho H addr p Hin Hat. unfold peer_addresses, peer_at in *.
  rewrite Hp in Hin. rewrite Ho in Hat. exact (H addr p Hin Hat).
Qed.

Lemma idle_fold (f : HexPeer -> HexPeer) hmp st :
  (forall p, requests p = [] -> requests (f p) = []) ->
  peers st = peers hmp -> objects st = objects hmp ->
  idle hmp ->
  forall hmp',
    hmp' = fold_left (fun st addr => update_object st addr f) (peer_addresses hmp) st ->
    peers hmp' = peers hmp ->
    idle hmp'.
Proof.
  intros Hf Hp Ho Hi hmp' Heq Hp' a p Hin Hat.
  unfold peer_addresses in Hin. rewrite Hp' in Hin. subst hmp'.
  apply (fold_update_keeps f (fun q => requests q = []) Hf (peer_addresses hmp) st a p);
    [ | exact Hat].
  intros q Hq. unfold peer_at in Hq. rewrite Ho in Hq. exact (Hi a q Hin Hq).
Qed.

Lemma set_requests_same p : requests p = [] -> set_requests p [] = p.
Proof. destruct p as [i ps hd df nb ds ls rq ri]. cbn. now intros ->. Qed.

Section Requests.
Variable decodeStatus : bytes -> option HexStatus.
Variable decodeBlock : bytes -> option core.HexBlock.
Variable decodeHeader : bytes -> option core.HexHeader.
Variable decodeRequest : bytes -> option (Z * Hash).
Variable decodeProof : bytes -> option core.HexaProof.
Variable decodeNeighbor : bytes -> option (core.HexCoordinate * Hash).
Variable decodeMeshState : bytes -> option (list Hash * list Hash).
Variable rlpHash : core.HexHeader -> Hash.

Lemma idle_handleMessage hmp peer now msg :
  idle hmp ->
  idle (fst (handleMessage decodeBlock decodeHeader decodeRequest decodeProof
               decodeNeighbor decodeMeshState rlpHash hmp peer now msg)).
Proof.
  intros Hi. unfold handleMessage.
  destruct (Code msg =? HexBlockMsg).
  { unfold handleHexBlock. destruct (decodeBlock (Payload msg)); [ | exact Hi].
    cbn [fst]. apply (idle_same_view (update_object hmp peer (touch_peer now)));
      [reflexivity | reflexivity | ].
    apply idle_update_object; [intros p Hp; exact Hp | exact Hi]. }
  destruct (Code msg =? HexHeaderMsg).
  { unfold handleHexHeader. destruct (decodeHeader (Payload msg)); [ | exact Hi].
    cbn [fst]. apply (idle_same_view (update_object hmp peer (touch_peer now)));
      [reflexivity | reflexivity | ].
    apply idle_update_object; [intros p Hp; exact Hp | exact Hi]. }
  destruct (Code msg =? HexBlockRequestMsg).
  { unfold handleBlockRequest. destruct (decodeRequest (Payload msg)); exact Hi. }
  destruct (Code msg =? HexHeaderRequestMsg).
  { unfold handleHeaderRequest. destruct (decodeRequest (Payload msg)); exact Hi. }
  destruct (Code msg =? HexProofMsg).
  { unfold handleHexProof. destruct (decodeProof (Payload msg)); exact Hi. }
  destruct (Code msg =? HexNeighborMsg).
  { unfold handleNeighborUpdate.
    destruct (decodeNeighbor (Payload msg)) as [[pos hd] | ]; [ | exact Hi].
    cbn [fst]. apply idle_update_object; [intros p Hp; exact Hp | exact Hi]. }
  destruct (Code msg =? HexMeshStateMsg).
  { unfold handleMeshState. destruct (decodeMeshState (Payload msg)); exact Hi. }
  exact Hi.
Qed.

Lemma reachable_idle hmp :
  reachable decodeStatus decodeBlock decodeHeader decodeRequest decodeProof
            decodeNeighbor decodeMeshState rlpHash hmp ->
  idle hmp.
Proof.
  induction 1 as [cfg | hmp f _ IH | hmp f _ IH | hmp peerID now sendErr received _ IH
                  | hmp peerID _ IH | hmp peer now msg _ IH | hmp pos _ IH
                  | hmp now _ IH | hmp _ IH | hmp _ IH].
  - intros a p [].
  - apply (idle_same_view hmp); [reflexivity | reflexivity | exact IH].
  - apply (idle_same_view hmp); [reflexivity | reflexivity | exact IH].
  - destruct (AddPeer_cases decodeStatus hmp peerID now sendErr received)
      as [(_ & -> & _) | (msg & st & _ & _ & _ & _ & _ & ->)]; [exact IH | ].
    cbn [fst]. intros a p Hin Hat. unfold peer_addresses, peer_at in Hin, Hat.
    cbn [peers objects] in *.
    destruct (Z.eq_dec a (nextAddress hmp)) as [-> | Hne].
    + rewrite zmap_get_put_same in Hat. injection Hat as <-. reflexivity.
    + rewrite zmap_get_put_other in Hat by exact Hne.
      destruct Hin as [Heq | Hin]; [cbn in Heq; congruence | ].
      apply zmap_delete_incl in Hin. exact (IH a p Hin Hat).
  - intros a p Hin Hat. unfold peer_addresses in Hin. cbn [RemovePeer set_peers peers] in Hin.
    apply zmap_delete_incl in Hin. exact (IH a p Hin Hat).
  - now apply idle_handleMessage.
  - destruct (SetLocalPosition_frame hmp pos) as (F1 & _).
    eapply (idle_fold (fun p => place_peer pos (position p) (head p) p) hmp);
      [ | | | exact IH | unfold SetLocalPosition; reflexivity | exact F1];
      [intros p Hp; exact Hp | reflexivity | reflexivity].
  - destruct (cleanup_frame hmp now) as (_ & F2 & _).
    eapply (idle_fold _ hmp hmp);
      [ | | | exact IH | unfold cleanupStaleRequests; reflexivity | exact F2];
      [ | reflexivity | reflexivity].
    intros p Hp. unfold set_requests. cbn [requests]. now rewrite Hp.
  - apply (idle_same_view hmp); [reflexivity | reflexivity | exact IH].
  - apply (idle_same_view hmp); [reflexivity | reflexivity | exact IH].
Qed.

(** X27.  No operation of the protocol registers a pending request: in every
    state reached with the operations run one at a time, no peer of the table
    has one, so [cleanupStaleRequests] finds nothing to delete and leaves
    every peer object as it is. *)
Theorem requests_stay_empty (hmp : HexMeshProtocol) :
  reachable decodeStatus decodeBlock decodeHeader decodeRequest decodeProof
            decodeNeighbor decodeMeshState rlpHash hmp ->
  (forall addr p,
      In addr (peer_addresses hmp) -> peer_at hmp addr = Some p -> requests p = [])
  /\ (forall now addr, peer_at (cleanupStaleRequests hmp now) addr = peer_at hmp addr).
Proof.
  intros Hr. pose proof (reachable_idle hmp Hr) as Hi. split; [exact Hi | ].
  intros now addr. unfold cleanupStaleRequests.
  set (f := fun p : HexPeer =>
              set_requests p (filter (fun kv => negb (stale now (snd kv))) (requests p))).
  assert (Hidem : forall p, f (f p) = f p).
  { intros p. unfold f, set_requests.
    cbn [id position head difficulty isNeighbor distance lastSeen requests reqID].
    now rewrite filter_idem. }
  destruct (in_dec Z.eq_dec addr (peer_addresses hmp)) as [Hin | Hout].
  - rewrite (fold_update_visited f Hidem _ _ addr Hin).
    destruct (peer_at hmp addr) as [p | ] eqn:Hp; [ | reflexivity].
    cbn [option_map]. unfold f. rewrite (Hi addr p Hin Hp). cbn [filter].
    now rewrite set_requests_same by exact (Hi addr p Hin Hp).
  - now rewrite fold_update_unvisited by exact Hout.
Qed.

End Requests.

Lemma requests_stay_empty_witness :
  peer_at (cleanupStaleRequests Samples.mesh_with_peer 5000) 0
  = peer_at Samples.mesh_with_peer 0.
Proof.
  assert (Hr : reachable (fun _ => Some (Samples.status_at (core.NewHexCoordinate 1 0)))
                 (fun _ => None) (fun _ => None) (fun _ => None) (fun _ => None)
                 (fun _ => None) (fun _ => None) (fun _ => 0) Samples.mesh_with_peer).
  { unfold Samples.mesh_with_peer. apply reach_add. apply reach_new. }
  destruct (requests_stay_empty _ _ _ _ _ _ _ _ Samples.mesh_with_peer Hr) as [_ Hclean].
  exact (Hclean 5000 0).
Defined.

End NetworkFacts.
